(** * Workflow orchestration engine of bc-wallet-mobile

    Shallow embedding of the workflow architecture example
    ([types/workflow.ts], [providers/WorkflowProvider.tsx],
    [utils/workflowUtils.ts] with [WorkflowBuilder], [WorkflowUtils],
    [WorkflowTemplates] and [WorkflowStorage], and the progress count of
    [examples/EnhancedOnboarding.tsx]) and the properties its
    specification states about it, followed by further properties of the
    code.

    Conventions.
    - A TypeScript interface is a record; an optional field is an [option],
      except where the source only ever tests the field for truthiness
      ([headless], [dependencies]), where absent and falsy coincide.
    - [any] is [JsValue], a tree of JavaScript values.
    - The provider's engine methods are closures over the [state] that
      [useReducer] handed to the render; [dispatch] does not assign to that
      constant, it queues an action for the reducer.  An engine method is
      therefore a function of the captured [state] that yields the ordered
      list of effects it performs (dispatches, emitted events, hook
      invocations, navigation calls); the store is obtained by running the
      reducer over the dispatched actions.
    - A JavaScript number that the code computes by division is the IEEE 754
      double: a rational number rounded to the nearest double after each
      operation.  Counts and time values are integers.
    - What the language leaves to the JavaScript engine, the dates read from
      strings in other formats than the one [toISOString] writes among them,
      is a parameter, [Platform]; what is proved holds for every engine.
    - Hooks are user callbacks.  The engine only invokes them, so a hook is
      represented by a label and its invocation is recorded in the trace; a
      hook that calls back into the engine makes a separate engine call. *)

From Stdlib Require Import ZArith QArith Lia Lqa Bool Ascii String DecimalString DecimalNat.
From Stdlib Require PrimFloat FloatOps SpecFloat Uint63.
From stdpp Require Import gmap strings list.

Local Open Scope string_scope.
Local Open Scope list_scope.
Local Open Scope Z_scope.

(** ** JavaScript values *)

#[local] Set Warnings "-register-all".

Inductive JsValue : Type :=
| JUndefined
| JNull
| JBool (b : bool)
| JNumber (n : Z)
| JString (s : string)
| JDate (t : option Z)         (* time value in ms since the epoch; None is an Invalid Date *)
| JFunction
| JArray (items : list JsValue)
| JObject (props : list (string * JsValue)).

(** A callback supplied by the workflow author. *)
Definition Hook := string.

(** ** types/workflow.ts *)

Module Step.
Record t : Type := mk {
  id : string;
  screen : option string;
  completed : bool;
  required : bool;
  (* evaluated on the context's [data]; [userState] and [config] are
     props of the provider and fixed for its lifetime *)
  completionCondition : option (gmap string JsValue -> bool);
  navigationParams : option (list (string * JsValue));
  headless : bool;
  dependencies : list string;
  onActivate : option Hook;
  onComplete : option Hook
}.
End Step.
Abbreviation WorkflowStep := Step.t.

Module Workflow.
Record t : Type := mk {
  id : string;
  name : string;
  steps : list WorkflowStep;
  skippable : bool;
  pausable : bool;
  onComplete : option Hook;
  onStart : option Hook;
  onCancel : option Hook
}.
End Workflow.
Abbreviation WorkflowDefinition := Workflow.t.

Record WorkflowHistoryEntry : Type := {
  he_workflowId : string;
  he_stepId : string;
  completedAt : Z;
  he_data : option JsValue
}.

Record WorkflowState : Type := {
  activeWorkflow : option WorkflowDefinition;
  currentStepId : option string;
  paused : bool;
  history : list WorkflowHistoryEntry;
  data : gmap string JsValue
}.

Inductive WorkflowEvents : Type :=
| WORKFLOW_STARTED
| WORKFLOW_COMPLETED
| WORKFLOW_CANCELLED
| WORKFLOW_PAUSED
| WORKFLOW_RESUMED
| STEP_STARTED
| STEP_COMPLETED
| STEP_SKIPPED.

(** The [timestamp] of an event is the wall clock at emission and is not
    recorded. *)
Record WorkflowEvent : Type := {
  ev_type : WorkflowEvents;
  ev_workflowId : string;
  ev_stepId : option string;
  ev_data : option JsValue
}.

(** ** providers/WorkflowProvider.tsx *)

Definition initialState : WorkflowState :=
  {| activeWorkflow := None; currentStepId := None; paused := false;
     history := []; data := ∅ |}.

Inductive WorkflowAction : Type :=
| START_WORKFLOW (workflow : WorkflowDefinition) (d : option (gmap string JsValue))
| STOP_WORKFLOW
| PAUSE_WORKFLOW
| RESUME_WORKFLOW
| COMPLETE_STEP (stepId : string) (d : option JsValue)
| SET_CURRENT_STEP (stepId : string)
| SET_WORKFLOW_DATA (key : string) (value : JsValue)
| ADD_HISTORY_ENTRY (workflowId stepId : string) (d : option JsValue).

(** [{ ...step, completed: true }] *)
Definition markCompleted (step : WorkflowStep) : WorkflowStep :=
  Step.mk (Step.id step) (Step.screen step) true (Step.required step)
    (Step.completionCondition step) (Step.navigationParams step)
    (Step.headless step) (Step.dependencies step)
    (Step.onActivate step) (Step.onComplete step).

(** [{ ...workflow, steps }] *)
Definition withSteps (workflow : WorkflowDefinition) (ss : list WorkflowStep)
  : WorkflowDefinition :=
  Workflow.mk (Workflow.id workflow) (Workflow.name workflow) ss
    (Workflow.skippable workflow) (Workflow.pausable workflow)
    (Workflow.onComplete workflow) (Workflow.onStart workflow)
    (Workflow.onCancel workflow).

(** [{ ...a, ...b }] on data mappings: the keys of [b] win. *)
Definition spread (a : gmap string JsValue) (b : option (gmap string JsValue))
  : gmap string JsValue :=
  match b with
  | Some b => b ∪ a
  | None => a
  end.

(** The reducer.  [now] is the reading of [new Date()] taken when the
    action is reduced. *)
Definition workflowReducer (now : Z) (state : WorkflowState) (action : WorkflowAction)
  : WorkflowState :=
  match action with
  | START_WORKFLOW workflow d =>
      {| activeWorkflow := Some workflow;
         currentStepId := None;
         paused := false;
         history := history state;
         data := spread (data state) d |}
  | STOP_WORKFLOW =>
      {| activeWorkflow := None;
         currentStepId := None;
         paused := false;
         history := history state;
         data := data state |}
  | PAUSE_WORKFLOW =>
      {| activeWorkflow := activeWorkflow state;
         currentStepId := currentStepId state;
         paused := true;
         history := history state;
         data := data state |}
  | RESUME_WORKFLOW =>
      {| activeWorkflow := activeWorkflow state;
         currentStepId := currentStepId state;
         paused := false;
         history := history state;
         data := data state |}
  | COMPLETE_STEP stepId _ =>
      match activeWorkflow state with
      | None => state
      | Some active =>
          let updatedWorkflow :=
            withSteps active
              (List.map (fun step =>
                           if String.eqb (Step.id step) stepId
                           then markCompleted step else step)
                        (Workflow.steps active)) in
          {| activeWorkflow := Some updatedWorkflow;
             currentStepId := currentStepId state;
             paused := paused state;
             history := history state;
             data := data state |}
      end
  | SET_CURRENT_STEP stepId =>
      {| activeWorkflow := activeWorkflow state;
         currentStepId := Some stepId;
         paused := paused state;
         history := history state;
         data := data state |}
  | SET_WORKFLOW_DATA key value =>
      {| activeWorkflow := activeWorkflow state;
         currentStepId := currentStepId state;
         paused := paused state;
         history := history state;
         data := <[key := value]> (data state) |}
  | ADD_HISTORY_ENTRY workflowId stepId d =>
      {| activeWorkflow := activeWorkflow state;
         currentStepId := currentStepId state;
         paused := paused state;
         history := history state ++
                    [ {| he_workflowId := workflowId;
                         he_stepId := stepId;
                         completedAt := now;
                         he_data := d |} ];
         data := data state |}
  end.

(** What an engine method does, in order. *)
Inductive Effect : Type :=
| Dispatch (a : WorkflowAction)
| Emit (e : WorkflowEvent)
(* [hook(createWorkflowContext(workflow, currentStep))] *)
| Invoke (h : Hook) (workflowId : string) (currentStep : option string)
(* [navigation.navigate(screen, params)] *)
| Navigate (screenName : string) (params : option (list (string * JsValue))).

(** Outcome of an engine call: it returns, it throws, or the chain of
    automatic completions is longer than the fuel granted. *)
Inductive Run (A : Type) : Type :=
| Done (a : A)
| Threw (message : string)
| OutOfFuel.
Arguments Done {A} a.
Arguments Threw {A} message.
Arguments OutOfFuel {A}.

Definition bindRun {A B} (r : Run A) (k : A -> Run B) : Run B :=
  match r with
  | Done a => k a
  | Threw m => Threw m
  | OutOfFuel => OutOfFuel
  end.

(** [await r] followed by the rest of the body, whose effects come after. *)
Definition andThen (pre : list Effect) (r : Run (list Effect)) : Run (list Effect) :=
  bindRun r (fun rest => Done (pre ++ rest)).

(** The store after the dispatched actions of a trace have been reduced. *)
Definition reduceEffect (now : Z) (state : WorkflowState) (e : Effect) : WorkflowState :=
  match e with
  | Dispatch a => workflowReducer now state a
  | _ => state
  end.

Definition applyEffects (now : Z) (state : WorkflowState) (tr : list Effect)
  : WorkflowState :=
  fold_left (reduceEffect now) tr state.

(** [if (hook) await hook(createWorkflowContext(workflow, step))] *)
Definition invoke (h : option Hook) (workflowId : string) (currentStep : option string)
  : list Effect :=
  match h with
  | Some h => [Invoke h workflowId currentStep]
  | None => []
  end.

(** Truthiness of an optional string: [undefined] and [''] are falsy. *)
Definition truthy (s : option string) : bool :=
  match s with
  | Some s => negb (String.eqb s "")
  | None => false
  end.

Definition hasId (stepId : string) (s : WorkflowStep) : bool :=
  String.eqb (Step.id s) stepId.

(** [Array.prototype.findIndex]: -1 when no element satisfies [p]. *)
Fixpoint findIndexFrom {A} (p : A -> bool) (l : list A) (i : Z) : Z :=
  match l with
  | [] => -1
  | x :: l' => if p x then i else findIndexFrom p l' (i + 1)
  end.

Definition findIndex {A} (p : A -> bool) (l : list A) : Z := findIndexFrom p l 0.

Definition areDependenciesMet (step : WorkflowStep) (workflow : WorkflowDefinition) : bool :=
  match Step.dependencies step with
  | [] => true
  | deps =>
      List.forallb
        (fun depId =>
           match List.find (hasId depId) (Workflow.steps workflow) with
           | Some depStep => Step.completed depStep
           | None => false
           end)
        deps
  end.

(** The loop [for (i = currentIndex + 1; i < steps.length; i++)] returns
    the first step at an index from [currentIndex + 1] on that passes the
    test. *)
Definition findNextStep (workflow : WorkflowDefinition) (currentStepId : string)
  : option WorkflowStep :=
  let currentIndex := findIndex (hasId currentStepId) (Workflow.steps workflow) in
  List.find
    (fun step => negb (Step.completed step) && areDependenciesMet step workflow)
    (skipn (Z.to_nat (currentIndex + 1)) (Workflow.steps workflow)).

(** [executeStep], with [engine.completeStep] as a parameter. *)
Definition executeStepWith (completeStep : string -> Run (list Effect))
    (state : WorkflowState) (step : WorkflowStep) : Run (list Effect) :=
  match activeWorkflow state with
  | None => Done []
  | Some active =>
      let activation :=
        [ Dispatch (SET_CURRENT_STEP (Step.id step));
          Emit {| ev_type := STEP_STARTED;
                  ev_workflowId := Workflow.id active;
                  ev_stepId := Some (Step.id step);
                  ev_data := None |} ]
        ++ invoke (Step.onActivate step) (Workflow.id active) (Some (Step.id step))
        ++ (if negb (Step.headless step) && truthy (Step.screen step)
            then [Navigate (default "" (Step.screen step)) (Step.navigationParams step)]
            else []) in
      match Step.completionCondition step with
      | Some condition =>
          if Step.headless step && condition (data state)
          then andThen activation (completeStep (Step.id step))
          else Done activation
      | None => Done activation
      end
  end.

Fixpoint completeStep (fuel : nat) (state : WorkflowState) (stepId : string)
    (d : option JsValue) : Run (list Effect) :=
  match activeWorkflow state with
  | None => Done []
  | Some active =>
      match List.find (hasId stepId) (Workflow.steps active) with
      | None => Done []
      | Some step =>
          let completion :=
            [ Dispatch (COMPLETE_STEP stepId d);
              Dispatch (ADD_HISTORY_ENTRY (Workflow.id active) stepId d);
              Emit {| ev_type := STEP_COMPLETED;
                      ev_workflowId := Workflow.id active;
                      ev_stepId := Some stepId;
                      ev_data := d |} ]
            ++ invoke (Step.onComplete step) (Workflow.id active) (Some (Step.id step)) in
          let allRequiredStepsComplete :=
            List.forallb
              (fun s => Step.completed s || String.eqb (Step.id s) stepId)
              (List.filter Step.required (Workflow.steps active)) in
          if allRequiredStepsComplete
          then
            Done (completion
                  ++ [ Emit {| ev_type := WORKFLOW_COMPLETED;
                               ev_workflowId := Workflow.id active;
                               ev_stepId := None;
                               ev_data := None |} ]
                  ++ invoke (Workflow.onComplete active) (Workflow.id active) None
                  ++ [ Dispatch STOP_WORKFLOW ])
          else
            match findNextStep active stepId with
            | Some nextStep =>
                andThen completion
                  (executeStepWith
                     (fun sid =>
                        match fuel with
                        | O => OutOfFuel
                        | S fuel' => completeStep fuel' state sid None
                        end)
                     state nextStep)
            | None => Done completion
            end
      end
  end.

Definition executeStep (fuel : nat) (state : WorkflowState) (step : WorkflowStep)
  : Run (list Effect) :=
  executeStepWith
    (fun sid =>
       match fuel with
       | O => OutOfFuel
       | S fuel' => completeStep fuel' state sid None
       end)
    state step.

(** [workflowRegistry] is a [Map<string, WorkflowDefinition>]. *)
Definition registerWorkflow (registry : gmap string WorkflowDefinition)
    (workflow : WorkflowDefinition) : gmap string WorkflowDefinition :=
  <[Workflow.id workflow := workflow]> registry.

Definition getWorkflow (registry : gmap string WorkflowDefinition) (workflowId : string)
  : option WorkflowDefinition :=
  registry !! workflowId.

Definition startWorkflow (registry : gmap string WorkflowDefinition) (fuel : nat)
    (state : WorkflowState) (workflowId : string)
    (contextData : option (gmap string JsValue)) : Run (list Effect) :=
  match registry !! workflowId with
  | None => Threw ("Workflow with id '" +:+ workflowId +:+ "' not found")
  | Some workflow =>
      let started :=
        [ Dispatch (START_WORKFLOW workflow contextData);
          Emit {| ev_type := WORKFLOW_STARTED;
                  ev_workflowId := workflowId;
                  ev_stepId := None;
                  ev_data := None |} ]
        ++ invoke (Workflow.onStart workflow) (Workflow.id workflow) None in
      match List.find (fun step => negb (Step.completed step)) (Workflow.steps workflow) with
      | Some firstIncompleteStep =>
          andThen started (executeStep fuel state firstIncompleteStep)
      | None => Done started
      end
  end.

Definition stopWorkflow (state : WorkflowState) : list Effect :=
  match activeWorkflow state with
  | Some active =>
      [ Emit {| ev_type := WORKFLOW_CANCELLED;
                ev_workflowId := Workflow.id active;
                ev_stepId := None;
                ev_data := None |} ]
      ++ invoke (Workflow.onCancel active) (Workflow.id active) None
  | None => []
  end
  ++ [ Dispatch STOP_WORKFLOW ].

Definition pauseWorkflow (state : WorkflowState) : list Effect :=
  match activeWorkflow state with
  | Some active =>
      [ Dispatch PAUSE_WORKFLOW;
        Emit {| ev_type := WORKFLOW_PAUSED;
                ev_workflowId := Workflow.id active;
                ev_stepId := None;
                ev_data := None |} ]
  | None => []
  end.

Definition resumeWorkflow (state : WorkflowState) : list Effect :=
  match activeWorkflow state with
  | Some active =>
      [ Dispatch RESUME_WORKFLOW;
        Emit {| ev_type := WORKFLOW_RESUMED;
                ev_workflowId := Workflow.id active;
                ev_stepId := None;
                ev_data := None |} ]
  | None => []
  end.

Definition skipToStep (fuel : nat) (state : WorkflowState) (stepId : string)
  : Run (list Effect) :=
  match activeWorkflow state with
  | None => Done []
  | Some active =>
      match List.find (hasId stepId) (Workflow.steps active) with
      | Some step => executeStep fuel state step
      | None => Done []
      end
  end.

(** [restartWorkflow] of the context [createWorkflowContext(workflow, ...)]
    builds: [engine.stopWorkflow().then(() => engine.startWorkflow(workflow.id))].
    Both calls are made on the engine that built the context, so both read
    the same [state].  The first component is what the stop does; the second
    is the start, which the caller does not await. *)
Definition restartWorkflow (registry : gmap string WorkflowDefinition) (fuel : nat)
    (state : WorkflowState) (workflow : WorkflowDefinition)
  : list Effect * Run (list Effect) :=
  (stopWorkflow state, startWorkflow registry fuel state (Workflow.id workflow) None).

(** [setData] of the context. *)
Definition setData (key : string) (value : JsValue) : list Effect :=
  [ Dispatch (SET_WORKFLOW_DATA key value) ].

(** ** JavaScript numbers *)

(** The integer nearest to [num / den], the even one on a tie. *)
Definition roundHalfEven (num den : Z) : Z :=
  let q := num / den in
  let r := num mod den in
  if 2 * r <? den then q
  else if den <? 2 * r then q + 1
  else if Z.even q then q else q + 1.

(** [d * 2 ^ k <= n], for [k] of either sign. *)
Definition scaledLe (d k n : Z) : bool :=
  if 0 <=? k then Z.shiftl d k <=? n else d <=? Z.shiftl n (- k).

(** The double nearest to [n / d], for positive [n] and [d], as a
    significand and the exponent of its last place: the quotient is scaled
    to 53 bits, or to the exponent -1074 of the subnormal numbers where it
    is smaller, and rounded to nearest, ties to even (a significand that
    rounds up to [2 ^ 53] is the next power of two). *)
Definition nearest (n d : Z) : Z * Z :=
  let k := Z.log2 n - Z.log2 d in
  let e := Z.max (-1074) (if scaledLe d k n then k - 52 else k - 53) in
  (if 0 <=? e then roundHalfEven n (Z.shiftl d e)
   else roundHalfEven (Z.shiftl n (- e)) d,
   e).

(** [m * 2 ^ e] *)
Definition dyadic (m e : Z) : Q :=
  if 0 <=? e then inject_Z (Z.shiftl m e) else m # 2 ^ Z.to_pos (- e).

(** The double nearest to a rational number.  Doubles of magnitude
    [2 ^ 1024] and above do not exist: a result that large rounds to an
    infinity, which is not represented here (the numbers rounded in this
    development are quotients of step counts and percentages). *)
Definition roundDouble (x : Q) : Q :=
  match Qnum x with
  | Z0 => 0%Q
  | Zpos n => let '(m, e) := nearest (Zpos n) (Zpos (Qden x)) in dyadic m e
  | Zneg n => let '(m, e) := nearest (Zpos n) (Zpos (Qden x)) in dyadic (- m) e
  end.

(** [a / b] and [a * b] on doubles; [b] is not zero where the code
    divides. *)
Definition divDouble (a b : Q) : Q := roundDouble (a / b).
Definition mulDouble (a b : Q) : Q := roundDouble (a * b).

(** The least positive double, [2 ^ -1074]: every finite double is an
    integer number of these units. *)
Definition doubleUnit : Z := 2 ^ 1074.

Definition ofUnits (units : Z) : Q := units # Z.to_pos doubleUnit.

(** A non-negative double, by significand and exponent. *)
Definition isDouble (b : Q) : Prop :=
  exists M J, 0 <= J /\ 0 <= M < 2 ^ 53 /\ (b == ofUnits (M * 2 ^ J))%Q.

(** The value of one of the kernel's binary64 numbers. *)
Definition valueOfFloat (f : PrimFloat.float) : option Q :=
  match FloatOps.Prim2SF f with
  | SpecFloat.S754_zero _ => Some 0%Q
  | SpecFloat.S754_finite s m e => Some (dyadic (if s then Zneg m else Zpos m) e)
  | _ => None
  end.

Definition floatOfZ (n : Z) : PrimFloat.float := PrimFloat.of_uint63 (Uint63.of_Z n).

(** [(c / t) * 100] computed by the kernel's binary64 arithmetic and by
    [divDouble] and [mulDouble] is the same number. *)
Definition sameAsBinary64 (c t : Z) : bool :=
  match valueOfFloat
          (PrimFloat.mul (PrimFloat.div (floatOfZ c) (floatOfZ t)) (floatOfZ 100)) with
  | Some v => Qeq_bool (mulDouble (divDouble (inject_Z c) (inject_Z t)) (inject_Z 100)) v
  | None => false
  end.

(** A test on every integer from 0 up to [n - 1]. *)
Fixpoint allBelow (n : nat) (p : Z -> bool) : bool :=
  match n with
  | O => true
  | S n' => p (Z.of_nat n') && allBelow n' p
  end.

(** ** utils/workflowUtils.ts *)

Module WorkflowUtils.

Record Progress : Type := {
  completed : nat;
  total : nat;
  percentage : Q;
  requiredCompleted : nat;
  requiredTotal : nat
}.

(** [percentage] is [(completed / visibleSteps.length) * 100] on doubles. *)
Definition getProgress (workflow : WorkflowDefinition) : Progress :=
  let visibleSteps :=
    List.filter (fun step => negb (Step.headless step)) (Workflow.steps workflow) in
  let requiredSteps := List.filter Step.required (Workflow.steps workflow) in
  let completed := length (List.filter Step.completed visibleSteps) in
  let requiredCompleted := length (List.filter Step.completed requiredSteps) in
  {| completed := completed;
     total := length visibleSteps;
     percentage :=
       if (0 <? length visibleSteps)%nat
       then mulDouble (divDouble (inject_Z (Z.of_nat completed))
                                 (inject_Z (Z.of_nat (length visibleSteps))))
                      (inject_Z 100)
       else inject_Z 0;
     requiredCompleted := requiredCompleted;
     requiredTotal := length requiredSteps |}.

Definition canComplete (workflow : WorkflowDefinition) : bool :=
  List.forallb Step.completed (List.filter Step.required (Workflow.steps workflow)).

Definition areDependenciesMet (step : WorkflowStep) (workflow : WorkflowDefinition) : bool :=
  match Step.dependencies step with
  | [] => true
  | deps =>
      List.forallb
        (fun depId =>
           match List.find (hasId depId) (Workflow.steps workflow) with
           | Some depStep => Step.completed depStep
           | None => false
           end)
        deps
  end.

Definition getNextStep (workflow : WorkflowDefinition) (currentStepId : option string)
  : option WorkflowStep :=
  let currentIndex :=
    match currentStepId with
    | Some sid => if String.eqb sid "" then -1
                  else findIndex (hasId sid) (Workflow.steps workflow)
    | None => -1
    end in
  List.find
    (fun step => negb (Step.completed step) && areDependenciesMet step workflow)
    (skipn (Z.to_nat (currentIndex + 1)) (Workflow.steps workflow)).

Record Validation : Type := {
  valid : bool;
  errors : list string
}.

(** The body of [workflow.steps.forEach], for one step; [stepIds] is the
    set of ids seen before it. *)
Definition stepErrors (stepIds : gset string) (step : WorkflowStep) : list string :=
  (if decide (Step.id step ∈ stepIds)
   then ["Duplicate step ID: " +:+ Step.id step] else [])
  ++ flat_map
       (fun depId =>
          if decide (depId ∈ ({[Step.id step]} ∪ stepIds : gset string))
          then []
          else ["Step " +:+ Step.id step +:+ " depends on non-existent step: " +:+ depId])
       (Step.dependencies step)
  ++ (if Step.headless step
         && negb (bool_decide (is_Some (Step.onActivate step)))
         && negb (bool_decide (is_Some (Step.completionCondition step)))
      then ["Headless step " +:+ Step.id step
            +:+ " must have onActivate or completionCondition"]
      else [])
  ++ (if negb (Step.headless step) && negb (truthy (Step.screen step))
      then ["Step " +:+ Step.id step +:+ " must have a screen or be marked as headless"]
      else []).

Fixpoint validateSteps (stepIds : gset string) (steps : list WorkflowStep)
  : list string :=
  match steps with
  | [] => []
  | step :: rest =>
      stepErrors stepIds step
      ++ validateSteps ({[Step.id step]} ∪ stepIds) rest
  end.

Definition validate (workflow : WorkflowDefinition) : Validation :=
  let errors :=
    (if String.eqb (Workflow.id workflow) "" then ["Workflow must have an id"] else [])
    ++ (if String.eqb (Workflow.name workflow) "" then ["Workflow must have a name"] else [])
    ++ (match Workflow.steps workflow with
        | [] => ["Workflow must have at least one step"]
        | _ => []
        end)
    ++ validateSteps ∅ (Workflow.steps workflow) in
  {| valid := match errors with [] => true | _ => false end;
     errors := errors |}.

Record Summary : Type := {
  summaryId : string;
  summaryName : string;
  totalSteps : nat;
  completedSteps : nat;
  requiredSteps : nat;
  completedRequiredSteps : nat;
  isComplete : bool;
  nextStep : option string
}.

Definition getSummary (workflow : WorkflowDefinition) : Summary :=
  let progress := WorkflowUtils.getProgress workflow in
  let nextStep := WorkflowUtils.getNextStep workflow None in
  {| summaryId := Workflow.id workflow;
     summaryName := Workflow.name workflow;
     totalSteps := WorkflowUtils.total progress;
     completedSteps := WorkflowUtils.completed progress;
     requiredSteps := WorkflowUtils.requiredTotal progress;
     completedRequiredSteps := WorkflowUtils.requiredCompleted progress;
     isComplete := WorkflowUtils.canComplete workflow;
     nextStep := option_map Step.id nextStep |}.

End WorkflowUtils.

(** ** JSON documents and dates *)

(** A JSON text is represented by the document it denotes: what
    [JSON.stringify] writes for a value, [JSON.parse] reads back.  The
    members of an object are kept in the order of the text. *)
Inductive Json : Type :=
| JsonNull
| JsonBool (b : bool)
| JsonNumber (n : Z)
| JsonString (s : string)
| JsonArray (items : list Json)
| JsonObject (members : list (string * Json)).

(** The proleptic Gregorian calendar of ECMAScript dates: the civil date of
    a day number counted from 1970-01-01, and back. *)
Definition civilOfEraDay (doe : Z) : Z * Z * Z :=
  let yoe := (doe - doe / 1460 + doe / 36524 - doe / 146096) / 365 in
  let doy := doe - (365 * yoe + yoe / 4 - yoe / 100) in
  let mp := (5 * doy + 2) / 153 in
  let d := doy - (153 * mp + 2) / 5 + 1 in
  let m := if mp <? 10 then mp + 3 else mp - 9 in
  (if m <=? 2 then yoe + 1 else yoe, m, d).

Definition civilFromDays (day : Z) : Z * Z * Z :=
  let z := day + 719468 in
  let '(y, m, d) := civilOfEraDay (z mod 146097) in
  (y + z / 146097 * 400, m, d).

Definition daysFromCivil (year month date : Z) : Z :=
  let y := if month <=? 2 then year - 1 else year in
  let era := y / 400 in
  let yoe := y - era * 400 in
  let mp := if 2 <? month then month - 3 else month + 9 in
  let doy := (153 * mp + 2) / 5 + date - 1 in
  let doe := yoe * 365 + yoe / 4 - yoe / 100 + doy in
  era * 146097 + doe - 719468.

Definition isLeapYear (y : Z) : bool :=
  ((y mod 4 =? 0) && negb (y mod 100 =? 0)) || (y mod 400 =? 0).

Definition daysInMonth (y m : Z) : Z :=
  if m =? 2 then (if isLeapYear y then 29 else 28)
  else if (m =? 4) || (m =? 6) || (m =? 9) || (m =? 11) then 30
  else 31.

Definition msPerDay : Z := 86400000.

(** The largest time value of a Date, in either direction. *)
Definition maxTime : Z := 8640000000000000.

(** [TimeClip]: a time value out of range is NaN. *)
Definition timeClip (t : Z) : option Z :=
  if (- maxTime <=? t) && (t <=? maxTime) then Some t else None.

(** A test on every integer from [z] up, [n] of them. *)
Fixpoint allFrom (n : nat) (z : Z) (p : Z -> bool) : bool :=
  match n with
  | O => true
  | S n' => p z && allFrom n' (z + 1) p
  end.

(** On a day of the year counted from March 1: the month and the date are
    those of the calendar (February 29 is day 365), and they give the day
    back. *)
Definition monthDayOk (doy : Z) : bool :=
  let mp := (5 * doy + 2) / 153 in
  let d := doy - (153 * mp + 2) / 5 + 1 in
  let m := if mp <? 10 then mp + 3 else mp - 9 in
  (1 <=? m) && (m <=? 12) && (1 <=? d)
  && (d <=? daysInMonth (if doy =? 365 then 4 else 1) m)
  && ((153 * (if 2 <? m then m - 3 else m + 9) + 2) / 5 + d - 1 =? doy).

Definition digitChar (d : Z) : ascii := ascii_of_nat (48 + Z.to_nat d).

Definition digitValue (c : ascii) : option Z :=
  let n := nat_of_ascii c in
  if (48 <=? n)%nat && (n <=? 57)%nat then Some (Z.of_nat n - 48) else None.

(** [n] in [width] decimal digits, zero padded. *)
Fixpoint pad (width : nat) (n : Z) : list ascii :=
  match width with
  | O => []
  | S w => pad w (n / 10) ++ [digitChar (n mod 10)]
  end.

(** [Date.prototype.toISOString] for a time value in range:
    [YYYY-MM-DDTHH:mm:ss.sssZ], the year in six signed digits outside
    0..9999. *)
Definition isoChars (t : Z) : list ascii :=
  let day := t / msPerDay in
  let ms := t mod msPerDay in
  let '(y, m, d) := civilFromDays day in
  (if (0 <=? y) && (y <=? 9999) then pad 4 y
   else (if y <? 0 then "-"%char else "+"%char) :: pad 6 (Z.abs y))
  ++ "-"%char :: pad 2 m
  ++ "-"%char :: pad 2 d
  ++ "T"%char :: pad 2 (ms / 3600000)
  ++ ":"%char :: pad 2 (ms / 60000 mod 60)
  ++ ":"%char :: pad 2 (ms / 1000 mod 60)
  ++ "."%char :: pad 3 (ms mod 1000)
  ++ ["Z"%char].

Definition toISOString (t : Z) : string := string_of_list_ascii (isoChars t).

Fixpoint readDigits (count : nat) (acc : Z) (cs : list ascii) : option (Z * list ascii) :=
  match count with
  | O => Some (acc, cs)
  | S count' =>
      match cs with
      | c :: rest =>
          match digitValue c with
          | Some d => readDigits count' (10 * acc + d) rest
          | None => None
          end
      | [] => None
      end
  end.

Definition readChar (c : ascii) (cs : list ascii) : option (list ascii) :=
  match cs with
  | c' :: rest => if Ascii.eqb c c' then Some rest else None
  | [] => None
  end.

Definition readYear (cs : list ascii) : option (Z * list ascii) :=
  match cs with
  | c :: rest =>
      if Ascii.eqb c "+" then readDigits 6 0 rest
      else if Ascii.eqb c "-" then
        match readDigits 6 0 rest with
        | Some (y, rest') => if y =? 0 then None else Some (- y, rest')
        | None => None
        end
      else readDigits 4 0 cs
  | [] => None
  end.

(** The time value of a string in the format [toISOString] writes, with
    every field in its range; [None] for any other string. *)
Definition parseChars (cs : list ascii) : option Z :=
  '(y, cs) ← readYear cs;
  cs ← readChar "-" cs;
  '(m, cs) ← readDigits 2 0 cs;
  cs ← readChar "-" cs;
  '(d, cs) ← readDigits 2 0 cs;
  cs ← readChar "T" cs;
  '(hh, cs) ← readDigits 2 0 cs;
  cs ← readChar ":" cs;
  '(mm, cs) ← readDigits 2 0 cs;
  cs ← readChar ":" cs;
  '(ss, cs) ← readDigits 2 0 cs;
  cs ← readChar "." cs;
  '(ms, cs) ← readDigits 3 0 cs;
  cs ← readChar "Z" cs;
  match cs with
  | [] =>
      if (1 <=? m) && (m <=? 12) && (1 <=? d) && (d <=? daysInMonth y m)
         && (hh <=? 23) && (mm <=? 59) && (ss <=? 59)
      then timeClip (daysFromCivil y m d * msPerDay
                     + hh * 3600000 + mm * 60000 + ss * 1000 + ms)
      else None
  | _ => None
  end.

(** What is left to the JavaScript engine.
    - [parseOther s] is [Date.parse(s)] for a string that is not in the
      format of [toISOString] with every field in its range: the date-only
      forms and the forms with a time zone offset or without one, a field
      out of range that an engine rolls over or rejects, and the formats an
      engine reads besides.  [None] is NaN.
    - [dateOfObject value] is the time value of [new Date(value)] for an
      array, a plain object or a function: the value is converted to a
      primitive through its [valueOf] and [toString], which can throw, and
      the string obtained is parsed. *)
Record Platform : Type := {
  parseOther : string -> option Z;
  dateOfObject : JsValue -> Run (option Z)
}.

(** [Date.parse] *)
Definition Date_parse (platform : Platform) (s : string) : option Z :=
  match parseChars (list_ascii_of_string s) with
  | Some t => Some t
  | None => parseOther platform s
  end.

(** The first comparison, and the second on a tie. *)
Definition lexOrder (first second : comparison) : comparison :=
  match first with
  | Eq => second
  | _ => first
  end.

(** The calendar year of a time value, in UTC. *)
Definition yearOf (t : Z) : Z :=
  let '(y, _, _) := civilFromDays (t / msPerDay) in y.

(** [JSON.stringify] of a value, as a document; [None] is [undefined].
    A Date is written by its [toJSON]: its ISO string, or [null] when it is
    invalid.  In an object a member whose value is [undefined] or a function
    is left out; in an array it is written [null]. *)
Fixpoint toJson (v : JsValue) : option Json :=
  match v with
  | JUndefined => None
  | JFunction => None
  | JNull => Some JsonNull
  | JBool b => Some (JsonBool b)
  | JNumber n => Some (JsonNumber n)
  | JString s => Some (JsonString s)
  | JDate None => Some JsonNull
  | JDate (Some t) => Some (JsonString (toISOString t))
  | JArray items =>
      Some (JsonArray (List.map (fun item => default JsonNull (toJson item)) items))
  | JObject props =>
      Some (JsonObject
              ((fix members (ps : list (string * JsValue)) : list (string * Json) :=
                  match ps with
                  | [] => []
                  | (k, v) :: ps' =>
                      match toJson v with
                      | Some j => (k, j) :: members ps'
                      | None => members ps'
                      end
                  end) props))
  end.

(** The members [JSON.stringify] writes for the properties of an object. *)
Definition jsonMembers (props : list (string * JsValue)) : list (string * Json) :=
  (fix members (ps : list (string * JsValue)) : list (string * Json) :=
     match ps with
     | [] => []
     | (k, v) :: ps' =>
         match toJson v with
         | Some j => (k, j) :: members ps'
         | None => members ps'
         end
     end) props.

(** [JSON.parse] of a document. *)
Fixpoint fromJson (j : Json) : JsValue :=
  match j with
  | JsonNull => JNull
  | JsonBool b => JBool b
  | JsonNumber n => JNumber n
  | JsonString s => JString s
  | JsonArray items => JArray (List.map fromJson items)
  | JsonObject members =>
      JObject (List.map (fun m => (fst m, fromJson (snd m))) members)
  end.

(** The properties of the object [JSON.parse] builds from members. *)
Definition fromMembers (members : list (string * Json)) : list (string * JsValue) :=
  List.map (fun m => (fst m, fromJson (snd m))) members.

(** [obj[key]] on the own properties of an object. *)
Fixpoint getProp (props : list (string * JsValue)) (key : string) : JsValue :=
  match props with
  | [] => JUndefined
  | (k, v) :: rest => if String.eqb k key then v else getProp rest key
  end.

(** [{ ...obj, [key]: value }]: the property keeps its place when [obj] has
    it, and comes last otherwise. *)
Fixpoint setProp (props : list (string * JsValue)) (key : string) (value : JsValue)
  : list (string * JsValue) :=
  match props with
  | [] => [(key, value)]
  | (k, v) :: rest =>
      if String.eqb k key then (k, value) :: rest
      else (k, v) :: setProp rest key value
  end.

(** [new Date(value)]: a Date is copied, a string is parsed, a number, a
    boolean, [null] and [undefined] are converted to a number and clipped,
    and any other object goes through its primitive form. *)
Definition newDate (platform : Platform) (value : JsValue) : Run JsValue :=
  match value with
  | JDate t => Done (JDate t)
  | JString s => Done (JDate (Date_parse platform s))
  | JNumber n => Done (JDate (timeClip n))
  | JBool b => Done (JDate (Some (if b then 1 else 0)))
  | JNull => Done (JDate (Some 0))
  | JUndefined => Done (JDate None)
  | JFunction | JArray _ | JObject _ =>
      bindRun (dateOfObject platform value) (fun t => Done (JDate t))
  end.

(** Sequencing of a list of computations, left to right. *)
Fixpoint mapRun {A B} (f : A -> Run B) (l : list A) : Run (list B) :=
  match l with
  | [] => Done []
  | x :: l' => bindRun (f x) (fun y => bindRun (mapRun f l') (fun ys => Done (y :: ys)))
  end.

(** ** utils/workflowUtils.ts: WorkflowStorage *)

Module WorkflowStorage.

(** [{ ...entry, completedAt: entry.completedAt.toISOString() }] *)
Definition serializeEntry (entry : JsValue) : Run JsValue :=
  match entry with
  | JObject props =>
      match getProp props "completedAt" with
      | JDate (Some t) => Done (JObject (setProp props "completedAt" (JString (toISOString t))))
      | JDate None => Threw "RangeError: Invalid time value"
      | _ => Threw "TypeError: entry.completedAt.toISOString is not a function"
      end
  | _ => Threw "TypeError: entry.completedAt.toISOString is not a function"
  end.

(** [state] is the object holding the workflow state, by its properties. *)
Definition serialize (state : list (string * JsValue)) : Run Json :=
  bindRun
    match getProp state "history" with
    | JUndefined => Done JUndefined
    | JNull => Done JUndefined
    | JArray entries => bindRun (mapRun serializeEntry entries) (fun es => Done (JArray es))
    | _ => Threw "TypeError: state.history.map is not a function"
    end
    (fun history => Done (JsonObject (jsonMembers (setProp state "history" history)))).

(** [{ ...entry, completedAt: new Date(entry.completedAt) }].  For an entry
    that is not an object the indexed properties that spreading a string or
    an array copies are left out. *)
Definition deserializeEntry (platform : Platform) (entry : JsValue) : Run JsValue :=
  match entry with
  | JObject props =>
      bindRun (newDate platform (getProp props "completedAt"))
              (fun completedAt => Done (JObject (setProp props "completedAt" completedAt)))
  | JNull => Threw "TypeError: Cannot read properties of null"
  | JUndefined => Threw "TypeError: Cannot read properties of undefined"
  | _ => Done (JObject [("completedAt", JDate None)])
  end.

(** The result is an object, given by its properties.  For a document that
    is not an object the indexed properties that spreading a string or an
    array copies are left out. *)
Definition deserialize (platform : Platform) (document : Json)
  : Run (list (string * JsValue)) :=
  match fromJson document with
  | JObject parsed =>
      bindRun
        match getProp parsed "history" with
        | JUndefined => Done JUndefined
        | JNull => Done JUndefined
        | JArray entries =>
            bindRun (mapRun (deserializeEntry platform) entries)
                    (fun es => Done (JArray es))
        | _ => Threw "TypeError: parsed.history.map is not a function"
        end
        (fun history => Done (setProp parsed "history" history))
  | JNull => Threw "TypeError: Cannot read properties of null"
  | _ => Done [("history", JUndefined)]
  end.

End WorkflowStorage.

(** ** utils/workflowUtils.ts: WorkflowBuilder *)

(** The decimal numeral of a natural number, which a template literal
    writes for it. *)
Definition decimal (n : nat) : string := NilEmpty.string_of_uint (Nat.to_uint n).

(** The argument of [addStep], of type
    [Omit<WorkflowStep, 'id'> & { id?: string }], and the
    [Partial<WorkflowStep>] the other methods of the builder take: every
    property may be absent.  [completed] is left out, [addStep] overwrites
    it. *)
Module StepOptions.
Record t : Type := mk {
  id : option string;
  screen : option string;
  required : option bool;
  completionCondition : option (gmap string JsValue -> bool);
  navigationParams : option (list (string * JsValue));
  headless : option bool;
  dependencies : option (list string);
  onActivate : option Hook;
  onComplete : option Hook
}.

Definition override {A} (a b : option A) : option A :=
  match b with
  | Some _ => b
  | None => a
  end.

(** [{ ...a, ...b }] *)
Definition spread (a b : t) : t :=
  mk (override (id a) (id b)) (override (screen a) (screen b))
     (override (required a) (required b))
     (override (completionCondition a) (completionCondition b))
     (override (navigationParams a) (navigationParams b))
     (override (headless a) (headless b))
     (override (dependencies a) (dependencies b))
     (override (onActivate a) (onActivate b))
     (override (onComplete a) (onComplete b)).
End StepOptions.

(** The builder holds the partial definition it is building.  A property
    that has not been set reads as the falsy value of its type: [""] for the
    id and the name, [false] for a flag. *)
Module WorkflowBuilder.

Definition create (id name : string) : WorkflowDefinition :=
  Workflow.mk id name [] false false None None None.

Definition skippable (skippable : bool) (builder : WorkflowDefinition)
  : WorkflowDefinition :=
  Workflow.mk (Workflow.id builder) (Workflow.name builder) (Workflow.steps builder)
    skippable (Workflow.pausable builder)
    (Workflow.onComplete builder) (Workflow.onStart builder) (Workflow.onCancel builder).

Definition pausable (pausable : bool) (builder : WorkflowDefinition)
  : WorkflowDefinition :=
  Workflow.mk (Workflow.id builder) (Workflow.name builder) (Workflow.steps builder)
    (Workflow.skippable builder) pausable
    (Workflow.onComplete builder) (Workflow.onStart builder) (Workflow.onCancel builder).

(** [step.id || `step-${this.workflow.steps.length + 1}`] *)
Definition stepId (builder : WorkflowDefinition) (step : StepOptions.t) : string :=
  if truthy (StepOptions.id step)
  then default "" (StepOptions.id step)
  else "step-" +:+ decimal (length (Workflow.steps builder) + 1).

(** [{ ...step, id: stepId, completed: false }], as the engine reads it:
    an absent flag is false, absent dependencies are none. *)
Definition addStep (builder : WorkflowDefinition) (step : StepOptions.t)
  : WorkflowDefinition :=
  withSteps builder
    (Workflow.steps builder
     ++ [ Step.mk (stepId builder step) (StepOptions.screen step) false
            (default false (StepOptions.required step))
            (StepOptions.completionCondition step)
            (StepOptions.navigationParams step)
            (default false (StepOptions.headless step))
            (default [] (StepOptions.dependencies step))
            (StepOptions.onActivate step) (StepOptions.onComplete step) ]).

Definition addScreenStep (builder : WorkflowDefinition) (screen : string)
    (options : StepOptions.t) : WorkflowDefinition :=
  addStep builder
    (StepOptions.spread
       (StepOptions.mk None (Some screen) (Some true) None None None None None None)
       options).

Definition addHeadlessStep (builder : WorkflowDefinition) (action : Hook)
    (options : StepOptions.t) : WorkflowDefinition :=
  addStep builder
    (StepOptions.spread
       (StepOptions.mk None None (Some true) None None (Some true) None (Some action) None)
       options).

Definition addConditionalStep (builder : WorkflowDefinition)
    (condition : gmap string JsValue -> bool) (step : StepOptions.t)
  : WorkflowDefinition :=
  addStep builder
    (StepOptions.mk (StepOptions.id step) (StepOptions.screen step)
       (StepOptions.required step)
       (Some (fun context =>
                if negb (condition context) then true
                else match StepOptions.completionCondition step with
                     | Some completionCondition => completionCondition context || false
                     | None => false
                     end))
       (StepOptions.navigationParams step) (StepOptions.headless step)
       (StepOptions.dependencies step)
       (StepOptions.onActivate step) (StepOptions.onComplete step)).

Definition onComplete (callback : Hook) (builder : WorkflowDefinition)
  : WorkflowDefinition :=
  Workflow.mk (Workflow.id builder) (Workflow.name builder) (Workflow.steps builder)
    (Workflow.skippable builder) (Workflow.pausable builder)
    (Some callback) (Workflow.onStart builder) (Workflow.onCancel builder).

Definition onStart (callback : Hook) (builder : WorkflowDefinition)
  : WorkflowDefinition :=
  Workflow.mk (Workflow.id builder) (Workflow.name builder) (Workflow.steps builder)
    (Workflow.skippable builder) (Workflow.pausable builder)
    (Workflow.onComplete builder) (Some callback) (Workflow.onCancel builder).

Definition onCancel (callback : Hook) (builder : WorkflowDefinition)
  : WorkflowDefinition :=
  Workflow.mk (Workflow.id builder) (Workflow.name builder) (Workflow.steps builder)
    (Workflow.skippable builder) (Workflow.pausable builder)
    (Workflow.onComplete builder) (Workflow.onStart builder) (Some callback).

Definition build (builder : WorkflowDefinition) : Run WorkflowDefinition :=
  if String.eqb (Workflow.id builder) "" || String.eqb (Workflow.name builder) ""
  then Threw "Workflow must have an id and name"
  else Done builder.

End WorkflowBuilder.

(** ** utils/workflowUtils.ts: WorkflowTemplates *)

Module WorkflowTemplates.

Record LinearOptions : Type := {
  skippable : option bool;
  pausable : option bool;
  allRequired : option bool
}.

(** [screens.forEach((screen, index) => builder.addScreenStep(screen,
    { id: `step-${index + 1}`, required }))], from [index] on. *)
Fixpoint addScreens (index : nat) (screens : list string) (required : bool)
    (builder : WorkflowDefinition) : WorkflowDefinition :=
  match screens with
  | [] => builder
  | screen :: rest =>
      addScreens (S index) rest required
        (WorkflowBuilder.addScreenStep builder screen
           (StepOptions.mk (Some ("step-" +:+ decimal (index + 1))) None (Some required)
              None None None None None None))
  end.

Definition createLinearWorkflow (id name : string) (screens : list string)
    (options : LinearOptions) : Run WorkflowDefinition :=
  WorkflowBuilder.build
    (addScreens 0 screens
       (negb (bool_decide (allRequired options = Some false)))
       (WorkflowBuilder.pausable (default false (pausable options))
          (WorkflowBuilder.skippable (default false (skippable options))
             (WorkflowBuilder.create id name)))).

End WorkflowTemplates.

(** ** examples/EnhancedOnboarding.tsx *)

Module EnhancedOnboarding.

Record OnboardingProgress : Type := {
  current : nat;
  total : nat;
  percentage : Q
}.

(** The header title of [WorkflowNavigator] shows the same two counts. *)
Definition calculateOnboardingProgress (workflow : WorkflowDefinition)
  : OnboardingProgress :=
  let totalSteps :=
    length (List.filter (fun step => negb (Step.headless step)) (Workflow.steps workflow)) in
  let completedSteps := length (List.filter Step.completed (Workflow.steps workflow)) in
  {| current := completedSteps;
     total := totalSteps;
     percentage :=
       if (0 <? totalSteps)%nat
       then mulDouble (divDouble (inject_Z (Z.of_nat completedSteps))
                                 (inject_Z (Z.of_nat totalSteps)))
                      (inject_Z 100)
       else inject_Z 0 |}.

End EnhancedOnboarding.

(** ** Vocabulary of the specification *)

(** The violations the specification lists for a definition, each with the
    message that reports it. *)
Inductive Violation (workflow : WorkflowDefinition) : string -> Prop :=
| EmptyId :
    Workflow.id workflow = "" ->
    Violation workflow "Workflow must have an id"
| EmptyName :
    Workflow.name workflow = "" ->
    Violation workflow "Workflow must have a name"
| NoSteps :
    Workflow.steps workflow = [] ->
    Violation workflow "Workflow must have at least one step"
| DuplicateStepId pre step post :
    Workflow.steps workflow = pre ++ step :: post ->
    In (Step.id step) (List.map Step.id pre) ->
    Violation workflow ("Duplicate step ID: " +:+ Step.id step)
| DanglingDependency step depId :
    In step (Workflow.steps workflow) ->
    In depId (Step.dependencies step) ->
    (forall s, In s (Workflow.steps workflow) -> Step.id s <> depId) ->
    Violation workflow
      ("Step " +:+ Step.id step +:+ " depends on non-existent step: " +:+ depId)
| HeadlessWithoutAction step :
    In step (Workflow.steps workflow) ->
    Step.headless step = true ->
    Step.onActivate step = None ->
    Step.completionCondition step = None ->
    Violation workflow
      ("Headless step " +:+ Step.id step +:+ " must have onActivate or completionCondition")
| InteractiveWithoutScreen step :
    In step (Workflow.steps workflow) ->
    Step.headless step = false ->
    truthy (Step.screen step) = false ->
    Violation workflow
      ("Step " +:+ Step.id step +:+ " must have a screen or be marked as headless").

(** ** Well-declared definitions *)

(** A step [validate] has nothing to say against, [seen] being the ids of
    the steps declared before it. *)
Definition stepOk (seen : gset string) (step : WorkflowStep) : Prop :=
  (Step.id step ∉ seen)
  /\ (forall depId, In depId (Step.dependencies step) ->
        depId = Step.id step \/ depId ∈ seen)
  /\ (Step.headless step = true ->
        is_Some (Step.onActivate step) \/ is_Some (Step.completionCondition step))
  /\ (Step.headless step = false -> truthy (Step.screen step) = true).

Fixpoint stepsOk (seen : gset string) (steps : list WorkflowStep) : Prop :=
  match steps with
  | [] => True
  | step :: rest => stepOk seen step /\ stepsOk ({[Step.id step]} ∪ seen) rest
  end.

(** A definition [validate] has nothing to say against: it has an id, a
    name and at least one step; the step ids are distinct; every dependency
    of a step names the step itself or a step declared before it; a headless
    step has an activation hook or a completion condition, and any other
    step has a screen. *)
Definition wellDeclared (workflow : WorkflowDefinition) : Prop :=
  Workflow.id workflow <> ""
  /\ Workflow.name workflow <> ""
  /\ Workflow.steps workflow <> []
  /\ List.NoDup (List.map Step.id (Workflow.steps workflow))
  /\ (forall pre step post depId,
        Workflow.steps workflow = pre ++ step :: post ->
        In depId (Step.dependencies step) ->
        depId = Step.id step \/ In depId (List.map Step.id pre))
  /\ (forall step, In step (Workflow.steps workflow) ->
        Step.headless step = true ->
        is_Some (Step.onActivate step) \/ is_Some (Step.completionCondition step))
  /\ (forall step, In step (Workflow.steps workflow) ->
        Step.headless step = false -> truthy (Step.screen step) = true).

(** ** Example definitions *)

(** [WorkflowBuilder.addScreenStep], with the builder's [completed: false]. *)
Definition screenStep (id screen : string) (required : bool) (dependencies : list string)
  : WorkflowStep :=
  Step.mk id (Some screen) false required None None false dependencies None None.

(** A headless step that carries a completion condition. *)
Definition conditionalStep (id : string) (required : bool)
    (condition : gmap string JsValue -> bool) : WorkflowStep :=
  Step.mk id None false required (Some condition) None true [] None None.

Definition workflowOf (id name : string) (steps : list WorkflowStep) : WorkflowDefinition :=
  Workflow.mk id name steps false true None None None.

Definition activeState (workflow : WorkflowDefinition) (current : option string)
  : WorkflowState :=
  {| activeWorkflow := Some workflow; currentStepId := current; paused := false;
     history := []; data := ∅ |}.

(** [WorkflowTemplates.createLinearWorkflow('linear', 'Linear',
    ['S1', 'S2', 'S3'], { pausable: true })] *)
Definition linearWorkflow : WorkflowDefinition :=
  workflowOf "linear" "Linear"
    [ screenStep "step-1" "S1" true [];
      screenStep "step-2" "S2" true [];
      screenStep "step-3" "S3" true [] ].

(** Two steps share an id, and a dependency names no step. *)
Definition malformedWorkflow : WorkflowDefinition :=
  workflowOf "malformed" "Malformed"
    [ screenStep "a" "S1" true [];
      screenStep "a" "S2" true ["ghost"] ].

(** A required screen, then a required headless step whose condition holds
    as soon as it is activated. *)
Definition autoWorkflow : WorkflowDefinition :=
  workflowOf "auto" "Auto"
    [ screenStep "form" "Form" true [];
      conditionalStep "sync" true (fun _ => true) ].

(** A screen, a headless step that completes on activation, a screen. *)
Definition detourWorkflow : WorkflowDefinition :=
  workflowOf "detour" "Detour"
    [ screenStep "first" "First" true [];
      conditionalStep "check" false (fun _ => true);
      screenStep "last" "Last" true ["first"] ].

(** The second step of [credentialIssuanceWorkflow]. *)
Definition credentialOfferStep : WorkflowStep :=
  Step.mk "credential-offer-received" (Some "CredentialOffer") false true
    (Some (fun data =>
             match data !! "credentialOfferAccepted" with
             | Some (JBool true) => true
             | _ => false
             end))
    (Some [("credentialId", JString "{{credentialId}}")]) false
    ["connection-established"] None None.

(** The first two steps of [credentialIssuanceWorkflow]. *)
Definition credentialWorkflow : WorkflowDefinition :=
  Workflow.mk "credential-issuance" "Receive Credential"
    [ Step.mk "connection-established" None false true
        (Some (fun data => bool_decide (is_Some (data !! "connectionId"))))
        None true [] (Some "checkConnection") None;
      credentialOfferStep ]
    true true (Some "onComplete") None (Some "onCancel").

(** A persisted state with one history entry. *)
Definition sampleState : list (string * JsValue) :=
  [ ("currentStepId", JString "step-2");
    ("paused", JBool false);
    ("history",
     JArray [ JObject [ ("workflowId", JString "linear");
                        ("stepId", JString "step-1");
                        ("completedAt", JDate (Some 1700000000123));
                        ("data", JUndefined) ] ]);
    ("data", JObject [("answer", JString "yes")]) ].

(** What [serialize] writes for [sampleState]. *)
Definition sampleDocument : Json :=
  JsonObject
    [ ("currentStepId", JsonString "step-2");
      ("paused", JsonBool false);
      ("history",
       JsonArray [ JsonObject [ ("workflowId", JsonString "linear");
                                ("stepId", JsonString "step-1");
                                ("completedAt", JsonString "2023-11-14T22:13:20.123Z") ] ]);
      ("data", JsonObject [("answer", JsonString "yes")]) ].

(** An engine that reads no date but in the format of [toISOString]. *)
Definition strictPlatform : Platform :=
  {| parseOther := fun _ => None;
     dateOfObject := fun _ => Done None |}.

(** Two steps completed eight thousand years apart: at the epoch, and at
    the first instant of the year 10000. *)
Definition distantState : list (string * JsValue) :=
  [ ("history",
     JArray [ JObject [ ("stepId", JString "step-1");
                        ("completedAt", JDate (Some 0)) ];
              JObject [ ("stepId", JString "step-2");
                        ("completedAt", JDate (Some 253402300800000)) ] ]) ].

(** Two headless steps share an id and complete on activation; a required
    screen follows. *)
Definition repeatedWorkflow : WorkflowDefinition :=
  workflowOf "repeated" "Repeated"
    [ conditionalStep "poll" false (fun _ => true);
      conditionalStep "poll" false (fun _ => true);
      screenStep "done" "Done" true [] ].

(** ** Reading a trace *)

(** The step a trace activates first: the step id of its first
    [SET_CURRENT_STEP]. *)
Fixpoint firstActivated (tr : list Effect) : option string :=
  match tr with
  | [] => None
  | Dispatch (SET_CURRENT_STEP stepId) :: _ => Some stepId
  | _ :: tr' => firstActivated tr'
  end.

Definition isWorkflowCompleted (e : Effect) : bool :=
  match e with
  | Emit ev => match ev_type ev with WORKFLOW_COMPLETED => true | _ => false end
  | _ => false
  end.

(** How many times a trace emits [WORKFLOW_COMPLETED]. *)
Definition completedEvents (tr : list Effect) : nat :=
  length (List.filter isWorkflowCompleted tr).

(** Every declared dependency of [step] names a step of [workflow] that is
    completed. *)
Definition depsCompleted (workflow : WorkflowDefinition) (step : WorkflowStep) : Prop :=
  forall depId, In depId (Step.dependencies step) ->
    exists dep, List.find (hasId depId) (Workflow.steps workflow) = Some dep
                /\ Step.completed dep = true.

(** Eligible: not completed, and every declared dependency completed. *)
Definition eligibleIn (workflow : WorkflowDefinition) (step : WorkflowStep) : Prop :=
  Step.completed step = false /\ depsCompleted workflow step.

(** The first eligible step in declaration order, scanning from the
    beginning: the selection rule of the specification. *)
Definition firstEligible (workflow : WorkflowDefinition) : option WorkflowStep :=
  List.find
    (fun step => negb (Step.completed step) && areDependenciesMet step workflow)
    (Workflow.steps workflow).

(** What [executeStep] does for [step] before it looks at the completion
    condition: it sets the current step, emits [STEP_STARTED], invokes
    [onActivate], and navigates when the step has a screen and is not
    headless. *)
Definition activationEffects (active : WorkflowDefinition) (step : WorkflowStep)
  : list Effect :=
  [ Dispatch (SET_CURRENT_STEP (Step.id step));
    Emit {| ev_type := STEP_STARTED;
            ev_workflowId := Workflow.id active;
            ev_stepId := Some (Step.id step);
            ev_data := None |} ]
  ++ invoke (Step.onActivate step) (Workflow.id active) (Some (Step.id step))
  ++ (if negb (Step.headless step) && truthy (Step.screen step)
      then [Navigate (default "" (Step.screen step)) (Step.navigationParams step)]
      else []).

(** The step is headless and its completion condition holds on the data the
    engine holds: [executeStep] completes it at once. *)
Definition completesOnActivation (state : WorkflowState) (step : WorkflowStep) : bool :=
  match Step.completionCondition step with
  | Some condition => Step.headless step && condition (data state)
  | None => false
  end.

(** What [completeStep] does for a step it found, before it looks at the
    required steps. *)
Definition completionEffects (active : WorkflowDefinition) (step : WorkflowStep)
    (stepId : string) (d : option JsValue) : list Effect :=
  [ Dispatch (COMPLETE_STEP stepId d);
    Dispatch (ADD_HISTORY_ENTRY (Workflow.id active) stepId d);
    Emit {| ev_type := STEP_COMPLETED;
            ev_workflowId := Workflow.id active;
            ev_stepId := Some stepId;
            ev_data := d |} ]
  ++ invoke (Step.onComplete step) (Workflow.id active) (Some (Step.id step)).

(** [{ ...state, paused }] *)
Definition setPaused (b : bool) (state : WorkflowState) : WorkflowState :=
  {| activeWorkflow := activeWorkflow state;
     currentStepId := currentStepId state;
     paused := b;
     history := history state;
     data := data state |}.

(** The effects of a call that returned, and the store they leave. *)
Definition effectsOf (r : Run (list Effect)) : list Effect :=
  match r with
  | Done tr => tr
  | _ => []
  end.

Definition storeAfter (now : Z) (state : WorkflowState) (r : Run (list Effect))
  : WorkflowState :=
  applyEffects now state (effectsOf r).

(** The completed flag of every step of the active workflow, by step id. *)
Definition completedFlags (state : WorkflowState) : list (string * bool) :=
  match activeWorkflow state with
  | Some active =>
      List.map (fun s => (Step.id s, Step.completed s)) (Workflow.steps active)
  | None => []
  end.

(** The time value of a Date object is in range. *)
Definition validDate (v : JsValue) : Prop :=
  match v with
  | JDate (Some t) => - maxTime <= t <= maxTime
  | _ => True
  end.

Definition completedAtOf (entry : JsValue) : JsValue :=
  match entry with
  | JObject props => getProp props "completedAt"
  | _ => JUndefined
  end.

(** The completion timestamps of the history log of a state. *)
Definition historyInstants (state : list (string * JsValue)) : list JsValue :=
  match getProp state "history" with
  | JArray entries => List.map completedAtOf entries
  | _ => []
  end.

(** A state object as JavaScript can hold it: its property names are
    distinct, and the timestamps of its history entries are Dates in
    range. *)
Definition wellFormedState (state : list (string * JsValue)) : Prop :=
  List.NoDup (List.map fst state)
  /\ forall v, In v (historyInstants state) -> validDate v.

(** The entries of the history log of a state. *)
Definition historyEntries (state : list (string * JsValue)) : list JsValue :=
  match getProp state "history" with
  | JArray entries => entries
  | _ => []
  end.

(** [restored] is the history entry [entry] read back: it has the
    completion timestamp of [entry], and every property of [entry] that
    holds a plain JSON value, as it was. *)
Definition restoredEntry (entry restored : JsValue) : Prop :=
  match entry, restored with
  | JObject props, JObject props' =>
      getProp props' "completedAt" = getProp props "completedAt"
      /\ forall k j, getProp props k = fromJson j -> getProp props' k = fromJson j
  | _, _ => False
  end.

(** What is stored for a timestamp: the string [toISOString] writes. *)
Definition isoText (v : JsValue) : JsValue :=
  match v with
  | JDate (Some t) => JString (toISOString t)
  | _ => JUndefined
  end.

(** The object a document denotes, by its properties. *)
Definition parsedObject (document : Json) : list (string * JsValue) :=
  match fromJson document with
  | JObject parsed => parsed
  | _ => []
  end.

(** ** Reading a trace: completions, activations, the chain *)

(** The steps a trace completes, with the payload of each completion. *)
Definition completionOf (e : Effect) : list (string * option JsValue) :=
  match e with
  | Dispatch (COMPLETE_STEP stepId d) => [(stepId, d)]
  | _ => []
  end.

Definition completions (tr : list Effect) : list (string * option JsValue) :=
  flat_map completionOf tr.

(** The steps a trace makes current, in order. *)
Definition activationOf (e : Effect) : list string :=
  match e with
  | Dispatch (SET_CURRENT_STEP stepId) => [stepId]
  | _ => []
  end.

Definition activations (tr : list Effect) : list string := flat_map activationOf tr.

(** The history entries a trace appends when it is reduced at [now]. *)
Definition historyAddOf (now : Z) (e : Effect) : list WorkflowHistoryEntry :=
  match e with
  | Dispatch (ADD_HISTORY_ENTRY workflowId stepId d) =>
      [ {| he_workflowId := workflowId; he_stepId := stepId;
           completedAt := now; he_data := d |} ]
  | _ => []
  end.

Definition historyAdds (now : Z) (tr : list Effect) : list WorkflowHistoryEntry :=
  flat_map (historyAddOf now) tr.

(** The dispatches that write the data mapping. *)
Definition writesData (e : Effect) : bool :=
  match e with
  | Dispatch (START_WORKFLOW _ _) => true
  | Dispatch (SET_WORKFLOW_DATA _ _) => true
  | _ => false
  end.

(** The dispatches that replace or drop the active workflow. *)
Definition switchesWorkflow (e : Effect) : bool :=
  match e with
  | Dispatch (START_WORKFLOW _ _) => true
  | Dispatch STOP_WORKFLOW => true
  | _ => false
  end.

(** [s'] is [s], or [s] marked completed. *)
Definition advanced (s s' : WorkflowStep) : Prop := s' = s \/ s' = markCompleted s.

(** [w'] is [w] with some of its steps marked completed. *)
Definition progressed (w w' : WorkflowDefinition) : Prop :=
  w' = withSteps w (Workflow.steps w') /\ Forall2 advanced (Workflow.steps w) (Workflow.steps w').

(** The test [completeStep] makes on the required steps. *)
Definition allRequiredStepsComplete (active : WorkflowDefinition) (stepId : string) : bool :=
  List.forallb
    (fun s => Step.completed s || String.eqb (Step.id s) stepId)
    (List.filter Step.required (Workflow.steps active)).

(** The traces of [completeStep] on a step it finds: the completion of the
    step, then the end of the workflow, or nothing, or the activation of
    the next step, which goes on with the completion of that step when it
    completes on activation. *)
Inductive Chain (state : WorkflowState) (active : WorkflowDefinition)
  : string -> option JsValue -> list Effect -> Prop :=
| ChainEnds stepId d step :
    List.find (hasId stepId) (Workflow.steps active) = Some step ->
    allRequiredStepsComplete active stepId = true ->
    Chain state active stepId d
      (completionEffects active step stepId d
       ++ [ Emit {| ev_type := WORKFLOW_COMPLETED;
                    ev_workflowId := Workflow.id active;
                    ev_stepId := None;
                    ev_data := None |} ]
       ++ invoke (Workflow.onComplete active) (Workflow.id active) None
       ++ [ Dispatch STOP_WORKFLOW ])
| ChainStalls stepId d step :
    List.find (hasId stepId) (Workflow.steps active) = Some step ->
    allRequiredStepsComplete active stepId = false ->
    findNextStep active stepId = None ->
    Chain state active stepId d (completionEffects active step stepId d)
| ChainActivates stepId d step next :
    List.find (hasId stepId) (Workflow.steps active) = Some step ->
    allRequiredStepsComplete active stepId = false ->
    findNextStep active stepId = Some next ->
    completesOnActivation state next = false ->
    Chain state active stepId d
      (completionEffects active step stepId d ++ activationEffects active next)
| ChainGoesOn stepId d step next rest :
    List.find (hasId stepId) (Workflow.steps active) = Some step ->
    allRequiredStepsComplete active stepId = false ->
    findNextStep active stepId = Some next ->
    completesOnActivation state next = true ->
    Chain state active (Step.id next) None rest ->
    Chain state active stepId d
      (completionEffects active step stepId d ++ activationEffects active next ++ rest).

(** ** Vocabulary of the further properties *)

(** The steps [createLinearWorkflow] declares for [screens], numbered from
    [index + 1]. *)
Fixpoint linearSteps (index : nat) (screens : list string) (required : bool)
  : list WorkflowStep :=
  match screens with
  | [] => []
  | screen :: rest =>
      Step.mk ("step-" +:+ decimal (index + 1)) (Some screen) false required
        None None false [] None None
      :: linearSteps (S index) rest required
  end.

(** A history entry [serialize] can write: an object whose [completedAt] is
    a valid Date. *)
Definition writableEntry (entry : JsValue) : Prop :=
  exists props t, entry = JObject props /\ getProp props "completedAt" = JDate (Some t).

(** The state with the [skippable] and [pausable] flags of its active
    workflow replaced. *)
Definition withFlags (skippable pausable : bool) (state : WorkflowState) : WorkflowState :=
  {| activeWorkflow :=
       option_map
         (fun active =>
            Workflow.mk (Workflow.id active) (Workflow.name active) (Workflow.steps active)
              skippable pausable
              (Workflow.onComplete active) (Workflow.onStart active)
              (Workflow.onCancel active))
         (activeWorkflow state);
     currentStepId := currentStepId state;
     paused := paused state;
     history := history state;
     data := data state |}.

(** A user completes the steps [stepIds] one after the other: each call is
    made on the engine of the render that follows the dispatches of the call
    before it, so it reads the store that call has left. *)
Fixpoint completeInOrder (fuel : nat) (now : Z) (state : WorkflowState)
    (stepIds : list string) : Run (list Effect) :=
  match stepIds with
  | [] => Done []
  | stepId :: rest =>
      bindRun (completeStep fuel state stepId None) (fun tr =>
      bindRun (completeInOrder fuel now (applyEffects now state tr) rest) (fun tr' =>
      Done (tr ++ tr')))
  end.

(** A required screen that waits for nothing and is not completed yet. *)
Definition plainStep (step : WorkflowStep) : Prop :=
  Step.completed step = false /\ Step.required step = true
  /\ Step.dependencies step = [] /\ Step.headless step = false.

(** * Properties *)

(** ** Lists *)

Section ListFacts.
Context {A : Type}.
Implicit Types (p q : A -> bool) (l : list A).

Lemma filter_filter_andb p q l :
  List.filter q (List.filter p l) = List.filter (fun x => p x && q x) l.
Proof.
  induction l as [|x l IH]; simpl; [reflexivity|].
  destruct (p x); simpl; [destruct (q x)|]; rewrite ?IH; reflexivity.
Qed.

Lemma filter_length_bound p l : (length (List.filter p l) <= length l)%nat.
Proof.
  induction l as [|x l IH]; simpl; [lia|].
  destruct (p x); simpl; lia.
Qed.

Lemma filter_length_split p q l :
  length (List.filter p l) =
  (length (List.filter (fun x => p x && q x) l)
   + length (List.filter (fun x => p x && negb (q x)) l))%nat.
Proof.
  induction l as [|x l IH]; simpl; [reflexivity|].
  destruct (p x), (q x); simpl; lia.
Qed.

(** [find] returns the first element that passes the test. *)
Lemma find_first p l x :
  List.find p l = Some x ->
  exists pre post,
    l = pre ++ x :: post /\ p x = true /\ forall y, In y pre -> p y = false.
Proof.
  induction l as [|a l IH]; simpl; [discriminate|].
  destruct (p a) eqn:Hpa.
  - intros [= ->]. exists [], l. repeat split; [assumption|intros y []].
  - intros Hfind. destruct (IH Hfind) as (pre & post & -> & Hx & Hpre).
    exists (a :: pre), post. repeat split; [assumption|].
    intros y [<-|Hy]; [assumption|apply Hpre, Hy].
Qed.

Lemma find_none_all p l : List.find p l = None -> forall y, In y l -> p y = false.
Proof. intros H y Hy. exact (List.find_none p l H y Hy). Qed.
End ListFacts.

(** ** Doubles *)

Lemma doubleUnit_pos : 0 < doubleUnit.
Proof. unfold doubleUnit. apply Z.pow_pos_nonneg; lia. Qed.

Lemma pow2_pos k : 0 <= k -> 0 < 2 ^ k.
Proof. intros H. apply Z.pow_pos_nonneg; lia. Qed.

Lemma pow2_split a b : 0 <= a -> 0 <= b -> 2 ^ (a + b) = 2 ^ a * 2 ^ b.
Proof. intros Ha Hb. apply Z.pow_add_r; assumption. Qed.

Lemma roundHalfEven_scale a b c :
  0 < b -> 0 < c -> roundHalfEven (a * c) (b * c) = roundHalfEven a b.
Proof.
  intros Hb Hc. unfold roundHalfEven.
  rewrite Z.div_mul_cancel_r by lia.
  rewrite Z.mul_mod_distr_r by lia.
  assert (E1 : (2 * (a mod b * c) <? b * c) = (2 * (a mod b) <? b)).
  { destruct (Z.ltb_spec (2 * (a mod b * c)) (b * c)), (Z.ltb_spec (2 * (a mod b)) b);
      try reflexivity; nia. }
  assert (E2 : (b * c <? 2 * (a mod b * c)) = (b <? 2 * (a mod b))).
  { destruct (Z.ltb_spec (b * c) (2 * (a mod b * c))), (Z.ltb_spec b (2 * (a mod b)));
      try reflexivity; nia. }
  rewrite E1, E2. reflexivity.
Qed.

Lemma roundHalfEven_le num den a :
  0 < den -> num <= a * den -> roundHalfEven num den <= a.
Proof.
  intros Hden Hle. unfold roundHalfEven.
  pose proof (Z.div_mod num den ltac:(lia)) as Hdm.
  pose proof (Z.mod_pos_bound num den Hden) as Hr.
  assert (Hq : num / den <= a) by nia.
  destruct (Z.ltb_spec (2 * (num mod den)) den); [exact Hq|].
  assert (num / den + 1 <= a) by nia.
  destruct (den <? 2 * (num mod den)); [assumption|].
  destruct (Z.even (num / den)); lia.
Qed.

Lemma roundHalfEven_ge num den a :
  0 < den -> a * den <= num -> a <= roundHalfEven num den.
Proof.
  intros Hden Hle. unfold roundHalfEven.
  pose proof (Z.div_mod num den ltac:(lia)) as Hdm.
  pose proof (Z.mod_pos_bound num den Hden) as Hr.
  assert (Hq : a <= num / den) by nia.
  destruct (2 * (num mod den) <? den); [exact Hq|].
  destruct (den <? 2 * (num mod den)); [lia|].
  destruct (Z.even (num / den)); lia.
Qed.

Lemma roundHalfEven_near num den :
  0 < den ->
  - den <= 2 * (roundHalfEven num den * den - num) <= den.
Proof.
  intros Hden. unfold roundHalfEven.
  pose proof (Z.div_mod num den ltac:(lia)) as Hdm.
  pose proof (Z.mod_pos_bound num den Hden) as Hr.
  destruct (Z.ltb_spec (2 * (num mod den)) den); [nia|].
  destruct (Z.ltb_spec den (2 * (num mod den))); [nia|].
  destruct (Z.even (num / den)); nia.
Qed.

Lemma scaledLe_units d k n :
  0 < d -> 0 < n -> 0 <= k + 1074 ->
  scaledLe d k n = true -> d * 2 ^ (k + 1074) <= n * doubleUnit.
Proof.
  intros Hd Hn Hk. unfold scaledLe, doubleUnit.
  destruct (Z.leb_spec 0 k) as [H0|H0]; intros H; apply Z.leb_le in H.
  - rewrite Z.shiftl_mul_pow2 in H by lia.
    rewrite pow2_split by lia.
    pose proof (pow2_pos 1074 ltac:(lia)). nia.
  - rewrite Z.shiftl_mul_pow2 in H by lia.
    assert (E : 2 ^ 1074 = 2 ^ (- k) * 2 ^ (k + 1074)).
    { rewrite <- pow2_split by lia. f_equal. lia. }
    rewrite E. pose proof (pow2_pos (k + 1074) Hk). nia.
Qed.

(** The significand and exponent of [nearest], in units: the significand
    is the rounded quotient by the last place, and above the subnormal
    range it has its leading bit set. *)
Lemma nearest_spec n d :
  0 < n -> 0 < d ->
  let j := snd (nearest n d) + 1074 in
  0 <= j
  /\ fst (nearest n d) = roundHalfEven (n * doubleUnit) (d * 2 ^ j)
  /\ (0 < j -> 2 ^ 52 * (d * 2 ^ j) <= n * doubleUnit).
Proof.
  intros Hn Hd. unfold nearest.
  set (k := Z.log2 n - Z.log2 d).
  set (e0 := if scaledLe d k n then k - 52 else k - 53).
  cbn [fst snd].
  set (e := Z.max (-1074) e0).
  assert (He : -1074 <= e) by (subst e; lia).
  cbv zeta. split; [lia|split].
  - destruct (Z.leb_spec 0 e) as [H0|H0].
    + rewrite Z.shiftl_mul_pow2 by lia.
      rewrite pow2_split by lia. fold doubleUnit.
      rewrite Z.mul_assoc.
      rewrite roundHalfEven_scale; [reflexivity| |apply doubleUnit_pos].
      pose proof (pow2_pos e H0). nia.
    + rewrite Z.shiftl_mul_pow2 by lia.
      assert (E : doubleUnit = 2 ^ (- e) * 2 ^ (e + 1074)).
      { unfold doubleUnit. rewrite <- pow2_split by lia. f_equal. lia. }
      rewrite E, Z.mul_assoc.
      rewrite roundHalfEven_scale; [reflexivity|lia|apply pow2_pos; lia].
  - intros Hj. assert (Ee : e = e0) by (subst e; lia).
    rewrite Ee. subst e0.
    destruct (scaledLe d k n) eqn:Hs.
    + pose proof (scaledLe_units d k n Hd Hn ltac:(lia) Hs) as Hle.
      replace (k - 52 + 1074) with (k + 1022) by lia.
      assert (E : 2 ^ (k + 1074) = 2 ^ 52 * 2 ^ (k + 1022)).
      { rewrite <- pow2_split by lia. f_equal. lia. }
      rewrite E in Hle. lia.
    + replace (k - 53 + 1074) with (k + 1021) by lia.
      pose proof (Z.log2_spec n Hn) as [Hn1 _].
      pose proof (Z.log2_spec d Hd) as [_ Hd2].
      pose proof (Z.log2_nonneg n) as Hn0.
      pose proof (Z.log2_nonneg d) as Hd0.
      assert (E : 2 ^ Z.succ (Z.log2 d) * (2 ^ 52 * 2 ^ (k + 1021))
                  = 2 ^ Z.log2 n * doubleUnit).
      { unfold doubleUnit. rewrite <- !pow2_split by lia. f_equal. lia. }
      pose proof (pow2_pos (k + 1021) ltac:(lia)) as Hp.
      pose proof (pow2_pos 52 ltac:(lia)) as Hp52.
      pose proof doubleUnit_pos as HU.
      assert (d * (2 ^ 52 * 2 ^ (k + 1021)) <= 2 ^ Z.succ (Z.log2 d) * (2 ^ 52 * 2 ^ (k + 1021)))
        by (apply Z.mul_le_mono_nonneg_r; lia).
      assert (2 ^ Z.log2 n * doubleUnit <= n * doubleUnit)
        by (apply Z.mul_le_mono_nonneg_r; lia).
      lia.
Qed.

Lemma dyadic_units m e :
  -1074 <= e -> (dyadic m e == ofUnits (m * 2 ^ (e + 1074)))%Q.
Proof.
  intros He. unfold dyadic, ofUnits, Qeq. cbn [Qnum Qden].
  rewrite Z2Pos.id by apply doubleUnit_pos.
  destruct (Z.leb_spec 0 e) as [H0|H0]; cbn [inject_Z Qnum Qden].
  - rewrite Z.shiftl_mul_pow2 by lia. rewrite pow2_split by lia.
    fold doubleUnit. lia.
  - rewrite Pos2Z.inj_pow. rewrite Z2Pos.id by lia.
    assert (E : doubleUnit = 2 ^ (e + 1074) * 2 ^ (- e)).
    { unfold doubleUnit. rewrite <- pow2_split by lia. f_equal. lia. }
    rewrite E. change (Z.pos 2) with 2. lia.
Qed.

(** What [roundDouble] returns for a positive fraction. *)
Lemma roundDouble_pos n d :
  exists m j,
    0 <= j
    /\ (roundDouble (Zpos n # d) == ofUnits (m * 2 ^ j))%Q
    /\ m = roundHalfEven (Zpos n * doubleUnit) (Zpos d * 2 ^ j)
    /\ (0 < j -> 2 ^ 52 * (Zpos d * 2 ^ j) <= Zpos n * doubleUnit).
Proof.
  destruct (nearest_spec (Zpos n) (Zpos d) ltac:(lia) ltac:(lia)) as (Hj & Hm & Hlow).
  unfold roundDouble. cbn [Qnum Qden].
  destruct (nearest (Zpos n) (Zpos d)) as [m e] eqn:En. cbn [fst snd] in *.
  exists m, (e + 1074). split; [exact Hj|split; [|split; assumption]].
  apply dyadic_units. lia.
Qed.

Lemma ofUnits_le a b : (ofUnits a <= ofUnits b)%Q <-> a <= b.
Proof.
  unfold ofUnits, Qle. cbn [Qnum Qden].
  rewrite Z2Pos.id by apply doubleUnit_pos.
  pose proof doubleUnit_pos. split; intros; nia.
Qed.

Lemma Qle_ofUnits n d b :
  (Zpos n # d <= ofUnits b)%Q <-> Zpos n * doubleUnit <= b * Zpos d.
Proof.
  unfold ofUnits, Qle. cbn [Qnum Qden].
  rewrite Z2Pos.id by apply doubleUnit_pos. reflexivity.
Qed.

Lemma ofUnits_Qle n d b :
  (ofUnits b <= Zpos n # d)%Q <-> b * Zpos d <= Zpos n * doubleUnit.
Proof.
  unfold ofUnits, Qle. cbn [Qnum Qden].
  rewrite Z2Pos.id by apply doubleUnit_pos. reflexivity.
Qed.

Lemma isDouble_nonneg b : isDouble b -> (0 <= b)%Q.
Proof.
  intros (M & J & HJ & HM & ->). unfold ofUnits, Qle. cbn [Qnum Qden].
  pose proof (pow2_pos J HJ). nia.
Qed.

(** Rounding is monotone against a double: it crosses none. *)
Lemma roundDouble_le x b :
  (0 <= x)%Q -> isDouble b -> (x <= b)%Q -> (roundDouble x <= b)%Q.
Proof.
  intros Hx Hb Hxb. pose proof (isDouble_nonneg b Hb) as Hb0.
  destruct Hb as (M & J & HJ & HM & Eb).
  destruct x as [[|n|n] d].
  - exact Hb0.
  - destruct (roundDouble_pos n d) as (m & j & Hj & Hr & Hm & Hlow).
    rewrite Hr, Eb. rewrite Eb in Hxb. apply ofUnits_le.
    apply (proj1 (Qle_ofUnits n d _)) in Hxb.
    pose proof (pow2_pos j Hj) as Hpj. pose proof (pow2_pos J HJ) as HpJ.
    destruct (Z.le_gt_cases j J) as [HjJ|HjJ].
    + assert (E : 2 ^ J = 2 ^ (J - j) * 2 ^ j).
      { rewrite <- pow2_split by lia. f_equal. lia. }
      pose proof (pow2_pos (J - j) ltac:(lia)) as Hpd.
      assert (m <= M * 2 ^ (J - j)).
      { rewrite Hm. apply roundHalfEven_le; [nia|]. rewrite E in Hxb. nia. }
      rewrite E. nia.
    + exfalso. specialize (Hlow ltac:(lia)).
      assert (E : 2 ^ j = 2 ^ (j - J - 1) * (2 * 2 ^ J)).
      { change 2 with (2 ^ 1) at 3. rewrite <- !pow2_split by lia. f_equal. lia. }
      pose proof (pow2_pos (j - J - 1) ltac:(lia)) as Hpd.
      rewrite E in Hlow.
      assert (2 ^ 52 * (2 ^ (j - J - 1) * (2 * 2 ^ J)) <= M * 2 ^ J).
      { apply (Z.mul_le_mono_pos_l _ _ (Zpos d)); [lia|]. nia. }
      change (2 ^ 53) with (2 ^ 52 * 2) in HM.
      assert (2 ^ 52 * 2 * 2 ^ J <= 2 ^ 52 * (2 ^ (j - J - 1) * (2 * 2 ^ J))) by nia.
      assert (M * 2 ^ J < 2 ^ 52 * 2 * 2 ^ J) by nia.
      lia.
  - exfalso. unfold Qle in Hx. cbn in Hx. lia.
Qed.

Lemma roundDouble_ge x b :
  (0 <= x)%Q -> isDouble b -> (b <= x)%Q -> (b <= roundDouble x)%Q.
Proof.
  intros Hx Hb Hbx.
  destruct Hb as (M & J & HJ & HM & Eb).
  destruct x as [[|n|n] d].
  - change (roundDouble (0 # d)) with 0%Q.
    unfold Qle in *. cbn [Qnum Qden] in *. lia.
  - destruct (roundDouble_pos n d) as (m & j & Hj & Hr & Hm & Hlow).
    rewrite Hr, Eb. rewrite Eb in Hbx. apply ofUnits_le.
    apply (proj1 (ofUnits_Qle n d _)) in Hbx.
    pose proof (pow2_pos j Hj) as Hpj. pose proof (pow2_pos J HJ) as HpJ.
    destruct (Z.le_gt_cases j J) as [HjJ|HjJ].
    + assert (E : 2 ^ J = 2 ^ (J - j) * 2 ^ j).
      { rewrite <- pow2_split by lia. f_equal. lia. }
      pose proof (pow2_pos (J - j) ltac:(lia)) as Hpd.
      assert (M * 2 ^ (J - j) <= m).
      { rewrite Hm. apply roundHalfEven_ge; [nia|]. rewrite E in Hbx. nia. }
      rewrite E. nia.
    + specialize (Hlow ltac:(lia)).
      assert (E : 2 ^ j = 2 ^ (j - J - 1) * (2 * 2 ^ J)).
      { change 2 with (2 ^ 1) at 3. rewrite <- !pow2_split by lia. f_equal. lia. }
      pose proof (pow2_pos (j - J - 1) ltac:(lia)) as Hpd.
      assert (2 ^ 52 <= m).
      { rewrite Hm. apply roundHalfEven_ge; [nia|]. lia. }
      change (2 ^ 53) with (2 ^ 52 * 2) in HM.
      assert (2 ^ 52 * 2 ^ j <= m * 2 ^ j) by nia.
      rewrite E in *. nia.
  - exfalso. unfold Qle in Hx. cbn in Hx. lia.
Qed.

Lemma roundDouble_nonneg x : (0 <= x)%Q -> (0 <= roundDouble x)%Q.
Proof.
  intros Hx. apply roundDouble_ge; [exact Hx| |exact Hx].
  exists 0, 0. repeat split; try lia.
Qed.

(** Half a unit in the last place of the subnormal numbers, [2 ^ -1075]. *)
Definition halfUnit : Q := 1 # (2 * Z.to_pos doubleUnit).

(** The rounding error: at most [2 ^ -53] of the number rounded, and in the
    subnormal range at most [2 ^ -1075]. *)
Lemma roundDouble_error x :
  (0 <= x)%Q ->
  (x - (x * (1 # 2 ^ 53) + halfUnit) <= roundDouble x
   /\ roundDouble x <= x + (x * (1 # 2 ^ 53) + halfUnit))%Q.
Proof.
  intros Hx. destruct x as [[|n|n] d].
  - change (roundDouble (0 # d)) with 0%Q. unfold halfUnit, Qle; cbn; split; lia.
  - destruct (roundDouble_pos n d) as (m & j & Hj & Hr & Hm & Hlow).
    rewrite Hr. clear Hr.
    pose proof doubleUnit_pos as HU.
    pose proof (pow2_pos j Hj) as Hpj.
    pose proof (roundHalfEven_near (Zpos n * doubleUnit) (Zpos d * 2 ^ j) ltac:(nia)) as Hnear.
    rewrite <- Hm in Hnear.
    unfold halfUnit, ofUnits, Qle, Qminus, Qplus, Qmult, Qopp. cbn [Qnum Qden].
    rewrite !Pos2Z.inj_mul, !Z2Pos.id by exact HU.
    set (U := doubleUnit) in *. set (D := Zpos d) in *. set (N := Zpos n) in *.
    assert (HD : 0 < D) by (subst D; lia).
    assert (HN : 0 < N) by (subst N; lia).
    set (P := Z.pos (2 ^ 53)).
    assert (HP : P = 2 * 2 ^ 52) by reflexivity.
    destruct (Z.eq_dec j 0) as [->|Hj0].
    + change (2 ^ 0) with 1 in *. rewrite !Z.mul_1_r in *.
      (* 2 |m D - N U| <= D *)
      split.
      * assert (0 <= (2 * (m * D - N * U) + D) * (D * P * U) + 2 * N * U * D * U) by nia.
        nia.
      * assert (0 <= (D - 2 * (m * D - N * U)) * (D * P * U) + 2 * N * U * D * U) by nia.
        nia.
    + specialize (Hlow ltac:(lia)).
      set (E := 2 ^ j) in *.
      (* 2 |m D E - N U| <= D E and 2^52 D E <= N U *)
      assert (H1 : - (N * U) <= P * (m * E * D - N * U) <= N * U) by nia.
      split.
      * assert (0 <= (P * (m * E * D - N * U) + N * U) * (D * U)) by nia.
        nia.
      * assert (0 <= (N * U - P * (m * E * D - N * U)) * (D * U)) by nia.
        nia.
  - exfalso. unfold Qle in Hx. cbn in Hx. lia.
Qed.

Lemma isDouble_dyadic b M e :
  0 <= M < 2 ^ 53 -> -1074 <= e -> (b == dyadic M e)%Q -> isDouble b.
Proof.
  intros HM He Hb. exists M, (e + 1074). split; [lia|split; [exact HM|]].
  rewrite Hb. apply dyadic_units, He.
Qed.

Lemma halfUnit_small : (0 <= halfUnit /\ halfUnit <= 1 # 2 ^ 60)%Q.
Proof.
  unfold halfUnit, Qle. cbn [Qnum Qden].
  rewrite Pos2Z.inj_mul, Z2Pos.id by apply doubleUnit_pos.
  pose proof doubleUnit_pos as HU.
  assert (2 ^ 60 <= doubleUnit).
  { unfold doubleUnit. apply Z.pow_le_mono_r; lia. }
  change (Z.pos (2 ^ 60)) with (2 ^ 60). split; lia.
Qed.

Lemma quotient_fraction (c t : nat) :
  (0 < t)%nat ->
  (inject_Z (Z.of_nat c) / inject_Z (Z.of_nat t) == Z.of_nat c # Z.to_pos (Z.of_nat t))%Q.
Proof.
  intros Ht. unfold Qdiv, Qinv, Qmult, inject_Z, Qeq. cbn [Qnum Qden].
  destruct (Z.of_nat t) as [|pt|pt] eqn:Et; try lia.
  cbn [Qnum Qden Z.to_pos]. nia.
Qed.

(** ** The percentage of a progress *)

Local Abbreviation quotientOf c t := (inject_Z (Z.of_nat c) / inject_Z (Z.of_nat t))%Q.
Local Abbreviation ratioOf c t := (divDouble (inject_Z (Z.of_nat c)) (inject_Z (Z.of_nat t))).
Local Abbreviation percentOf c t := (mulDouble (ratioOf c t) (inject_Z 100)).

Lemma quotient_nonneg (c t : nat) : (0 < t)%nat -> (0 <= quotientOf c t)%Q.
Proof.
  intros Ht. rewrite quotient_fraction by exact Ht. unfold Qle. cbn [Qnum Qden]. lia.
Qed.

Lemma quotient_le_1 (c t : nat) : (0 < t)%nat -> (c <= t)%nat -> (quotientOf c t <= 1)%Q.
Proof.
  intros Ht Hc. rewrite quotient_fraction by exact Ht. unfold Qle. cbn [Qnum Qden].
  rewrite Z2Pos.id by lia. lia.
Qed.

Lemma isDouble_1 : isDouble 1.
Proof. apply (isDouble_dyadic _ 1 0); [lia|lia|reflexivity]. Qed.

Lemma isDouble_100 : isDouble 100.
Proof. apply (isDouble_dyadic _ 100 0); [lia|lia|reflexivity]. Qed.

Lemma ratio_bounds (c t : nat) :
  (0 < t)%nat -> (0 <= ratioOf c t)%Q /\ ((c <= t)%nat -> (ratioOf c t <= 1)%Q).
Proof.
  intros Ht. split.
  - apply roundDouble_nonneg, quotient_nonneg, Ht.
  - intros Hc. apply roundDouble_le;
      [apply quotient_nonneg, Ht|apply isDouble_1|apply quotient_le_1; assumption].
Qed.

Lemma percent_bounds (c t : nat) :
  (0 < t)%nat -> (c <= t)%nat -> (0 <= percentOf c t /\ percentOf c t <= 100)%Q.
Proof.
  intros Ht Hc. destruct (ratio_bounds c t Ht) as [H0 H1]. specialize (H1 Hc).
  assert (Hx : (0 <= ratioOf c t * inject_Z 100)%Q).
  { apply Qmult_le_0_compat; [exact H0|discriminate]. }
  split.
  - apply roundDouble_nonneg, Hx.
  - apply roundDouble_le; [exact Hx|apply isDouble_100|].
    change 100%Q with (1 * inject_Z 100)%Q.
    apply Qmult_le_compat_r; [exact H1|discriminate].
Qed.

Lemma percent_full (t : nat) : (0 < t)%nat -> (percentOf t t == 100)%Q.
Proof.
  intros Ht. destruct (ratio_bounds t t Ht) as [H0 H1].
  assert (Hq : (1 <= ratioOf t t)%Q).
  { apply roundDouble_ge; [apply quotient_nonneg, Ht|apply isDouble_1|].
    rewrite quotient_fraction by exact Ht. unfold Qle. cbn [Qnum Qden].
    rewrite Z2Pos.id by lia. lia. }
  assert (Hx : (0 <= ratioOf t t * inject_Z 100)%Q).
  { apply Qmult_le_0_compat; [exact H0|discriminate]. }
  apply Qle_antisym.
  - apply percent_bounds; [exact Ht|lia].
  - apply roundDouble_ge; [exact Hx|apply isDouble_100|].
    change 100%Q with (1 * inject_Z 100)%Q.
    apply Qmult_le_compat_r; [exact Hq|discriminate].
Qed.

Lemma percent_none (t : nat) : percentOf O t = 0%Q.
Proof. reflexivity. Qed.

(** The two roundings together move the percentage by at most [2 ^ -45]. *)
Lemma percent_error (c t : nat) :
  (0 < t)%nat -> (c <= t)%nat ->
  (quotientOf c t * inject_Z 100 - (1 # 2 ^ 45) <= percentOf c t
   /\ percentOf c t <= quotientOf c t * inject_Z 100 + (1 # 2 ^ 45))%Q.
Proof.
  intros Ht Hc.
  pose proof (quotient_nonneg c t Ht) as Hx0.
  pose proof (quotient_le_1 c t Ht Hc) as Hx1.
  destruct (ratio_bounds c t Ht) as [Hq0 Hq1]. specialize (Hq1 Hc).
  pose proof (roundDouble_error (quotientOf c t) Hx0) as [He1 He2].
  fold (ratioOf c t) in He1, He2.
  assert (Hy : (0 <= ratioOf c t * inject_Z 100)%Q).
  { apply Qmult_le_0_compat; [exact Hq0|discriminate]. }
  pose proof (roundDouble_error _ Hy) as [Hf1 Hf2].
  fold (percentOf c t) in Hf1, Hf2.
  destruct halfUnit_small as [Hh0 Hh1].
  revert Hx0 Hx1 Hq0 Hq1 He1 He2 Hf1 Hf2 Hh0 Hh1.
  generalize (percentOf c t) as p, (ratioOf c t) as q, (quotientOf c t) as x, halfUnit as h.
  intros p q x h. change (inject_Z 100) with 100%Q.
  change (1 # 2 ^ 53)%Q with (1 # 9007199254740992)%Q.
  change (1 # 2 ^ 60)%Q with (1 # 1152921504606846976)%Q.
  change (1 # 2 ^ 45)%Q with (1 # 35184372088832)%Q.
  intros. split; lra.
Qed.

(** With more completed than counted the percentage is above 100, as long
    as the total has an exact double next to it ([2 ^ 52] is far above the
    length an array can have). *)
Lemma percent_above (c t : nat) :
  (0 < t)%nat -> Z.of_nat t <= 2 ^ 52 -> (t < c)%nat -> (100 < percentOf c t)%Q.
Proof.
  intros Ht Hsmall Hc.
  pose proof (quotient_nonneg c t Ht) as Hx0.
  assert (Hq : (4503599627370497 # 4503599627370496 <= ratioOf c t)%Q).
  { apply roundDouble_ge; [exact Hx0| |].
    - apply (isDouble_dyadic _ 4503599627370497 (-52)); [lia|lia|reflexivity].
    - rewrite quotient_fraction by exact Ht. unfold Qle. cbn [Qnum Qden].
      rewrite Z2Pos.id by lia. change (2 ^ 52) with 4503599627370496 in Hsmall. nia. }
  assert (Hy : (0 <= ratioOf c t * inject_Z 100)%Q).
  { apply Qmult_le_0_compat; [|discriminate].
    apply roundDouble_nonneg, Hx0. }
  assert (Hp : (7036874417766401 # 70368744177664 <= percentOf c t)%Q).
  { apply roundDouble_ge; [exact Hy| |].
    - apply (isDouble_dyadic _ 7036874417766401 (-46)); [lia|lia|reflexivity].
    - revert Hq. generalize (ratioOf c t) as q. intros q Hq.
      change (inject_Z 100) with 100%Q. lra. }
  revert Hp. generalize (percentOf c t) as p. intros p Hp. lra.
Qed.

(** On every pair of counts up to 40, and at the largest array lengths, the
    percentage computed by [divDouble] and [mulDouble] is the one the
    kernel's binary64 arithmetic computes. *)
Lemma percentage_agrees_with_binary64 :
  allBelow 41 (fun c => allBelow 40 (fun t => sameAsBinary64 c (t + 1))) = true
  /\ allBelow 40 (fun c => sameAsBinary64 (4294967295 - c) 4294967295) = true
  /\ allBelow 40 (fun c => sameAsBinary64 c 4294967295) = true.
Proof. split; [|split]; vm_compute; reflexivity. Qed.

(** ** Progress *)

(** C10.  [getProgress] counts in [completed] and [total] only the steps that
    are not headless, and counts in [requiredCompleted] and [requiredTotal]
    every required step, the headless ones included.  Its [percentage] is
    the double that [(completed / total) * 100] computes, the quotient and
    the product each rounded to the nearest double, and it is exactly 0
    when no step is visible, where nothing is divided.  The percentage lies
    between 0 and 100, is 0 when no visible step is completed and 100 when
    all of them are, and differs from the exact quotient times 100 by
    [2 ^ -45] at most. *)
Theorem getProgress_counts (workflow : WorkflowDefinition) :
  let p := WorkflowUtils.getProgress workflow in
  let ss := Workflow.steps workflow in
  WorkflowUtils.completed p
    = length (List.filter (fun s => negb (Step.headless s) && Step.completed s) ss)
  /\ WorkflowUtils.total p
    = length (List.filter (fun s => negb (Step.headless s)) ss)
  /\ WorkflowUtils.requiredCompleted p
    = (length (List.filter
                 (fun s => (Step.required s && Step.completed s) && Step.headless s) ss)
       + length (List.filter
                   (fun s => (Step.required s && Step.completed s) && negb (Step.headless s)) ss))%nat
  /\ WorkflowUtils.requiredTotal p
    = (length (List.filter (fun s => Step.required s && Step.headless s) ss)
       + length (List.filter (fun s => Step.required s && negb (Step.headless s)) ss))%nat
  /\ WorkflowUtils.percentage p
    = (if Nat.eqb (WorkflowUtils.total p) 0
       then inject_Z 0
       else mulDouble (divDouble (inject_Z (Z.of_nat (WorkflowUtils.completed p)))
                                 (inject_Z (Z.of_nat (WorkflowUtils.total p))))
                      (inject_Z 100))
  /\ (WorkflowUtils.completed p <= WorkflowUtils.total p)%nat
  /\ (WorkflowUtils.requiredCompleted p <= WorkflowUtils.requiredTotal p)%nat
  /\ (0 <= WorkflowUtils.percentage p /\ WorkflowUtils.percentage p <= 100)%Q
  /\ (WorkflowUtils.completed p = O -> (WorkflowUtils.percentage p == 0)%Q)
  /\ ((0 < WorkflowUtils.total p)%nat ->
      WorkflowUtils.completed p = WorkflowUtils.total p ->
      (WorkflowUtils.percentage p == 100)%Q)
  /\ ((0 < WorkflowUtils.total p)%nat ->
      (inject_Z (Z.of_nat (WorkflowUtils.completed p))
       / inject_Z (Z.of_nat (WorkflowUtils.total p)) * inject_Z 100 - (1 # 2 ^ 45)
       <= WorkflowUtils.percentage p
       /\ WorkflowUtils.percentage p
          <= inject_Z (Z.of_nat (WorkflowUtils.completed p))
             / inject_Z (Z.of_nat (WorkflowUtils.total p)) * inject_Z 100 + (1 # 2 ^ 45))%Q).
Proof.
  intros p ss. subst p ss. unfold WorkflowUtils.getProgress. cbv zeta.
  cbn [WorkflowUtils.completed WorkflowUtils.total WorkflowUtils.percentage
       WorkflowUtils.requiredCompleted WorkflowUtils.requiredTotal].
  set (ss := Workflow.steps workflow).
  set (visible := List.filter (fun step => negb (Step.headless step)) ss).
  set (req := List.filter Step.required ss).
  set (done := length (List.filter Step.completed visible)).
  assert (Hc : (done <= length visible)%nat) by apply filter_length_bound.
  split; [|split; [|split; [|split; [|split; [|split; [|split; [|split; [|split; [|split]]]]]]]]].
  - subst done visible. rewrite filter_filter_andb. reflexivity.
  - reflexivity.
  - subst req. rewrite filter_filter_andb.
    apply (filter_length_split (fun s => Step.required s && Step.completed s) Step.headless).
  - subst req. apply (filter_length_split Step.required Step.headless).
  - destruct (length visible) as [|n]; reflexivity.
  - exact Hc.
  - apply filter_length_bound.
  - destruct (length visible) as [|n] eqn:En; cbn [Nat.ltb Nat.leb].
    + split; discriminate.
    + apply percent_bounds; lia.
  - intros H0. rewrite H0. destruct (length visible) as [|n]; reflexivity.
  - intros Ht Hall. rewrite Hall.
    destruct (length visible) as [|n] eqn:En; [lia|]. cbn [Nat.ltb Nat.leb].
    apply percent_full. lia.
  - intros Ht.
    destruct (length visible) as [|n] eqn:En; [lia|]. cbn [Nat.ltb Nat.leb].
    apply percent_error; lia.
Qed.

(** One visible step of three completed: the percentage is the double
    33.33333333333333, [2345624805922133 / 2 ^ 46], which is not a third of
    100. *)
Lemma getProgress_one_of_three :
  let p := WorkflowUtils.getProgress
             (withSteps linearWorkflow
                (List.map (fun step => if hasId "step-1" step then markCompleted step else step)
                          (Workflow.steps linearWorkflow))) in
  WorkflowUtils.completed p = 1%nat
  /\ WorkflowUtils.total p = 3%nat
  /\ (WorkflowUtils.percentage p == 2345624805922133 # 2 ^ 46)%Q
  /\ ~ (WorkflowUtils.percentage p == 100 # 3)%Q.
Proof.
  cbv zeta. split; [reflexivity|split; [reflexivity|split]].
  - vm_compute. reflexivity.
  - vm_compute. discriminate.
Qed.

(** ** Registration and validation *)

Lemma validateSteps_at (seen : gset string) pre step post :
  exists seen' : gset string,
    (forall x, x ∈ seen' <-> x ∈ seen \/ In x (List.map Step.id pre))
    /\ forall message,
         In message (WorkflowUtils.stepErrors seen' step) ->
         In message (WorkflowUtils.validateSteps seen (pre ++ step :: post)).
Proof.
  revert seen. induction pre as [|a pre IH]; intros seen; simpl.
  - exists seen. split; [intros x; tauto|].
    intros message Hm. apply in_or_app. left. exact Hm.
  - destruct (IH ({[Step.id a]} ∪ seen)) as (seen' & Hseen' & Hin).
    exists seen'. split.
    + intros x. rewrite Hseen'. rewrite elem_of_union, elem_of_singleton.
      intuition congruence.
    + intros message Hm. apply in_or_app. right. apply Hin, Hm.
Qed.

Lemma validateSteps_reports workflow step message :
  In step (Workflow.steps workflow) ->
  (forall seen : gset string,
      (forall x, x ∈ seen -> exists s, In s (Workflow.steps workflow) /\ Step.id s = x) ->
      In message (WorkflowUtils.stepErrors seen step)) ->
  In message (WorkflowUtils.validateSteps ∅ (Workflow.steps workflow)).
Proof.
  intros Hstep Herr.
  destruct (in_split _ _ Hstep) as (pre & post & Hsplit).
  destruct (validateSteps_at ∅ pre step post) as (seen' & Hseen' & Hin).
  rewrite Hsplit. apply Hin, Herr.
  intros x Hx. apply Hseen' in Hx. destruct Hx as [Hx|Hx]; [set_solver|].
  apply in_map_iff in Hx. destruct Hx as (s & Hs & Hspre).
  exists s. split; [|exact Hs]. rewrite Hsplit. apply in_or_app. left. exact Hspre.
Qed.

Lemma validate_reports workflow message :
  Violation workflow message ->
  In message (WorkflowUtils.errors (WorkflowUtils.validate workflow)).
Proof.
  intros V. unfold WorkflowUtils.validate. cbn [WorkflowUtils.errors].
  destruct V as [Hid|Hname|Hsteps|pre step post Hsplit Hdup
                |step depId Hstep Hdep Hnone|step Hstep Hh Ha Hc|step Hstep Hh Hs].
  - rewrite Hid. simpl. left. reflexivity.
  - rewrite Hname. apply in_or_app. right. simpl. left. reflexivity.
  - rewrite Hsteps. do 2 (apply in_or_app; right). simpl. left. reflexivity.
  - do 3 (apply in_or_app; right).
    destruct (validateSteps_at ∅ pre step post) as (seen' & Hseen' & Hin).
    rewrite Hsplit. apply Hin. unfold WorkflowUtils.stepErrors.
    apply in_or_app. left.
    destruct (decide (Step.id step ∈ seen')) as [_|Hn]; [left; reflexivity|].
    exfalso. apply Hn, Hseen'. right. exact Hdup.
  - do 3 (apply in_or_app; right).
    apply (validateSteps_reports workflow step); [exact Hstep|].
    intros seen Hseen. unfold WorkflowUtils.stepErrors.
    apply in_or_app. right. apply in_or_app. left.
    apply in_flat_map. exists depId. split; [exact Hdep|].
    destruct (decide (depId ∈ ({[Step.id step]} ∪ seen : gset string))) as [Hd|_];
      [|left; reflexivity].
    exfalso. apply elem_of_union in Hd. destruct Hd as [Hd|Hd].
    + apply elem_of_singleton in Hd. exact (Hnone step Hstep (eq_sym Hd)).
    + destruct (Hseen depId Hd) as (s & Hs & Hsid). exact (Hnone s Hs Hsid).
  - do 3 (apply in_or_app; right).
    apply (validateSteps_reports workflow step); [exact Hstep|].
    intros seen _. unfold WorkflowUtils.stepErrors.
    do 2 (apply in_or_app; right). apply in_or_app. left.
    rewrite Hh, Ha, Hc. simpl. left. reflexivity.
  - do 3 (apply in_or_app; right).
    apply (validateSteps_reports workflow step); [exact Hstep|].
    intros seen _. unfold WorkflowUtils.stepErrors.
    do 3 (apply in_or_app; right).
    rewrite Hh, Hs. simpl. left. reflexivity.
Qed.

(** C6 (as the code has it).  [registerWorkflow] stores every definition
    under its id without validating it, a definition with violations
    included; [WorkflowUtils.validate] is a separate utility, and it reports
    every violation present in the definition, each by its own message, and
    answers [valid = false]. *)
Theorem register_stores_and_validate_enumerates
    (registry : gmap string WorkflowDefinition)
    (workflow : WorkflowDefinition) (message : string) :
  Violation workflow message ->
  getWorkflow (registerWorkflow registry workflow) (Workflow.id workflow) = Some workflow
  /\ In message (WorkflowUtils.errors (WorkflowUtils.validate workflow))
  /\ WorkflowUtils.valid (WorkflowUtils.validate workflow) = false.
Proof.
  intros V. split; [|split].
  - unfold getWorkflow, registerWorkflow. apply lookup_insert_eq.
  - apply validate_reports, V.
  - pose proof (validate_reports workflow message V) as Hin.
    unfold WorkflowUtils.validate in *. cbn [WorkflowUtils.errors WorkflowUtils.valid] in *.
    match goal with |- match ?e with _ => _ end = _ => destruct e end;
      [destruct Hin|reflexivity].
Qed.

(** ** The engine: unfolding and termination *)

Lemma completeStep_eq fuel state stepId d :
  completeStep fuel state stepId d =
  match activeWorkflow state with
  | None => Done []
  | Some active =>
      match List.find (hasId stepId) (Workflow.steps active) with
      | None => Done []
      | Some step =>
          if List.forallb
               (fun s => Step.completed s || String.eqb (Step.id s) stepId)
               (List.filter Step.required (Workflow.steps active))
          then
            Done (completionEffects active step stepId d
                  ++ [ Emit {| ev_type := WORKFLOW_COMPLETED;
                               ev_workflowId := Workflow.id active;
                               ev_stepId := None;
                               ev_data := None |} ]
                  ++ invoke (Workflow.onComplete active) (Workflow.id active) None
                  ++ [ Dispatch STOP_WORKFLOW ])
          else
            match findNextStep active stepId with
            | Some nextStep =>
                andThen (completionEffects active step stepId d)
                        (executeStep fuel state nextStep)
            | None => Done (completionEffects active step stepId d)
            end
      end
  end.
Proof. destruct fuel; reflexivity. Qed.

Lemma hasId_true stepId s : hasId stepId s = true <-> Step.id s = stepId.
Proof. unfold hasId. apply String.eqb_eq. Qed.

Lemma hasId_false stepId s : hasId stepId s = false <-> Step.id s <> stepId.
Proof. unfold hasId. apply String.eqb_neq. Qed.

Lemma findIndexFrom_spec {A} (p : A -> bool) l i :
  (findIndexFrom p l i = -1 /\ forall x, In x l -> p x = false)
  \/ (exists pre x post,
        l = pre ++ x :: post /\ p x = true /\ (forall y, In y pre -> p y = false)
        /\ findIndexFrom p l i = i + Z.of_nat (length pre)).
Proof.
  revert i. induction l as [|a l IH]; intros i; simpl.
  - left. split; [reflexivity|intros x []].
  - destruct (p a) eqn:Hpa.
    + right. exists [], a, l. simpl. repeat split; [assumption|intros y []|lia].
    + destruct (IH (i + 1)) as [[Hm Hall]|(pre & x & post & -> & Hx & Hpre & Hi)].
      * left. split; [exact Hm|]. intros x [<-|Hx]; [assumption|apply Hall, Hx].
      * right. exists (a :: pre), x, post. simpl. repeat split; [assumption| |lia].
        intros y [<-|Hy]; [assumption|apply Hpre, Hy].
Qed.

Lemma findIndex_bounds {A} (p : A -> bool) l :
  -1 <= findIndex p l < Z.of_nat (length l).
Proof.
  unfold findIndex.
  destruct (findIndexFrom_spec p l 0) as [[-> _]|(pre & x & post & -> & _ & _ & ->)].
  - lia.
  - rewrite length_app. simpl. lia.
Qed.

(** With distinct ids, a step is found at its own position. *)
Lemma findIndex_unique pre step post :
  List.NoDup (List.map Step.id (pre ++ step :: post)) ->
  findIndex (hasId (Step.id step)) (pre ++ step :: post) = Z.of_nat (length pre).
Proof.
  intros Hnd. unfold findIndex.
  destruct (findIndexFrom_spec (hasId (Step.id step)) (pre ++ step :: post) 0)
    as [[_ Hall]|(pre' & x & post' & Hsplit & Hx & Hpre' & ->)].
  - specialize (Hall step). rewrite (proj2 (hasId_true _ _) eq_refl) in Hall.
    discriminate Hall. apply in_or_app. right. left. reflexivity.
  - apply hasId_true in Hx.
    assert (Hlen : length pre' = length pre); [|lia].
    rewrite List.map_app in Hnd. simpl in Hnd.
    destruct (Nat.lt_trichotomy (length pre') (length pre)) as [Hlt|[Heq|Hgt]];
      [exfalso|exact Heq|exfalso].
    + (* x sits inside pre, with the id of step *)
      assert (Hin : In x pre).
      { assert (Hnth : nth_error (pre ++ step :: post) (length pre') = Some x).
        { rewrite Hsplit. rewrite nth_error_app2 by lia.
          rewrite Nat.sub_diag. reflexivity. }
        rewrite nth_error_app1 in Hnth by lia. eapply nth_error_In, Hnth. }
      apply NoDup_remove_2 in Hnd. apply Hnd. apply in_or_app. left.
      apply in_map_iff. exists x. split; assumption.
    + (* step sits inside pre', where no id matches *)
      assert (Hin : In step pre').
      { assert (Hnth : nth_error (pre' ++ x :: post') (length pre) = Some step).
        { rewrite <- Hsplit. rewrite nth_error_app2 by lia.
          rewrite Nat.sub_diag. reflexivity. }
        rewrite nth_error_app1 in Hnth by lia. eapply nth_error_In, Hnth. }
      specialize (Hpre' step Hin). apply hasId_false in Hpre'. congruence.
Qed.

(** The step chosen after a completion, in terms of positions. *)
Lemma findNextStep_position workflow stepId next :
  findNextStep workflow stepId = Some next ->
  exists pre post,
    Workflow.steps workflow = pre ++ next :: post
    /\ findIndex (hasId stepId) (Workflow.steps workflow) < Z.of_nat (length pre)
    /\ (negb (Step.completed next) && areDependenciesMet next workflow = true)
    /\ forall i s,
         findIndex (hasId stepId) (Workflow.steps workflow) < Z.of_nat i ->
         nth_error pre i = Some s ->
         negb (Step.completed s) && areDependenciesMet s workflow = false.
Proof.
  unfold findNextStep. intros Hfind.
  set (ss := Workflow.steps workflow) in *.
  pose proof (findIndex_bounds (hasId stepId) ss) as Hb.
  set (k := Z.to_nat (findIndex (hasId stepId) ss + 1)) in *.
  destruct (find_first _ _ _ Hfind) as (mid & post & Hskip & Hnext & Hmid).
  assert (Hk : (k <= length ss)%nat) by (subst k; lia).
  exists (firstn k ss ++ mid), post. repeat split.
  - rewrite <- (firstn_skipn k ss) at 1. rewrite Hskip, <- app_assoc. reflexivity.
  - rewrite length_app, length_firstn. subst k. lia.
  - exact Hnext.
  - intros i s Hi Hnth.
    assert (Hki : (k <= i)%nat) by (subst k; lia).
    rewrite nth_error_app2 in Hnth by (rewrite length_firstn; lia).
    apply Hmid. eapply nth_error_In, Hnth.
Qed.

Lemma executeStep_eq fuel state step :
  executeStep fuel state step =
  match activeWorkflow state with
  | None => Done []
  | Some active =>
      if completesOnActivation state step
      then andThen (activationEffects active step)
             match fuel with
             | O => OutOfFuel
             | S fuel' => completeStep fuel' state (Step.id step) None
             end
      else Done (activationEffects active step)
  end.
Proof.
  unfold executeStep, executeStepWith, completesOnActivation, activationEffects.
  destruct (activeWorkflow state) as [active|]; [|reflexivity].
  destruct (Step.completionCondition step) as [condition|]; reflexivity.
Qed.

Lemma completeStep_returns state active :
  activeWorkflow state = Some active ->
  List.NoDup (List.map Step.id (Workflow.steps active)) ->
  forall fuel stepId d,
    (length (Workflow.steps active)
     <= Z.to_nat (findIndex (hasId stepId) (Workflow.steps active) + 1) + fuel)%nat ->
    exists tr, completeStep fuel state stepId d = Done tr.
Proof.
  intros Hactive Hnd. induction fuel as [|fuel IH]; intros stepId d Hlen.
  - rewrite completeStep_eq, Hactive.
    destruct (List.find _ _) as [step|]; [|eexists; reflexivity].
    destruct (List.forallb _ _); [eexists; reflexivity|].
    destruct (findNextStep active stepId) as [next|] eqn:Hnext; [|eexists; reflexivity].
    exfalso. destruct (findNextStep_position _ _ _ Hnext) as (pre & post & Hs & Hi & _).
    rewrite Hs, length_app in Hlen. simpl in Hlen.
    pose proof (findIndex_bounds (hasId stepId) (Workflow.steps active)) as Hb.
    rewrite Hs in Hi, Hb. lia.
  - rewrite completeStep_eq, Hactive.
    destruct (List.find _ _) as [step|]; [|eexists; reflexivity].
    destruct (List.forallb _ _); [eexists; reflexivity|].
    destruct (findNextStep active stepId) as [next|] eqn:Hnext; [|eexists; reflexivity].
    rewrite executeStep_eq, Hactive.
    destruct (completesOnActivation state next); [|eexists; reflexivity].
    destruct (findNextStep_position _ _ _ Hnext) as (pre & post & Hs & Hi & _).
    destruct (IH (Step.id next) None) as (rest & Hrest).
    + pose proof (findIndex_bounds (hasId stepId) (Workflow.steps active)) as Hb.
      rewrite Hs in *. rewrite (findIndex_unique pre next post Hnd).
      rewrite length_app in *. simpl in *. lia.
    + rewrite Hrest. eexists; reflexivity.
Qed.

(** With distinct step ids, fuel equal to the number of steps is enough for
    every engine call on the workflow. *)
Lemma completeStep_total state active fuel stepId d :
  activeWorkflow state = Some active ->
  List.NoDup (List.map Step.id (Workflow.steps active)) ->
  (length (Workflow.steps active) <= fuel)%nat ->
  exists tr, completeStep fuel state stepId d = Done tr.
Proof.
  intros Hactive Hnd Hlen. apply (completeStep_returns state active Hactive Hnd).
  pose proof (findIndex_bounds (hasId stepId) (Workflow.steps active)). lia.
Qed.

Lemma executeStep_total state active fuel step :
  activeWorkflow state = Some active ->
  List.NoDup (List.map Step.id (Workflow.steps active)) ->
  (length (Workflow.steps active) < fuel)%nat ->
  exists tr, executeStep fuel state step = Done tr.
Proof.
  intros Hactive Hnd Hlen. rewrite executeStep_eq, Hactive.
  destruct (completesOnActivation state step); [|eexists; reflexivity].
  destruct fuel as [|fuel]; [lia|].
  destruct (completeStep_total state active fuel (Step.id step) None Hactive Hnd)
    as (tr & Htr); [lia|].
  rewrite Htr. eexists; reflexivity.
Qed.

Lemma Done_inj {A} (a b : A) : Done a = Done b -> a = b.
Proof. congruence. Qed.

Lemma andThen_Done pre r tr :
  andThen pre r = Done tr -> exists rest, r = Done rest /\ tr = pre ++ rest.
Proof.
  unfold andThen, bindRun. destruct r as [rest| |]; try discriminate.
  intros [= <-]. exists rest. split; reflexivity.
Qed.

Lemma applyEffects_app now state tr1 tr2 :
  applyEffects now state (tr1 ++ tr2) = applyEffects now (applyEffects now state tr1) tr2.
Proof. unfold applyEffects. apply fold_left_app. Qed.

Lemma applyEffects_invoke now state h workflowId currentStep :
  applyEffects now state (invoke h workflowId currentStep) = state.
Proof. destruct h; reflexivity. Qed.

(** The shape of every trace of [completeStep] on a step it found. *)
Lemma completeStep_found fuel state active stepId d step tr :
  activeWorkflow state = Some active ->
  List.find (hasId stepId) (Workflow.steps active) = Some step ->
  completeStep fuel state stepId d = Done tr ->
  exists rest, tr = completionEffects active step stepId d ++ rest.
Proof.
  intros Hactive Hfind. rewrite completeStep_eq, Hactive, Hfind.
  fold (completionEffects active step stepId d).
  destruct (List.forallb _ _).
  - intros [= <-]. eexists. reflexivity.
  - destruct (findNextStep active stepId) as [next|].
    + intros H. destruct (andThen_Done _ _ _ H) as (rest & _ & ->).
      exists rest. reflexivity.
    + intros [= <-]. exists []. rewrite app_nil_r. reflexivity.
Qed.

(** ** completeStep *)

(** C3 (as the code has it).  [completeStep] does nothing at all when no
    workflow is active or when [stepId] is the id of no step of the active
    workflow, whether or not another step is current.  Otherwise it returns
    and its trace starts with: dispatch [COMPLETE_STEP], dispatch
    [ADD_HISTORY_ENTRY], emit [STEP_COMPLETED], invoke the step's
    [onComplete], in that order; these mark every step with that id
    completed and append one history entry carrying the payload, and they
    leave the data mapping, the current step and the paused flag as they
    were. *)
Theorem completeStep_behaviour (fuel : nat) (now : Z) (state : WorkflowState)
    (stepId : string) (d : option JsValue) :
  (activeWorkflow state = None -> completeStep fuel state stepId d = Done [])
  /\ (forall active,
        activeWorkflow state = Some active ->
        List.find (hasId stepId) (Workflow.steps active) = None ->
        completeStep fuel state stepId d = Done [])
  /\ (forall active step,
        activeWorkflow state = Some active ->
        List.find (hasId stepId) (Workflow.steps active) = Some step ->
        List.NoDup (List.map Step.id (Workflow.steps active)) ->
        (length (Workflow.steps active) <= fuel)%nat ->
        (exists rest,
            completeStep fuel state stepId d
            = Done ([ Dispatch (COMPLETE_STEP stepId d);
                      Dispatch (ADD_HISTORY_ENTRY (Workflow.id active) stepId d);
                      Emit {| ev_type := STEP_COMPLETED;
                              ev_workflowId := Workflow.id active;
                              ev_stepId := Some stepId;
                              ev_data := d |} ]
                    ++ invoke (Step.onComplete step) (Workflow.id active) (Some stepId)
                    ++ rest))
        /\ applyEffects now state (completionEffects active step stepId d)
           = {| activeWorkflow :=
                  Some (withSteps active
                          (List.map (fun s => if hasId stepId s then markCompleted s else s)
                                    (Workflow.steps active)));
                currentStepId := currentStepId state;
                paused := paused state;
                history := history state
                           ++ [ {| he_workflowId := Workflow.id active;
                                   he_stepId := stepId;
                                   completedAt := now;
                                   he_data := d |} ];
                data := data state |}).
Proof.
  split; [|split].
  - intros Hnone. rewrite completeStep_eq, Hnone. reflexivity.
  - intros active Hactive Hfind. rewrite completeStep_eq, Hactive, Hfind. reflexivity.
  - intros active step Hactive Hfind Hnd Hlen. split.
    + destruct (completeStep_total state active fuel stepId d Hactive Hnd Hlen)
        as (tr & Htr).
      destruct (completeStep_found _ _ _ _ _ _ _ Hactive Hfind Htr) as (rest & ->).
      exists rest. rewrite Htr. unfold completionEffects.
      destruct (find_first _ _ _ Hfind) as (_ & _ & _ & Hid & _).
      apply hasId_true in Hid. rewrite Hid, <- app_assoc. reflexivity.
    + unfold completionEffects. rewrite applyEffects_app, applyEffects_invoke.
      unfold applyEffects. simpl. rewrite Hactive. reflexivity.
Qed.

(** At [stepId = "step-2"] while ["step-1"] is current, the call is not a
    no-op; and completing the current step with a payload leaves the data
    mapping empty. *)
Lemma completeStep_not_current_not_merged :
  let state := activeState linearWorkflow (Some "step-1") in
  let payload := Some (JObject [("answer", JString "yes")]) in
  (exists tr,
      completeStep 3 state "step-2" payload = Done tr
      /\ history (applyEffects 0 state tr)
         = [ {| he_workflowId := "linear"; he_stepId := "step-2";
                completedAt := 0; he_data := payload |} ]
      /\ currentStepId (applyEffects 0 state tr) = Some "step-3")
  /\ (exists tr,
         completeStep 3 state "step-1" payload = Done tr
         /\ data (applyEffects 0 state tr) = ∅).
Proof.
  split; eexists; (split; [reflexivity|]); repeat split; reflexivity.
Qed.

Lemma completeStep_behaviour_witness :
  exists rest,
    completeStep 3 (activeState linearWorkflow (Some "step-1")) "step-1" None
    = Done ([ Dispatch (COMPLETE_STEP "step-1" None);
              Dispatch (ADD_HISTORY_ENTRY "linear" "step-1" None);
              Emit {| ev_type := STEP_COMPLETED;
                      ev_workflowId := "linear";
                      ev_stepId := Some "step-1";
                      ev_data := None |} ]
            ++ rest).
Proof.
  destruct (completeStep_behaviour 3 0 (activeState linearWorkflow (Some "step-1"))
              "step-1" None) as (_ & _ & H).
  destruct (H linearWorkflow (screenStep "step-1" "S1" true []) eq_refl eq_refl)
    as ((rest & Hrest) & _).
  - repeat constructor; simpl; intuition discriminate.
  - simpl. lia.
  - exists rest. exact Hrest.
Defined.

(** ** Pause and resume *)

Lemma completeStep_setPaused b fuel state stepId d :
  completeStep fuel (setPaused b state) stepId d = completeStep fuel state stepId d.
Proof.
  revert stepId d. induction fuel as [|fuel IH]; intros stepId d;
    rewrite !completeStep_eq; simpl;
    destruct (activeWorkflow state) as [active|] eqn:Hactive; try reflexivity;
    destruct (List.find _ _) as [step|]; try reflexivity;
    destruct (List.forallb _ _); try reflexivity;
    destruct (findNextStep active stepId) as [next|]; try reflexivity;
    rewrite !executeStep_eq; simpl; rewrite Hactive;
    unfold completesOnActivation; simpl;
    destruct (Step.completionCondition next) as [condition|]; try reflexivity;
    destruct (Step.headless next && condition (data state)); try reflexivity.
  rewrite IH. reflexivity.
Qed.

(** While paused, completing ["step-1"] navigates to the next screen at
    once, and the resume that follows activates nothing. *)
Lemma paused_completeStep_navigates :
  let state := setPaused true (activeState linearWorkflow (Some "step-1")) in
  let r := completeStep 3 state "step-1" None in
  paused state = true
  /\ r = Done [ Dispatch (COMPLETE_STEP "step-1" None);
                Dispatch (ADD_HISTORY_ENTRY "linear" "step-1" None);
                Emit {| ev_type := STEP_COMPLETED; ev_workflowId := "linear";
                        ev_stepId := Some "step-1"; ev_data := None |};
                Dispatch (SET_CURRENT_STEP "step-2");
                Emit {| ev_type := STEP_STARTED; ev_workflowId := "linear";
                        ev_stepId := Some "step-2"; ev_data := None |};
                Navigate "S2" None ]
  /\ paused (storeAfter 0 state r) = true
  /\ resumeWorkflow (storeAfter 0 state r)
     = [ Dispatch RESUME_WORKFLOW;
         Emit {| ev_type := WORKFLOW_RESUMED; ev_workflowId := "linear";
                 ev_stepId := None; ev_data := None |} ].
Proof. repeat split; reflexivity. Qed.

(** ** startWorkflow *)

(** C4 (as the code has it).  Starting an id that is not registered throws
    an error that says the workflow was not found, before anything is
    dispatched.  Starting a registered id never fails, whether or not a
    workflow is active: the call first dispatches [START_WORKFLOW], which
    makes the registered definition the active workflow, clears the current
    step and the paused flag and merges the initial data, and then emits
    [WORKFLOW_STARTED]. *)
Theorem startWorkflow_outcomes (registry : gmap string WorkflowDefinition)
    (fuel : nat) (now : Z) (state : WorkflowState) (workflowId : string)
    (contextData : option (gmap string JsValue)) :
  (registry !! workflowId = None ->
   startWorkflow registry fuel state workflowId contextData
   = Threw ("Workflow with id '" +:+ workflowId +:+ "' not found"))
  /\ (forall workflow,
        registry !! workflowId = Some workflow ->
        (forall active, activeWorkflow state = Some active ->
           List.NoDup (List.map Step.id (Workflow.steps active))
           /\ (length (Workflow.steps active) < fuel)%nat) ->
        (exists rest,
            startWorkflow registry fuel state workflowId contextData
            = Done (Dispatch (START_WORKFLOW workflow contextData)
                    :: Emit {| ev_type := WORKFLOW_STARTED;
                               ev_workflowId := workflowId;
                               ev_stepId := None;
                               ev_data := None |}
                    :: rest))
        /\ workflowReducer now state (START_WORKFLOW workflow contextData)
           = {| activeWorkflow := Some workflow;
                currentStepId := None;
                paused := false;
                history := history state;
                data := spread (data state) contextData |}).
Proof.
  split.
  - intros Hnone. unfold startWorkflow. rewrite Hnone. reflexivity.
  - intros workflow Hreg Hfuel. split; [|reflexivity].
    unfold startWorkflow. rewrite Hreg.
    destruct (List.find _ _) as [first|]; [|eexists; reflexivity].
    destruct (activeWorkflow state) as [active|] eqn:Hactive.
    + destruct (Hfuel active eq_refl) as (Hnd & Hlen).
      destruct (executeStep_total state active fuel first Hactive Hnd Hlen) as (tr & ->).
      eexists. reflexivity.
    + rewrite executeStep_eq, Hactive. eexists. reflexivity.
Qed.

(** A second start of the same workflow does not fail: it returns, and it
    resets the progress made since the first start. *)
Lemma second_start_does_not_fail :
  let registry := registerWorkflow ∅ linearWorkflow in
  let s1 := storeAfter 0 initialState (startWorkflow registry 4 initialState "linear" None) in
  let s2 := storeAfter 0 s1 (completeStep 4 s1 "step-1" None) in
  let r := startWorkflow registry 4 s2 "linear" None in
  (exists active, activeWorkflow s2 = Some active
                  /\ List.map Step.completed (Workflow.steps active) = [true; false; false])
  /\ currentStepId s2 = Some "step-2"
  /\ (exists tr, r = Done tr)
  /\ activeWorkflow (storeAfter 0 s2 r) = Some linearWorkflow
  /\ currentStepId (storeAfter 0 s2 r) = Some "step-1".
Proof.
  repeat split; try reflexivity; eexists; try split; reflexivity.
Qed.

Lemma startWorkflow_outcomes_witness :
  exists rest,
    startWorkflow (registerWorkflow ∅ linearWorkflow) 4
      (activeState linearWorkflow (Some "step-2")) "linear" None
    = Done (Dispatch (START_WORKFLOW linearWorkflow None)
            :: Emit {| ev_type := WORKFLOW_STARTED; ev_workflowId := "linear";
                       ev_stepId := None; ev_data := None |}
            :: rest).
Proof.
  destruct (startWorkflow_outcomes (registerWorkflow ∅ linearWorkflow) 4 0
              (activeState linearWorkflow (Some "step-2")) "linear" None) as (_ & H).
  destruct (H linearWorkflow) as ((rest & Hrest) & _).
  - reflexivity.
  - intros active [= <-]. split; [|simpl; lia].
    repeat constructor; simpl; intuition discriminate.
  - exists rest. exact Hrest.
Defined.

(** ** skipToStep and executeStep *)

(** Skipping to a headless step whose condition holds marks it completed. *)
Lemma skipToStep_completes_headless_target :
  let state := activeState detourWorkflow (Some "first") in
  let r := skipToStep 4 state "check" in
  completedFlags state = [("first", false); ("check", false); ("last", false)]
  /\ r = Done [ Dispatch (SET_CURRENT_STEP "check");
                Emit {| ev_type := STEP_STARTED; ev_workflowId := "detour";
                        ev_stepId := Some "check"; ev_data := None |};
                Dispatch (COMPLETE_STEP "check" None);
                Dispatch (ADD_HISTORY_ENTRY "detour" "check" None);
                Emit {| ev_type := STEP_COMPLETED; ev_workflowId := "detour";
                        ev_stepId := Some "check"; ev_data := None |} ]
  /\ completedFlags (storeAfter 0 state r)
     = [("first", false); ("check", true); ("last", false)].
Proof. repeat split; reflexivity. Qed.

(** C8.  [executeStep] hands the step's [navigationParams] to the
    navigation collaborator as they are declared: with
    [credentialId = "cred-42"] in the data mapping, the placeholder
    [{{credentialId}}] reaches the screen unresolved.  In general every
    navigation call carries the step's screen and its declared parameters. *)
Theorem executeStep_passes_template_verbatim :
  let state :=
    {| activeWorkflow := Some credentialWorkflow;
       currentStepId := Some "connection-established";
       paused := false;
       history := [];
       data := {[ "credentialId" := JString "cred-42" ]} |} in
  data state !! "credentialId" = Some (JString "cred-42")
  /\ executeStep 3 state credentialOfferStep
     = Done [ Dispatch (SET_CURRENT_STEP "credential-offer-received");
              Emit {| ev_type := STEP_STARTED;
                      ev_workflowId := "credential-issuance";
                      ev_stepId := Some "credential-offer-received";
                      ev_data := None |};
              Navigate "CredentialOffer"
                (Some [("credentialId", JString "{{credentialId}}")]) ]
  /\ (forall active step screenName params,
        In (Navigate screenName params) (activationEffects active step) ->
        Step.screen step = Some screenName /\ params = Step.navigationParams step).
Proof.
  split; [reflexivity|split; [reflexivity|]].
  intros active step screenName params. unfold activationEffects.
  rewrite !in_app_iff. intros [Hin|[Hin|Hin]].
  - simpl in Hin. intuition discriminate.
  - destruct (Step.onActivate step); simpl in Hin; intuition discriminate.
  - destruct (Step.headless step); simpl in Hin; [contradiction|].
    destruct (Step.screen step) as [scr|]; simpl in Hin; [|contradiction].
    destruct (String.eqb scr ""); simpl in Hin; [contradiction|].
    destruct Hin as [[= <- <-]|[]]. split; reflexivity.
Qed.

(** ** Workflow completion *)

(** C2.  Completing ["form"] activates the headless step ["sync"], whose
    condition holds, so the same call completes it too; every required step
    is then completed in the store, yet no [WORKFLOW_COMPLETED] is emitted
    and the workflow stays active: the nested [completeStep] judges the
    other required steps on the state the call captured, in which ["form"]
    is not completed yet. *)
Theorem auto_completed_chain_does_not_complete_workflow :
  let state := activeState autoWorkflow (Some "form") in
  let r := completeStep 3 state "form" None in
  r = Done [ Dispatch (COMPLETE_STEP "form" None);
             Dispatch (ADD_HISTORY_ENTRY "auto" "form" None);
             Emit {| ev_type := STEP_COMPLETED; ev_workflowId := "auto";
                     ev_stepId := Some "form"; ev_data := None |};
             Dispatch (SET_CURRENT_STEP "sync");
             Emit {| ev_type := STEP_STARTED; ev_workflowId := "auto";
                     ev_stepId := Some "sync"; ev_data := None |};
             Dispatch (COMPLETE_STEP "sync" None);
             Dispatch (ADD_HISTORY_ENTRY "auto" "sync" None);
             Emit {| ev_type := STEP_COMPLETED; ev_workflowId := "auto";
                     ev_stepId := Some "sync"; ev_data := None |} ]
  /\ completedFlags (storeAfter 0 state r) = [("form", true); ("sync", true)]
  /\ List.map Step.required (Workflow.steps autoWorkflow) = [true; true]
  /\ is_Some (activeWorkflow (storeAfter 0 state r)).
Proof. repeat split; try reflexivity. eexists. reflexivity. Qed.

(** ** Selection of the step to activate *)

Lemma firstActivated_app tr1 tr2 :
  firstActivated tr1 = None -> firstActivated (tr1 ++ tr2) = firstActivated tr2.
Proof.
  induction tr1 as [|e tr1 IH]; simpl; [reflexivity|].
  destruct e as [a| | |]; try exact IH.
  destruct a; try exact IH. discriminate.
Qed.

Lemma firstActivated_invoke h workflowId currentStep :
  firstActivated (invoke h workflowId currentStep) = None.
Proof. destruct h; reflexivity. Qed.

Lemma firstActivated_completion active step stepId d :
  firstActivated (completionEffects active step stepId d) = None.
Proof. unfold completionEffects. simpl. apply firstActivated_invoke. Qed.



Lemma areDependenciesMet_true step workflow :
  areDependenciesMet step workflow = true <-> depsCompleted workflow step.
Proof.
  unfold areDependenciesMet, depsCompleted.
  assert (Hall :
    List.forallb
      (fun depId =>
         match List.find (hasId depId) (Workflow.steps workflow) with
         | Some depStep => Step.completed depStep
         | None => false
         end) (Step.dependencies step) = true
    <-> (forall depId, In depId (Step.dependencies step) ->
           exists dep, List.find (hasId depId) (Workflow.steps workflow) = Some dep
                       /\ Step.completed dep = true)).
  { rewrite forallb_forall. split; intros H depId Hin; specialize (H depId Hin).
    - destruct (List.find _ _) as [dep|]; [|discriminate]. exists dep. split; auto.
    - destruct H as (dep & -> & Hc). exact Hc. }
  destruct (Step.dependencies step) as [|dep deps] eqn:Hdeps; [|exact Hall].
  split; [intros _ depId []|reflexivity].
Qed.

Lemma eligible_test step workflow :
  negb (Step.completed step) && areDependenciesMet step workflow = true
  <-> eligibleIn workflow step.
Proof.
  unfold eligibleIn. rewrite andb_true_iff, negb_true_iff, areDependenciesMet_true.
  reflexivity.
Qed.


(** A definition with two violations is stored all the same, and
    [validate] lists both. *)
Lemma register_stores_malformed_definition :
  getWorkflow (registerWorkflow ∅ malformedWorkflow) "malformed" = Some malformedWorkflow
  /\ WorkflowUtils.validate malformedWorkflow
     = {| WorkflowUtils.valid := false;
          WorkflowUtils.errors :=
            [ "Duplicate step ID: a";
              "Step a depends on non-existent step: ghost" ] |}.
Proof. split; reflexivity. Qed.

Lemma register_stores_and_validate_enumerates_witness :
  getWorkflow (registerWorkflow ∅ malformedWorkflow) "malformed" = Some malformedWorkflow
  /\ In "Duplicate step ID: a" (WorkflowUtils.errors (WorkflowUtils.validate malformedWorkflow))
  /\ WorkflowUtils.valid (WorkflowUtils.validate malformedWorkflow) = false.
Proof.
  apply (register_stores_and_validate_enumerates ∅ malformedWorkflow "Duplicate step ID: a").
  apply (DuplicateStepId malformedWorkflow
           [screenStep "a" "S1" true []] (screenStep "a" "S2" true ["ghost"]) []).
  - reflexivity.
  - simpl. left. reflexivity.
Defined.

(** ** Decimal fields *)

Lemma digit_cases d : 0 <= d <= 9 ->
  d = 0 \/ d = 1 \/ d = 2 \/ d = 3 \/ d = 4 \/ d = 5 \/ d = 6 \/ d = 7 \/ d = 8 \/ d = 9.
Proof. lia. Qed.

Lemma digitValue_digitChar d : 0 <= d <= 9 -> digitValue (digitChar d) = Some d.
Proof.
  intros H. destruct (digit_cases d H) as [->|[->|[->|[->|[->|[->|[->|[->|[->| ->]]]]]]]]];
    reflexivity.
Qed.

Lemma digitChar_not_sign d :
  0 <= d <= 9 ->
  Ascii.eqb (digitChar d) "+" = false /\ Ascii.eqb (digitChar d) "-" = false.
Proof.
  intros H. destruct (digit_cases d H) as [->|[->|[->|[->|[->|[->|[->|[->|[->| ->]]]]]]]]];
    split; reflexivity.
Qed.

Lemma mod10_digit n : 0 <= n mod 10 <= 9.
Proof. pose proof (Z.mod_pos_bound n 10). lia. Qed.

Lemma readDigits_pad_more width more n acc tail :
  0 <= n < 10 ^ Z.of_nat width ->
  readDigits (width + more) acc (pad width n ++ tail)
  = readDigits more (acc * 10 ^ Z.of_nat width + n) tail.
Proof.
  revert more n acc tail. induction width as [|w IH]; intros more n acc tail Hn.
  - change (10 ^ Z.of_nat 0) with 1 in *. cbn [pad app Nat.add].
    replace (acc * 1 + n) with acc by lia. reflexivity.
  - rewrite Nat2Z.inj_succ, Z.pow_succ_r in Hn by lia.
    cbn [pad]. rewrite <- app_assoc. cbn [app].
    replace (S w + more)%nat with (w + S more)%nat by lia.
    rewrite IH by (split; [apply Z.div_pos; lia|apply Z.div_lt_upper_bound; lia]).
    cbn [readDigits].
    rewrite digitValue_digitChar by apply mod10_digit.
    f_equal. rewrite Nat2Z.inj_succ, Z.pow_succ_r by lia.
    pose proof (Z.div_mod n 10 ltac:(lia)). nia.
Qed.

Lemma readDigits_pad width n tail :
  0 <= n < 10 ^ Z.of_nat width ->
  readDigits width 0 (pad width n ++ tail) = Some (n, tail).
Proof.
  intros Hn. rewrite <- (Nat.add_0_r width) at 1.
  rewrite readDigits_pad_more by exact Hn. reflexivity.
Qed.

Lemma pad_head width n tail :
  0 <= n ->
  exists rest, pad (S width) n ++ tail = digitChar (n / 10 ^ Z.of_nat width mod 10) :: rest.
Proof.
  revert n tail. induction width as [|w IH]; intros n tail Hn.
  - simpl. rewrite Z.div_1_r. eexists. reflexivity.
  - cbn [pad]. rewrite <- app_assoc.
    destruct (IH (n / 10) ([digitChar (n mod 10)] ++ tail)) as (rest & Hrest);
      [apply Z.div_pos; lia|].
    cbn [pad] in Hrest. rewrite Hrest. exists rest. f_equal. f_equal. f_equal.
    rewrite Nat2Z.inj_succ, Z.pow_succ_r by lia.
    rewrite Z.div_div by lia. reflexivity.
Qed.

Lemma readYear_written y tail :
  -999999 <= y <= 999999 ->
  readYear ((if (0 <=? y) && (y <=? 9999) then pad 4 y
             else (if y <? 0 then "-"%char else "+"%char) :: pad 6 (Z.abs y)) ++ tail)
  = Some (y, tail).
Proof.
  intros Hy. destruct ((0 <=? y) && (y <=? 9999)) eqn:Hrange.
  - apply andb_true_iff in Hrange. destruct Hrange as [H0 H9].
    apply Z.leb_le in H0, H9.
    destruct (pad_head 3 y tail H0) as (rest & Hrest).
    unfold readYear. rewrite Hrest.
    destruct (digitChar_not_sign (y / 10 ^ Z.of_nat 3 mod 10)) as [-> ->];
      [apply mod10_digit|].
    rewrite <- Hrest. apply readDigits_pad. simpl. lia.
  - assert (Hout : y < 0 \/ 9999 < y).
    { apply andb_false_iff in Hrange. destruct Hrange as [H|H];
        [apply Z.leb_gt in H|apply Z.leb_gt in H]; lia. }
    destruct (y <? 0) eqn:Hneg.
    + apply Z.ltb_lt in Hneg. cbn [app readYear]. simpl Ascii.eqb.
      rewrite readDigits_pad by (simpl; lia).
      destruct (Z.abs y =? 0) eqn:Hz; [apply Z.eqb_eq in Hz; lia|].
      f_equal. f_equal. lia.
    + apply Z.ltb_ge in Hneg. cbn [app readYear]. simpl Ascii.eqb.
      rewrite readDigits_pad by (simpl; lia).
      f_equal. f_equal. lia.
Qed.

(** ** Calendar *)

Lemma allFrom_spec n z p :
  allFrom n z p = true -> forall k, z <= k < z + Z.of_nat n -> p k = true.
Proof.
  revert z. induction n as [|n IH]; intros z H k Hk; [lia|].
  cbn [allFrom] in H. apply andb_true_iff in H. destruct H as [Hz Hrest].
  destruct (Z.eq_dec k z) as [->|Hne]; [exact Hz|].
  apply (IH (z + 1) Hrest). lia.
Qed.

Lemma monthDay_checked : allFrom 366 0 monthDayOk = true.
Proof. vm_compute. reflexivity. Qed.

Lemma monthDayOk_all doy : 0 <= doy <= 365 -> monthDayOk doy = true.
Proof. intros H. apply (allFrom_spec _ _ _ monthDay_checked). lia. Qed.

(** The year of the era, the day of that year, and the only day 365. *)
Lemma yearOfEra_spec doe :
  0 <= doe < 146097 ->
  let yoe := (doe - doe / 1460 + doe / 36524 - doe / 146096) / 365 in
  let doy := doe - (365 * yoe + yoe / 4 - yoe / 100) in
  0 <= yoe <= 399 /\ 0 <= doy <= 365
  /\ (doy = 365 ->
      (yoe + 1) mod 4 = 0 /\ ((yoe + 1) mod 100 <> 0 \/ (yoe + 1) mod 400 = 0)).
Proof. intros H yoe doy. subst doy yoe. Z.div_mod_to_equations. lia. Qed.

Lemma daysInMonth_common y m : daysInMonth 1 m <= daysInMonth y m.
Proof.
  unfold daysInMonth. destruct (m =? 2); [|lia].
  change (isLeapYear 1) with false. destruct (isLeapYear y); lia.
Qed.

Lemma daysInMonth_leap y m : isLeapYear y = true -> daysInMonth y m = daysInMonth 4 m.
Proof. intros H. unfold daysInMonth. rewrite H. reflexivity. Qed.

Lemma civilOfEraDay_spec doe y m d :
  0 <= doe < 146097 ->
  civilOfEraDay doe = (y, m, d) ->
  1 <= m <= 12 /\ 1 <= d <= daysInMonth y m
  /\ 0 <= (if m <=? 2 then y - 1 else y) <= 399
  /\ daysFromCivil y m d + 719468 = doe.
Proof.
  intros Hdoe. unfold civilOfEraDay.
  destruct (yearOfEra_spec doe Hdoe) as (Hyoe & Hdoy & Hleap).
  set (yoe := (doe - doe / 1460 + doe / 36524 - doe / 146096) / 365) in *.
  set (doy := doe - (365 * yoe + yoe / 4 - yoe / 100)) in *.
  pose proof (monthDayOk_all doy Hdoy) as Hok. unfold monthDayOk in Hok.
  set (mp := (5 * doy + 2) / 153) in *.
  set (d0 := doy - (153 * mp + 2) / 5 + 1) in *.
  set (m0 := if mp <? 10 then mp + 3 else mp - 9) in *.
  intros [= <- <- <-].
  repeat (apply andb_true_iff in Hok; destruct Hok as [Hok ?]).
  repeat match goal with
         | H : (_ <=? _) = true |- _ => apply Z.leb_le in H
         | H : (_ =? _) = true |- _ => apply Z.eqb_eq in H
         end.
  assert (Hy' : (if m0 <=? 2 then (if m0 <=? 2 then yoe + 1 else yoe) - 1
                 else if m0 <=? 2 then yoe + 1 else yoe) = yoe)
    by (destruct (m0 <=? 2); lia).
  split; [lia|]. split; [|split].
  - split; [lia|].
    destruct (doy =? 365) eqn:E.
    + apply Z.eqb_eq in E. destruct (Hleap E) as (H4 & H100).
      assert (Hm2 : (m0 <=? 2) = true).
      { subst m0 mp. rewrite E. reflexivity. }
      rewrite Hm2. rewrite daysInMonth_leap; [assumption|].
      unfold isLeapYear. rewrite H4. simpl.
      destruct H100 as [H100|H400].
      * apply Z.eqb_neq in H100. rewrite H100. reflexivity.
      * rewrite H400. apply orb_true_r.
    + etransitivity; [eassumption|apply daysInMonth_common].
  - rewrite Hy'. lia.
  - unfold daysFromCivil. rewrite Hy'.
    rewrite (Z.div_small yoe 400) by lia.
    replace (yoe - 0 * 400) with yoe by lia.
    subst doy. lia.
Qed.

Lemma isLeapYear_era y era : isLeapYear (y + era * 400) = isLeapYear y.
Proof.
  unfold isLeapYear.
  replace ((y + era * 400) mod 4) with (y mod 4)
    by (replace (era * 400) with (era * 100 * 4) by lia; symmetry; apply Z_mod_plus_full).
  replace ((y + era * 400) mod 100) with (y mod 100)
    by (replace (era * 400) with (era * 4 * 100) by lia; symmetry; apply Z_mod_plus_full).
  replace ((y + era * 400) mod 400) with (y mod 400)
    by (symmetry; apply Z_mod_plus_full).
  reflexivity.
Qed.

Lemma daysInMonth_era y era m : daysInMonth (y + era * 400) m = daysInMonth y m.
Proof. unfold daysInMonth. rewrite isLeapYear_era. reflexivity. Qed.

Lemma daysFromCivil_era y era m d :
  0 <= (if m <=? 2 then y - 1 else y) <= 399 ->
  daysFromCivil (y + era * 400) m d = daysFromCivil y m d + era * 146097.
Proof.
  intros Hy. unfold daysFromCivil.
  set (y' := if m <=? 2 then y - 1 else y) in *.
  replace (if m <=? 2 then y + era * 400 - 1 else y + era * 400) with (y' + era * 400)
    by (subst y'; destruct (m <=? 2); lia).
  rewrite Z.div_add by lia. rewrite (Z.div_small y' 400) by lia.
  replace (y' + era * 400 - (0 + era) * 400) with y' by lia.
  replace (y' - 0 * 400) with y' by lia.
  lia.
Qed.

Lemma civilFromDays_spec day y m d :
  civilFromDays day = (y, m, d) ->
  1 <= m <= 12 /\ 1 <= d <= daysInMonth y m /\ daysFromCivil y m d = day
  /\ (day + 719468) / 146097 * 400 <= y <= (day + 719468) / 146097 * 400 + 400.
Proof.
  unfold civilFromDays.
  pose proof (Z.mod_pos_bound (day + 719468) 146097 ltac:(lia)) as Hdoe.
  destruct (civilOfEraDay ((day + 719468) mod 146097)) as [[y0 m0] d0] eqn:Hc.
  destruct (civilOfEraDay_spec _ _ _ _ Hdoe Hc) as (Hm & Hd & Hy & Hdays).
  intros [= <- <- <-].
  rewrite daysInMonth_era. rewrite daysFromCivil_era by lia.
  pose proof (Z.div_mod (day + 719468) 146097 ltac:(lia)).
  repeat split; try lia; destruct (m0 <=? 2); lia.
Qed.

(** ** toISOString and Date.parse *)

Lemma readChar_same c tail : readChar c (c :: tail) = Some tail.
Proof. unfold readChar. rewrite Ascii.eqb_refl. reflexivity. Qed.

Lemma timeOfDay_fields ms :
  0 <= ms < msPerDay ->
  0 <= ms / 3600000 <= 23
  /\ 0 <= ms / 60000 mod 60 <= 59
  /\ 0 <= ms / 1000 mod 60 <= 59
  /\ 0 <= ms mod 1000 <= 999
  /\ ms / 3600000 * 3600000 + ms / 60000 mod 60 * 60000
     + ms / 1000 mod 60 * 1000 + ms mod 1000 = ms.
Proof. unfold msPerDay. intros H. Z.div_mod_to_equations. lia. Qed.

Lemma year_in_range t y m d :
  - maxTime <= t <= maxTime ->
  civilFromDays (t / msPerDay) = (y, m, d) ->
  -999999 <= y <= 999999.
Proof.
  unfold maxTime, msPerDay. intros Ht Hc.
  apply civilFromDays_spec in Hc. destruct Hc as (_ & _ & _ & Hy).
  revert Hy. Z.div_mod_to_equations. lia.
Qed.

Lemma daysInMonth_bound y m : daysInMonth y m <= 31.
Proof.
  unfold daysInMonth. destruct (m =? 2); [destruct (isLeapYear y); lia|].
  destruct ((m =? 4) || (m =? 6) || (m =? 9) || (m =? 11)); lia.
Qed.

Lemma parseChars_isoChars t :
  - maxTime <= t <= maxTime -> parseChars (isoChars t) = Some t.
Proof.
  intros Ht. unfold isoChars.
  destruct (civilFromDays (t / msPerDay)) as [[y m] d] eqn:Hc.
  pose proof (year_in_range t y m d Ht Hc) as Hy.
  apply civilFromDays_spec in Hc. destruct Hc as (Hm & Hd & Hday & _).
  pose proof (daysInMonth_bound y m) as Hdim.
  pose proof (Z.mod_pos_bound t msPerDay ltac:(unfold msPerDay; lia)) as Hms.
  pose proof (Z.div_mod t msPerDay ltac:(unfold msPerDay; lia)) as Ht'.
  destruct (timeOfDay_fields _ Hms) as (Hhh & Hmm & Hss & Hmmm & Hsum).
  set (ms := t mod msPerDay) in *.
  set (hh := ms / 3600000) in *.
  set (mi := ms / 60000 mod 60) in *.
  set (ss := ms / 1000 mod 60) in *.
  set (mmm := ms mod 1000) in *.
  clearbody hh mi ss mmm ms.
  unfold parseChars.
  rewrite readYear_written by exact Hy. cbn [mbind option_bind].
  rewrite readChar_same. cbn [mbind option_bind].
  rewrite readDigits_pad by (simpl; lia). cbn [mbind option_bind].
  rewrite readChar_same. cbn [mbind option_bind].
  rewrite readDigits_pad by (simpl; lia). cbn [mbind option_bind].
  rewrite readChar_same. cbn [mbind option_bind].
  rewrite readDigits_pad by (simpl; lia). cbn [mbind option_bind].
  rewrite readChar_same. cbn [mbind option_bind].
  rewrite readDigits_pad by (simpl; lia). cbn [mbind option_bind].
  rewrite readChar_same. cbn [mbind option_bind].
  rewrite readDigits_pad by (simpl; lia). cbn [mbind option_bind].
  rewrite readChar_same. cbn [mbind option_bind].
  rewrite (readDigits_pad 3 _ ["Z"%char]) by (simpl; lia). cbn [mbind option_bind].
  rewrite readChar_same. cbn [mbind option_bind].
  replace ((1 <=? m) && (m <=? 12) && (1 <=? d) && (d <=? daysInMonth y m)
           && (hh <=? 23) && (mi <=? 59) && (ss <=? 59)) with true
    by (symmetry; repeat (apply andb_true_intro; split); apply Z.leb_le; lia).
  rewrite Hday.
  replace (t / msPerDay * msPerDay + hh * 3600000 + mi * 60000 + ss * 1000 + mmm)
    with t by lia.
  unfold timeClip.
  replace ((- maxTime <=? t) && (t <=? maxTime)) with true; [reflexivity|].
  symmetry. apply andb_true_intro. split; apply Z.leb_le; lia.
Qed.

Lemma Date_parse_toISOString platform t :
  - maxTime <= t <= maxTime -> Date_parse platform (toISOString t) = Some t.
Proof.
  intros Ht. unfold Date_parse, toISOString.
  rewrite list_ascii_of_string_of_list_ascii, parseChars_isoChars by exact Ht.
  reflexivity.
Qed.

(** ** The order of the ISO strings *)

Lemma compare_string_app (a1 a2 b1 b2 : list ascii) :
  length a1 = length a2 ->
  String.compare (string_of_list_ascii (a1 ++ b1)) (string_of_list_ascii (a2 ++ b2))
  = lexOrder (String.compare (string_of_list_ascii a1) (string_of_list_ascii a2))
             (String.compare (string_of_list_ascii b1) (string_of_list_ascii b2)).
Proof.
  revert a2. induction a1 as [|c a1 IH]; intros [|c' a2] Hlen; try discriminate Hlen.
  - reflexivity.
  - cbn [app string_of_list_ascii String.compare].
    destruct (Ascii.compare c c'); try reflexivity.
    apply IH. simpl in Hlen. lia.
Qed.

Lemma compare_string_cons c (a b : list ascii) :
  String.compare (string_of_list_ascii (c :: a)) (string_of_list_ascii (c :: b))
  = String.compare (string_of_list_ascii a) (string_of_list_ascii b).
Proof.
  cbn [string_of_list_ascii String.compare].
  unfold Ascii.compare at 1. rewrite N.compare_refl. reflexivity.
Qed.

Lemma length_pad width n : length (pad width n) = width.
Proof.
  revert n. induction width as [|w IH]; intros n; [reflexivity|].
  cbn [pad]. rewrite length_app, IH. simpl. lia.
Qed.

Lemma compare_digitChar a b :
  0 <= a <= 9 -> 0 <= b <= 9 -> Ascii.compare (digitChar a) (digitChar b) = (a ?= b).
Proof.
  intros Ha Hb.
  destruct (digit_cases a Ha) as [->|[->|[->|[->|[->|[->|[->|[->|[->| ->]]]]]]]]];
    destruct (digit_cases b Hb) as [->|[->|[->|[->|[->|[->|[->|[->|[->| ->]]]]]]]]];
    reflexivity.
Qed.

Lemma lexOrder_digits a b :
  lexOrder (a / 10 ?= b / 10) (a mod 10 ?= b mod 10) = (a ?= b).
Proof.
  pose proof (Z.div_mod a 10 ltac:(lia)). pose proof (Z.div_mod b 10 ltac:(lia)).
  pose proof (Z.mod_pos_bound a 10 ltac:(lia)). pose proof (Z.mod_pos_bound b 10 ltac:(lia)).
  unfold lexOrder.
  destruct (Z.compare_spec (a / 10) (b / 10)) as [E|E|E];
    destruct (Z.compare_spec (a mod 10) (b mod 10)) as [F|F|F];
    symmetry;
    first [apply Z.compare_eq_iff; lia|apply Z.compare_lt_iff; lia|apply Z.compare_gt_iff; lia].
Qed.

Lemma compare_pad width a b tail1 tail2 :
  0 <= a < 10 ^ Z.of_nat width -> 0 <= b < 10 ^ Z.of_nat width ->
  String.compare (string_of_list_ascii (pad width a ++ tail1))
                 (string_of_list_ascii (pad width b ++ tail2))
  = lexOrder (a ?= b)
             (String.compare (string_of_list_ascii tail1) (string_of_list_ascii tail2)).
Proof.
  revert a b tail1 tail2. induction width as [|w IH]; intros a b tail1 tail2 Ha Hb.
  - change (10 ^ Z.of_nat 0) with 1 in *.
    replace a with 0 by lia. replace b with 0 by lia. reflexivity.
  - rewrite Nat2Z.inj_succ, Z.pow_succ_r in Ha, Hb by lia.
    cbn [pad]. rewrite <- !app_assoc.
    rewrite IH by (split; [apply Z.div_pos; lia|apply Z.div_lt_upper_bound; lia]).
    cbn [app string_of_list_ascii String.compare].
    rewrite compare_digitChar by apply mod10_digit.
    rewrite <- (lexOrder_digits a b).
    destruct (a / 10 ?= b / 10); try reflexivity.
    destruct (a mod 10 ?= b mod 10); reflexivity.
Qed.

Lemma compare_string_nil : String.compare (string_of_list_ascii []) (string_of_list_ascii []) = Eq.
Proof. reflexivity. Qed.

(** The days before a year that begins in March: [g]. *)
Lemma daysFromCivil_march y m d :
  1 <= m <= 12 ->
  let y' := if m <=? 2 then y - 1 else y in
  let mp := if 2 <? m then m - 3 else m + 9 in
  daysFromCivil y m d
  = 365 * y' + y' / 4 - y' / 100 + y' / 400 + ((153 * mp + 2) / 5 + d - 1) - 719468.
Proof.
  intros Hm. unfold daysFromCivil. cbv zeta.
  set (y' := if m <=? 2 then y - 1 else y).
  set (mp := if 2 <? m then m - 3 else m + 9).
  generalize ((153 * mp + 2) / 5). intros doy.
  clearbody y'. Z.div_mod_to_equations. lia.
Qed.

Lemma leapDays_mono a b :
  a <= b -> a / 4 - a / 100 + a / 400 <= b / 4 - b / 100 + b / 400.
Proof.
  intros Hab.
  replace (a / 100) with (a / 4 / 25) by (rewrite Z.div_div by lia; reflexivity).
  replace (b / 100) with (b / 4 / 25) by (rewrite Z.div_div by lia; reflexivity).
  replace (a / 400) with (a / 4 / 25 / 4) by (rewrite !Z.div_div by lia; reflexivity).
  replace (b / 400) with (b / 4 / 25 / 4) by (rewrite !Z.div_div by lia; reflexivity).
  assert (Hu : a / 4 <= b / 4) by (apply Z.div_le_mono; lia).
  revert Hu. generalize (a / 4) (b / 4). intros u v Huv.
  assert (Hp : u / 25 <= v / 25) by (apply Z.div_le_mono; lia).
  assert (Hq : u / 25 / 4 <= v / 25 / 4) by (apply Z.div_le_mono; lia).
  assert (Hd : u - u / 25 <= v - v / 25).
  { clear Hq. Z.div_mod_to_equations. lia. }
  lia.
Qed.

Lemma leapDay_step a :
  (a + 1) / 4 - (a + 1) / 100 + (a + 1) / 400
  = a / 4 - a / 100 + a / 400 + (if isLeapYear (a + 1) then 1 else 0).
Proof.
  unfold isLeapYear.
  destruct (Z.eqb_spec ((a + 1) mod 4) 0) as [H4|H4];
    destruct (Z.eqb_spec ((a + 1) mod 100) 0) as [H100|H100];
    destruct (Z.eqb_spec ((a + 1) mod 400) 0) as [H400|H400];
    cbn [negb andb orb]; Z.div_mod_to_equations; lia.
Qed.

(** The day of a year that begins in March is within the year. *)
Lemma dayOfYear_bound y m d :
  1 <= m <= 12 -> 1 <= d <= daysInMonth y m ->
  let y' := if m <=? 2 then y - 1 else y in
  let mp := if 2 <? m then m - 3 else m + 9 in
  0 <= (153 * mp + 2) / 5 + d - 1 < 365 + (if isLeapYear (y' + 1) then 1 else 0).
Proof.
  intros Hm Hd. cbv zeta.
  assert (Hcases : m = 1 \/ m = 2 \/ m = 3 \/ m = 4 \/ m = 5 \/ m = 6 \/ m = 7 \/ m = 8
                   \/ m = 9 \/ m = 10 \/ m = 11 \/ m = 12) by lia.
  destruct Hcases as [->|[->|[->|[->|[->|[->|[->|[->|[->|[->|[->| ->]]]]]]]]]]];
    unfold daysInMonth in Hd; cbn in Hd |- *;
    try replace (y - 1 + 1) with y in * by lia;
    destruct (isLeapYear _); Z.div_mod_to_equations; lia.
Qed.

Lemma dayOfYear_lt y m1 d1 m2 d2 :
  1 <= m1 <= 12 -> 1 <= m2 <= 12 -> 1 <= d1 <= daysInMonth y m1 -> 1 <= d2 ->
  (if 2 <? m1 then m1 - 3 else m1 + 9) < (if 2 <? m2 then m2 - 3 else m2 + 9) ->
  (153 * (if 2 <? m1 then m1 - 3 else m1 + 9) + 2) / 5 + d1
  < (153 * (if 2 <? m2 then m2 - 3 else m2 + 9) + 2) / 5 + d2.
Proof.
  intros Hm1 Hm2 Hd1 Hd2.
  pose proof (daysInMonth_bound y m1) as Hdim.
  set (mp2 := if 2 <? m2 then m2 - 3 else m2 + 9).
  assert (Hmp2 : 0 <= mp2 <= 11) by (subst mp2; destruct (Z.ltb_spec 2 m2); lia).
  clearbody mp2.
  assert (Hcases : m1 = 1 \/ m1 = 2 \/ m1 = 3 \/ m1 = 4 \/ m1 = 5 \/ m1 = 6 \/ m1 = 7
                   \/ m1 = 8 \/ m1 = 9 \/ m1 = 10 \/ m1 = 11 \/ m1 = 12) by lia.
  destruct Hcases as [->|[->|[->|[->|[->|[->|[->|[->|[->|[->|[->| ->]]]]]]]]]]];
    unfold daysInMonth in Hd1; cbn in Hd1 |- *; intros Hlt;
    Z.div_mod_to_equations; lia.
Qed.

Lemma daysFromCivil_lt y1 m1 d1 y2 m2 d2 :
  1 <= m1 <= 12 -> 1 <= d1 <= daysInMonth y1 m1 ->
  1 <= m2 <= 12 -> 1 <= d2 <= daysInMonth y2 m2 ->
  y1 < y2 \/ y1 = y2 /\ (m1 < m2 \/ m1 = m2 /\ d1 < d2) ->
  daysFromCivil y1 m1 d1 < daysFromCivil y2 m2 d2.
Proof.
  intros Hm1 Hd1 Hm2 Hd2 Hlt.
  rewrite (daysFromCivil_march y1 m1 d1 Hm1), (daysFromCivil_march y2 m2 d2 Hm2).
  pose proof (dayOfYear_bound y1 m1 d1 Hm1 Hd1) as Hb1.
  pose proof (dayOfYear_bound y2 m2 d2 Hm2 Hd2) as Hb2.
  cbv zeta in *.
  set (a := if m1 <=? 2 then y1 - 1 else y1) in *.
  set (b := if m2 <=? 2 then y2 - 1 else y2) in *.
  destruct (Z.lt_trichotomy a b) as [Hab|[Hab|Hab]].
  - pose proof (leapDays_mono (a + 1) b ltac:(lia)) as Hmono.
    rewrite leapDay_step in Hmono. lia.
  - assert (Hmp : (if 2 <? m1 then m1 - 3 else m1 + 9) < (if 2 <? m2 then m2 - 3 else m2 + 9)
                  \/ m1 = m2 /\ d1 < d2).
    { subst a b. destruct (Z.leb_spec m1 2), (Z.leb_spec m2 2), (Z.ltb_spec 2 m1),
        (Z.ltb_spec 2 m2); lia. }
    destruct Hmp as [Hmp|[-> Hd]].
    + assert (Hy : daysInMonth y1 m1 <= 31) by apply daysInMonth_bound.
      pose proof (dayOfYear_lt y1 m1 d1 m2 d2 Hm1 Hm2 Hd1 ltac:(lia) Hmp). 
      rewrite Hab. lia.
    + rewrite Hab. lia.
  - exfalso. subst a b. destruct (Z.leb_spec m1 2), (Z.leb_spec m2 2); lia.
Qed.

Lemma compare_daysFromCivil y1 m1 d1 y2 m2 d2 :
  1 <= m1 <= 12 -> 1 <= d1 <= daysInMonth y1 m1 ->
  1 <= m2 <= 12 -> 1 <= d2 <= daysInMonth y2 m2 ->
  lexOrder (y1 ?= y2) (lexOrder (m1 ?= m2) (d1 ?= d2))
  = (daysFromCivil y1 m1 d1 ?= daysFromCivil y2 m2 d2).
Proof.
  intros Hm1 Hd1 Hm2 Hd2. unfold lexOrder.
  destruct (Z.compare_spec y1 y2) as [Ey|Ey|Ey];
    [destruct (Z.compare_spec m1 m2) as [Em|Em|Em];
     [destruct (Z.compare_spec d1 d2) as [Ed|Ed|Ed]| |]| |];
    symmetry.
  - subst. apply Z.compare_refl.
  - apply Z.compare_lt_iff. apply daysFromCivil_lt; try assumption. lia.
  - apply Z.compare_gt_iff. apply daysFromCivil_lt; try assumption. lia.
  - apply Z.compare_lt_iff. apply daysFromCivil_lt; try assumption. lia.
  - apply Z.compare_gt_iff. apply daysFromCivil_lt; try assumption. lia.
  - apply Z.compare_lt_iff. apply daysFromCivil_lt; try assumption. lia.
  - apply Z.compare_gt_iff. apply daysFromCivil_lt; try assumption. lia.
Qed.

Lemma compare_timeOfDay hh1 mi1 ss1 ms1 hh2 mi2 ss2 ms2 :
  0 <= mi1 <= 59 -> 0 <= ss1 <= 59 -> 0 <= ms1 <= 999 ->
  0 <= mi2 <= 59 -> 0 <= ss2 <= 59 -> 0 <= ms2 <= 999 ->
  lexOrder (hh1 ?= hh2) (lexOrder (mi1 ?= mi2) (lexOrder (ss1 ?= ss2) (lexOrder (ms1 ?= ms2) Eq)))
  = (hh1 * 3600000 + mi1 * 60000 + ss1 * 1000 + ms1
     ?= hh2 * 3600000 + mi2 * 60000 + ss2 * 1000 + ms2).
Proof.
  intros. unfold lexOrder.
  destruct (Z.compare_spec hh1 hh2); [destruct (Z.compare_spec mi1 mi2);
    [destruct (Z.compare_spec ss1 ss2); [destruct (Z.compare_spec ms1 ms2)| |]| |]| |];
    symmetry;
    first [apply Z.compare_eq_iff; lia|apply Z.compare_lt_iff; lia|apply Z.compare_gt_iff; lia].
Qed.

Lemma compare_dayAndTime day1 ms1 day2 ms2 :
  0 <= ms1 < msPerDay -> 0 <= ms2 < msPerDay ->
  lexOrder (day1 ?= day2) (ms1 ?= ms2)
  = (day1 * msPerDay + ms1 ?= day2 * msPerDay + ms2).
Proof.
  unfold msPerDay. intros. unfold lexOrder.
  destruct (Z.compare_spec day1 day2); [destruct (Z.compare_spec ms1 ms2)| |];
    symmetry;
    first [apply Z.compare_eq_iff; lia|apply Z.compare_lt_iff; lia|apply Z.compare_gt_iff; lia].
Qed.

Lemma lexOrder_assoc a b c : lexOrder (lexOrder a b) c = lexOrder a (lexOrder b c).
Proof. destruct a; reflexivity. Qed.

(** For years 0 to 9999 the ISO strings are in the order of the time
    values. *)
Lemma toISOString_order t1 t2 :
  0 <= yearOf t1 <= 9999 -> 0 <= yearOf t2 <= 9999 ->
  String.compare (toISOString t1) (toISOString t2) = (t1 ?= t2).
Proof.
  unfold yearOf, toISOString, isoChars.
  destruct (civilFromDays (t1 / msPerDay)) as [[y1 m1] d1] eqn:Hc1.
  destruct (civilFromDays (t2 / msPerDay)) as [[y2 m2] d2] eqn:Hc2.
  intros Hy1 Hy2.
  apply civilFromDays_spec in Hc1, Hc2.
  destruct Hc1 as (Hm1 & Hd1 & Hday1 & _). destruct Hc2 as (Hm2 & Hd2 & Hday2 & _).
  pose proof (daysInMonth_bound y1 m1) as Hdim1.
  pose proof (daysInMonth_bound y2 m2) as Hdim2.
  pose proof (Z.mod_pos_bound t1 msPerDay ltac:(unfold msPerDay; lia)) as Hms1.
  pose proof (Z.mod_pos_bound t2 msPerDay ltac:(unfold msPerDay; lia)) as Hms2.
  pose proof (Z.div_mod t1 msPerDay ltac:(unfold msPerDay; lia)) as Ht1.
  pose proof (Z.div_mod t2 msPerDay ltac:(unfold msPerDay; lia)) as Ht2.
  destruct (timeOfDay_fields _ Hms1) as (Hhh1 & Hmi1 & Hss1 & Hmmm1 & Hsum1).
  destruct (timeOfDay_fields _ Hms2) as (Hhh2 & Hmi2 & Hss2 & Hmmm2 & Hsum2).
  replace ((0 <=? y1) && (y1 <=? 9999)) with true
    by (symmetry; apply andb_true_intro; split; apply Z.leb_le; lia).
  replace ((0 <=? y2) && (y2 <=? 9999)) with true
    by (symmetry; apply andb_true_intro; split; apply Z.leb_le; lia).
  rewrite compare_pad by (simpl; lia). rewrite compare_string_cons.
  rewrite compare_pad by (simpl; lia). rewrite compare_string_cons.
  rewrite compare_pad by (simpl; lia). rewrite compare_string_cons.
  rewrite compare_pad by (simpl; lia). rewrite compare_string_cons.
  rewrite compare_pad by (simpl; lia). rewrite compare_string_cons.
  rewrite compare_pad by (simpl; lia). rewrite compare_string_cons.
  rewrite (compare_pad 3 _ _ ["Z"%char] ["Z"%char]) by (simpl; lia).
  rewrite compare_string_cons, compare_string_nil.
  rewrite compare_timeOfDay by lia.
  rewrite Hsum1, Hsum2.
  rewrite <- (lexOrder_assoc (m1 ?= m2) (d1 ?= d2)).
  rewrite <- (lexOrder_assoc (y1 ?= y2)).
  rewrite compare_daysFromCivil by assumption.
  rewrite Hday1, Hday2.
  rewrite compare_dayAndTime by assumption.
  f_equal; lia.
Qed.

(** ** JSON documents *)

Lemma toJson_object props : toJson (JObject props) = Some (JsonObject (jsonMembers props)).
Proof. reflexivity. Qed.

Lemma jsonMembers_cons k v props :
  jsonMembers ((k, v) :: props)
  = match toJson v with
    | Some j => (k, j) :: jsonMembers props
    | None => jsonMembers props
    end.
Proof. reflexivity. Qed.

Lemma toJson_fromJson : forall j, toJson (fromJson j) = Some j.
Proof.
  fix IH 1. intros [| b | n | s | items | members]; try reflexivity.
  - cbn [fromJson toJson]. f_equal. f_equal.
    induction items as [|i items IHi]; [reflexivity|].
    cbn [List.map]. rewrite IH. cbn [default]. f_equal. exact IHi.
  - cbn [fromJson]. rewrite toJson_object. f_equal. f_equal.
    induction members as [|[k v] members IHm]; [reflexivity|].
    cbn [List.map fst snd]. rewrite jsonMembers_cons, IH. f_equal. exact IHm.
Qed.

Lemma jsonMembers_fromMembers members : jsonMembers (fromMembers members) = members.
Proof.
  induction members as [|[k v] members IH]; [reflexivity|].
  unfold fromMembers in *. cbn [List.map fst snd].
  rewrite jsonMembers_cons, toJson_fromJson, IH. reflexivity.
Qed.

Lemma jsonMembers_app a b : jsonMembers (a ++ b) = jsonMembers a ++ jsonMembers b.
Proof.
  induction a as [|[k v] a IH]; [reflexivity|].
  cbn [app]. rewrite !jsonMembers_cons, IH. destruct (toJson v); reflexivity.
Qed.

Lemma jsonMembers_keys props k :
  In k (List.map fst (jsonMembers props)) -> In k (List.map fst props).
Proof.
  induction props as [|[k' v] props IH]; [intros []|].
  rewrite jsonMembers_cons. destruct (toJson v); simpl; intuition.
Qed.

Lemma fromMembers_keys members : List.map fst (fromMembers members) = List.map fst members.
Proof. unfold fromMembers. rewrite List.map_map. reflexivity. Qed.

(** ** Object properties *)

Lemma getProp_setProp props k v : getProp (setProp props k v) k = v.
Proof.
  induction props as [|[k' v'] props IH]; simpl.
  - rewrite String.eqb_refl. reflexivity.
  - destruct (String.eqb k' k) eqn:E; simpl; rewrite E; [reflexivity|exact IH].
Qed.

Lemma setProp_setProp props k v w : setProp (setProp props k v) k w = setProp props k w.
Proof.
  induction props as [|[k' v'] props IH]; simpl.
  - rewrite String.eqb_refl. reflexivity.
  - destruct (String.eqb k' k) eqn:E; simpl; rewrite E; [reflexivity|].
    rewrite IH. reflexivity.
Qed.

Lemma getProp_absent props k : ~ In k (List.map fst props) -> getProp props k = JUndefined.
Proof.
  induction props as [|[k' v'] props IH]; simpl; [reflexivity|].
  intros H. destruct (String.eqb k' k) eqn:E.
  - apply String.eqb_eq in E. tauto.
  - apply IH. tauto.
Qed.

Lemma setProp_absent props k v :
  ~ In k (List.map fst props) -> setProp props k v = props ++ [(k, v)].
Proof.
  induction props as [|[k' v'] props IH]; simpl; [reflexivity|].
  intros H. destruct (String.eqb k' k) eqn:E.
  - apply String.eqb_eq in E. tauto.
  - rewrite IH by tauto. reflexivity.
Qed.

(** A property set to a value that is written reads back as the parsed
    value, and setting it again to that value changes nothing. *)
Lemma parsed_setProp props k v j :
  toJson v = Some j ->
  let parsed := fromMembers (jsonMembers (setProp props k v)) in
  getProp parsed k = fromJson j /\ setProp parsed k (fromJson j) = parsed.
Proof.
  intros Hj. induction props as [|[k' v'] props IH]; cbn [setProp].
  - rewrite jsonMembers_cons, Hj. simpl. rewrite String.eqb_refl. split; reflexivity.
  - destruct (String.eqb k' k) eqn:E.
    + rewrite jsonMembers_cons, Hj. simpl. rewrite E. split; reflexivity.
    + rewrite jsonMembers_cons. destruct (toJson v') as [j'|]; [|exact IH].
      simpl. rewrite E. destruct IH as [IH1 IH2]. split; [exact IH1|].
      f_equal. exact IH2.
Qed.

(** A property set to [undefined] is not written. *)
Lemma parsed_setProp_undefined props k v :
  List.NoDup (List.map fst props) ->
  toJson v = None ->
  ~ In k (List.map fst (fromMembers (jsonMembers (setProp props k v)))).
Proof.
  intros Hnd Hv. rewrite fromMembers_keys.
  induction props as [|[k' v'] props IH]; cbn [setProp].
  - rewrite jsonMembers_cons, Hv. intros [].
  - simpl in Hnd. apply NoDup_cons_iff in Hnd. destruct Hnd as [Hk' Hnd].
    destruct (String.eqb k' k) eqn:E.
    + apply String.eqb_eq in E. subst k'. rewrite jsonMembers_cons, Hv.
      intros Hin. apply Hk', jsonMembers_keys, Hin.
    + apply String.eqb_neq in E. rewrite jsonMembers_cons.
      destruct (toJson v'); simpl; intuition.
Qed.

Lemma getProp_setProp_other props k v k' :
  k' <> k -> getProp (setProp props k v) k' = getProp props k'.
Proof.
  intros Hne. induction props as [|[k0 v0] props IH]; simpl.
  - destruct (String.eqb k k') eqn:E; [|reflexivity].
    apply String.eqb_eq in E. congruence.
  - destruct (String.eqb k0 k) eqn:E; simpl.
    + apply String.eqb_eq in E. subst k0.
      destruct (String.eqb k k') eqn:E'; [|reflexivity].
      apply String.eqb_eq in E'. congruence.
    + destruct (String.eqb k0 k'); [reflexivity|exact IH].
Qed.

(** A property whose value is a plain JSON value reads back as it was. *)
Lemma getProp_written props k j :
  getProp props k = fromJson j ->
  getProp (fromMembers (jsonMembers props)) k = fromJson j.
Proof.
  induction props as [|[k0 v0] props IH]; cbn [getProp].
  - destruct j; discriminate.
  - rewrite jsonMembers_cons. destruct (String.eqb k0 k) eqn:E.
    + intros ->. rewrite toJson_fromJson. unfold fromMembers. cbn [List.map fst snd getProp].
      rewrite E. reflexivity.
    + intros H. destruct (toJson v0); [|apply IH, H].
      unfold fromMembers. cbn [List.map fst snd getProp]. rewrite E. apply IH, H.
Qed.

Lemma getProp_restored state history restoredHistory k j :
  k <> "history" ->
  getProp state k = fromJson j ->
  getProp (setProp (fromMembers (jsonMembers (setProp state "history" history)))
             "history" restoredHistory) k
  = fromJson j.
Proof.
  intros Hne Hk. rewrite getProp_setProp_other by exact Hne.
  apply getProp_written. rewrite getProp_setProp_other by exact Hne. exact Hk.
Qed.

(** ** WorkflowStorage *)

Lemma bindRun_Done {A B} (r : Run A) (k : A -> Run B) b :
  bindRun r k = Done b -> exists a, r = Done a /\ k a = Done b.
Proof. destruct r as [a| |]; simpl; try discriminate. intros H. exists a. auto. Qed.

Lemma mapRun_cons_Done {A B} (f : A -> Run B) x l ys :
  mapRun f (x :: l) = Done ys ->
  exists y ys', f x = Done y /\ mapRun f l = Done ys' /\ ys = y :: ys'.
Proof.
  cbn [mapRun]. intros H.
  destruct (bindRun_Done _ _ _ H) as (y & Hy & H').
  destruct (bindRun_Done _ _ _ H') as (ys' & Hys & H'').
  exists y, ys'. repeat split; [exact Hy|exact Hys|]. simpl in H''. congruence.
Qed.

Lemma serializeEntry_Done entry written :
  WorkflowStorage.serializeEntry entry = Done written ->
  exists props t,
    entry = JObject props
    /\ getProp props "completedAt" = JDate (Some t)
    /\ written = JObject (setProp props "completedAt" (JString (toISOString t))).
Proof.
  unfold WorkflowStorage.serializeEntry.
  destruct entry as [| | | | | | |items|props]; try discriminate.
  destruct (getProp props "completedAt") as [| | | | |[t|]| | |] eqn:Hc; try discriminate.
  intros [= <-]. exists props, t. split; [reflexivity|split; [exact Hc|reflexivity]].
Qed.

(** A property whose value is a plain JSON value is the same in the entry
    read back. *)
Lemma getProp_restored_entry props text date k j :
  getProp props "completedAt" = JDate date ->
  getProp props k = fromJson j ->
  getProp (setProp (fromMembers (jsonMembers (setProp props "completedAt" text)))
             "completedAt" (JDate date)) k
  = fromJson j.
Proof.
  intros Hc Hk.
  assert (Hne : k <> "completedAt").
  { intros ->. rewrite Hc in Hk. destruct j; discriminate Hk. }
  rewrite getProp_setProp_other by exact Hne.
  apply getProp_written. rewrite getProp_setProp_other by exact Hne. exact Hk.
Qed.

(** One history entry: written, read back and written again. *)
Lemma entry_roundtrip platform entry written :
  WorkflowStorage.serializeEntry entry = Done written ->
  validDate (completedAtOf entry) ->
  let parsed := fromJson (default JsonNull (toJson written)) in
  exists restored,
    WorkflowStorage.deserializeEntry platform parsed = Done restored
    /\ WorkflowStorage.serializeEntry restored = Done parsed
    /\ completedAtOf restored = completedAtOf entry
    /\ restoredEntry entry restored
    /\ completedAtOf parsed = isoText (completedAtOf entry).
Proof.
  intros Hser Hvalid.
  destruct (serializeEntry_Done _ _ Hser) as (props & t & -> & Hc & ->).
  simpl in Hvalid. rewrite Hc in Hvalid. simpl in Hvalid.
  destruct (parsed_setProp props "completedAt" (JString (toISOString t))
              (JsonString (toISOString t)) eq_refl) as [Hget Hset].
  cbn [fromJson] in Hget, Hset.
  set (parsedProps :=
         fromMembers (jsonMembers (setProp props "completedAt" (JString (toISOString t)))))
    in *.
  assert (Hparsed :
    fromJson (default JsonNull
                (toJson (JObject (setProp props "completedAt" (JString (toISOString t))))))
    = JObject parsedProps) by reflexivity.
  cbv zeta. rewrite Hparsed.
  exists (JObject (setProp parsedProps "completedAt" (JDate (Some t)))).
  split; [|split; [|split; [|split]]].
  - unfold WorkflowStorage.deserializeEntry. rewrite Hget.
    cbn [newDate]. rewrite Date_parse_toISOString by exact Hvalid. reflexivity.
  - unfold WorkflowStorage.serializeEntry. rewrite getProp_setProp, setProp_setProp, Hset.
    reflexivity.
  - cbn [completedAtOf]. rewrite getProp_setProp. symmetry. exact Hc.
  - cbn [restoredEntry]. split.
    + rewrite getProp_setProp. symmetry. exact Hc.
    + intros k j Hk. subst parsedProps. apply getProp_restored_entry; assumption.
  - cbn [completedAtOf]. rewrite Hc. exact Hget.
Qed.

Lemma entries_roundtrip platform entries written :
  mapRun WorkflowStorage.serializeEntry entries = Done written ->
  (forall v, In v (List.map completedAtOf entries) -> validDate v) ->
  let parsed := List.map fromJson (List.map (fun e => default JsonNull (toJson e)) written) in
  exists restored,
    mapRun (WorkflowStorage.deserializeEntry platform) parsed = Done restored
    /\ mapRun WorkflowStorage.serializeEntry restored = Done parsed
    /\ List.map completedAtOf restored = List.map completedAtOf entries
    /\ List.Forall2 restoredEntry entries restored
    /\ List.map completedAtOf parsed = List.map isoText (List.map completedAtOf entries).
Proof.
  revert written. induction entries as [|entry entries IH]; intros written Hser Hvalid.
  - cbn [mapRun] in Hser. apply Done_inj in Hser. subst written.
    exists []. repeat split. constructor.
  - destruct (mapRun_cons_Done _ _ _ _ Hser) as (w & ws & Hw & Hws & ->).
    destruct (entry_roundtrip platform entry w Hw) as (r & Hr1 & Hr2 & Hr3 & Hr4 & Hr5).
    { apply Hvalid. left. reflexivity. }
    destruct (IH ws Hws) as (rs & Hrs1 & Hrs2 & Hrs3 & Hrs4 & Hrs5).
    { intros v Hv. apply Hvalid. right. exact Hv. }
    cbv zeta in *. exists (r :: rs). cbn [List.map mapRun].
    rewrite Hr1, Hrs1, Hr2, Hrs2. cbn [bindRun].
    split; [reflexivity|split; [reflexivity|split; [|split]]].
    + f_equal; assumption.
    + constructor; assumption.
    + f_equal; assumption.
Qed.

Lemma serialize_without_history platform state :
  List.NoDup (List.map fst state) ->
  let x := JsonObject (jsonMembers (setProp state "history" JUndefined)) in
  (exists restored,
    WorkflowStorage.deserialize platform x = Done restored
    /\ WorkflowStorage.serialize restored = Done x
    /\ historyInstants restored = []
    /\ historyEntries restored = []
    /\ forall k j, k <> "history" -> getProp state k = fromJson j ->
                   getProp restored k = fromJson j)
  /\ historyInstants (parsedObject x) = [].
Proof.
  intros Hnd x. subst x.
  pose proof (parsed_setProp_undefined state "history" JUndefined Hnd eq_refl) as Hkey.
  set (members := jsonMembers (setProp state "history" JUndefined)) in *.
  set (parsed := fromMembers members) in *.
  assert (Hparsed : fromJson (JsonObject members) = JObject parsed) by reflexivity.
  split.
  - exists (setProp parsed "history" JUndefined). split; [|split; [|split; [|split]]].
    + unfold WorkflowStorage.deserialize. rewrite Hparsed.
      rewrite (getProp_absent parsed "history" Hkey). reflexivity.
    + unfold WorkflowStorage.serialize. rewrite getProp_setProp. cbn [bindRun].
      rewrite setProp_setProp.
      rewrite (setProp_absent parsed "history" JUndefined Hkey), jsonMembers_app.
      subst parsed. rewrite jsonMembers_fromMembers. cbn. rewrite app_nil_r. reflexivity.
    + unfold historyInstants. rewrite getProp_setProp. reflexivity.
    + unfold historyEntries. rewrite getProp_setProp. reflexivity.
    + intros k j Hne Hk. subst parsed members. apply getProp_restored; assumption.
  - unfold parsedObject. rewrite Hparsed. unfold historyInstants.
    rewrite (getProp_absent parsed "history" Hkey). reflexivity.
Qed.

(** C7 (as the code has it).  For a state object that [serialize] writes
    as [x], [deserialize x] returns and serializing its result writes [x]
    again.  Every property of the state that holds a plain JSON value, the
    data mapping among them, is restored as it was; the restored history
    has the entries of the original, each with its plain JSON properties as
    they were and with its completion timestamp as a Date of the identical
    instant.  In [x] each timestamp is the string [toISOString] writes for
    it, and for timestamps in the years 0 to 9999 these strings are in the
    order of the instants; beyond these years they are not. *)
Theorem serialize_deserialize_roundtrip (platform : Platform)
    (state : list (string * JsValue)) (x : Json) :
  wellFormedState state ->
  WorkflowStorage.serialize state = Done x ->
  (exists restored,
    WorkflowStorage.deserialize platform x = Done restored
    /\ WorkflowStorage.serialize restored = Done x
    /\ historyInstants restored = historyInstants state
    /\ List.Forall2 restoredEntry (historyEntries state) (historyEntries restored)
    /\ forall k j, k <> "history" -> getProp state k = fromJson j ->
                   getProp restored k = fromJson j)
  /\ historyInstants (parsedObject x) = List.map isoText (historyInstants state)
  /\ (forall t1 t2,
        0 <= yearOf t1 <= 9999 -> 0 <= yearOf t2 <= 9999 ->
        String.compare (toISOString t1) (toISOString t2) = (t1 ?= t2)).
Proof.
  intros [Hnd Hvalid] Hser.
  split; [|split; [|intros t1 t2; apply toISOString_order]];
    unfold WorkflowStorage.serialize in Hser;
    unfold historyInstants, historyEntries in *;
    destruct (getProp state "history") as [| | | | | | |entries|] eqn:Hh;
    try discriminate Hser.
  - cbn [bindRun] in Hser. apply Done_inj in Hser. subst x.
    destruct (serialize_without_history platform state Hnd)
      as [(restored & H1 & H2 & H3 & H4 & H5) _].
    exists restored. unfold historyInstants, historyEntries in H3, H4.
    rewrite H3, H4. repeat split; try assumption. constructor.
  - cbn [bindRun] in Hser. apply Done_inj in Hser. subst x.
    destruct (serialize_without_history platform state Hnd)
      as [(restored & H1 & H2 & H3 & H4 & H5) _].
    exists restored. unfold historyInstants, historyEntries in H3, H4.
    rewrite H3, H4. repeat split; try assumption. constructor.
  - destruct (bindRun_Done _ _ _ Hser) as (history & Hhistory & Hdoc).
    destruct (bindRun_Done _ _ _ Hhistory) as (written & Hwritten & Hh').
    apply Done_inj in Hh'. subst history.
    apply Done_inj in Hdoc. subst x.
    destruct (entries_roundtrip platform entries written Hwritten Hvalid)
      as (restoredEntries & Hde & Hre & Hinst & Hsame & _).
    cbv zeta in Hde, Hre.
    set (parsedEntries :=
           List.map fromJson (List.map (fun e => default JsonNull (toJson e)) written)) in *.
    destruct (parsed_setProp state "history" (JArray written)
                (JsonArray (List.map (fun e => default JsonNull (toJson e)) written))
                eq_refl) as [Hget Hset].
    cbn [fromJson] in Hget, Hset. fold parsedEntries in Hget, Hset.
    set (members := jsonMembers (setProp state "history" (JArray written))) in *.
    set (parsed := fromMembers members) in *.
    assert (Hparsed : fromJson (JsonObject members) = JObject parsed) by reflexivity.
    exists (setProp parsed "history" (JArray restoredEntries)).
    split; [|split; [|split; [|split]]].
    + unfold WorkflowStorage.deserialize. rewrite Hparsed, Hget, Hde. reflexivity.
    + unfold WorkflowStorage.serialize. rewrite getProp_setProp, Hre. cbn [bindRun].
      rewrite setProp_setProp, Hset.
      subst parsed. rewrite jsonMembers_fromMembers. reflexivity.
    + rewrite getProp_setProp. exact Hinst.
    + rewrite getProp_setProp. exact Hsame.
    + intros k j Hne Hk. subst parsed members. apply getProp_restored; assumption.
  - cbn [bindRun] in Hser. apply Done_inj in Hser. subst x.
    destruct (serialize_without_history platform state Hnd) as [_ H].
    unfold historyInstants in H. exact H.
  - cbn [bindRun] in Hser. apply Done_inj in Hser. subst x.
    destruct (serialize_without_history platform state Hnd) as [_ H].
    unfold historyInstants in H. exact H.
  - destruct (bindRun_Done _ _ _ Hser) as (history & Hhistory & Hdoc).
    destruct (bindRun_Done _ _ _ Hhistory) as (written & Hwritten & Hh').
    apply Done_inj in Hh'. subst history.
    apply Done_inj in Hdoc. subst x.
    destruct (entries_roundtrip platform entries written Hwritten Hvalid)
      as (_ & _ & _ & _ & _ & Htext).
    cbv zeta in Htext.
    destruct (parsed_setProp state "history" (JArray written)
                (JsonArray (List.map (fun e => default JsonNull (toJson e)) written))
                eq_refl) as [Hget _].
    cbn [fromJson] in Hget.
    unfold parsedObject. cbn [fromJson]. fold (fromMembers
      (jsonMembers (setProp state "history" (JArray written)))).
    rewrite Hget. exact Htext.
Qed.

Lemma serialize_deserialize_roundtrip_witness :
  (exists restored,
    WorkflowStorage.deserialize strictPlatform sampleDocument = Done restored
    /\ WorkflowStorage.serialize restored = Done sampleDocument
    /\ historyInstants restored = historyInstants sampleState
    /\ List.Forall2 restoredEntry (historyEntries sampleState) (historyEntries restored)
    /\ forall k j, k <> "history" -> getProp sampleState k = fromJson j ->
                   getProp restored k = fromJson j)
  /\ historyInstants (parsedObject sampleDocument)
     = List.map isoText (historyInstants sampleState)
  /\ (forall t1 t2,
        0 <= yearOf t1 <= 9999 -> 0 <= yearOf t2 <= 9999 ->
        String.compare (toISOString t1) (toISOString t2) = (t1 ?= t2)).
Proof.
  apply (serialize_deserialize_roundtrip strictPlatform sampleState sampleDocument).
  - split.
    + repeat constructor; simpl; intuition discriminate.
    + intros v Hv. simpl in Hv. destruct Hv as [<-|[]]. unfold validDate, maxTime. lia.
  - vm_compute. reflexivity.
Defined.

(** The order of the stored strings is not that of the instants beyond the
    year 9999: the year 10000 is written with a sign, which sorts before
    every digit.  [distantState] is well formed and [serialize] writes it,
    its second step was completed after its first, and the timestamp
    stored for the second sorts before the one stored for the first. *)
Lemma iso_text_order_fails_beyond_year_9999 :
  wellFormedState distantState
  /\ historyInstants distantState = [JDate (Some 0); JDate (Some 253402300800000)]
  /\ (0 ?= 253402300800000) = Lt
  /\ (exists x,
        WorkflowStorage.serialize distantState = Done x
        /\ historyInstants (parsedObject x)
           = [JString "1970-01-01T00:00:00.000Z"; JString "+010000-01-01T00:00:00.000Z"])
  /\ String.compare "1970-01-01T00:00:00.000Z" "+010000-01-01T00:00:00.000Z" = Gt.
Proof.
  split; [|split; [reflexivity|split; [reflexivity|split; [|reflexivity]]]].
  - split.
    + repeat constructor; simpl; intuition discriminate.
    + intros v Hv. simpl in Hv. unfold validDate, maxTime.
      destruct Hv as [<-|[<-|[]]]; lia.
  - eexists. split; vm_compute; reflexivity.
Qed.

(** ** Further properties of the engine *)

Lemma completedEvents_app tr1 tr2 :
  completedEvents (tr1 ++ tr2) = (completedEvents tr1 + completedEvents tr2)%nat.
Proof. unfold completedEvents. rewrite List.filter_app, length_app. reflexivity. Qed.

Lemma completedEvents_invoke h workflowId currentStep :
  completedEvents (invoke h workflowId currentStep) = 0%nat.
Proof. destruct h; reflexivity. Qed.

(** When every required step other than the one being completed is
    already completed in the workflow the call holds, [completeStep] ends
    the workflow: its trace is the completion of the step, one
    [WORKFLOW_COMPLETED], the workflow's [onComplete] and [STOP_WORKFLOW],
    and the store it leaves has no active workflow. *)
Theorem completeStep_ends_workflow (fuel : nat) (now : Z) (state : WorkflowState)
    (active : WorkflowDefinition) (stepId : string) (d : option JsValue)
    (step : WorkflowStep) :
  activeWorkflow state = Some active ->
  List.find (hasId stepId) (Workflow.steps active) = Some step ->
  (forall s, In s (Workflow.steps active) -> Step.required s = true ->
             Step.completed s = true \/ Step.id s = stepId) ->
  completeStep fuel state stepId d
  = Done (completionEffects active step stepId d
          ++ [ Emit {| ev_type := WORKFLOW_COMPLETED;
                       ev_workflowId := Workflow.id active;
                       ev_stepId := None;
                       ev_data := None |} ]
          ++ invoke (Workflow.onComplete active) (Workflow.id active) None
          ++ [ Dispatch STOP_WORKFLOW ])
  /\ completedEvents (effectsOf (completeStep fuel state stepId d)) = 1%nat
  /\ storeAfter now state (completeStep fuel state stepId d)
     = {| activeWorkflow := None;
          currentStepId := None;
          paused := false;
          history := history state
                     ++ [ {| he_workflowId := Workflow.id active;
                             he_stepId := stepId;
                             completedAt := now;
                             he_data := d |} ];
          data := data state |}.
Proof.
  intros Hactive Hfind Hreq.
  assert (Hall : List.forallb
                   (fun s => Step.completed s || String.eqb (Step.id s) stepId)
                   (List.filter Step.required (Workflow.steps active)) = true).
  { apply forallb_forall. intros s Hs. apply filter_In in Hs. destruct Hs as [Hin Hr].
    destruct (Hreq s Hin Hr) as [Hc|Hid]; [rewrite Hc; reflexivity|].
    apply String.eqb_eq in Hid. rewrite Hid. apply orb_true_r. }
  assert (Hrun : completeStep fuel state stepId d
                 = Done (completionEffects active step stepId d
                         ++ [ Emit {| ev_type := WORKFLOW_COMPLETED;
                                      ev_workflowId := Workflow.id active;
                                      ev_stepId := None;
                                      ev_data := None |} ]
                         ++ invoke (Workflow.onComplete active) (Workflow.id active) None
                         ++ [ Dispatch STOP_WORKFLOW ])).
  { rewrite completeStep_eq, Hactive, Hfind, Hall. reflexivity. }
  split; [exact Hrun|]. rewrite Hrun. unfold storeAfter, effectsOf. split.
  - unfold completionEffects.
    rewrite !completedEvents_app, !completedEvents_invoke. reflexivity.
  - unfold completionEffects.
    rewrite !applyEffects_app, !applyEffects_invoke. unfold applyEffects. simpl.
    rewrite Hactive. reflexivity.
Qed.

Lemma completeStep_ends_workflow_witness :
  completedEvents
    (effectsOf (completeStep 3 (activeState autoWorkflow (Some "sync")) "sync" None))
  = 0%nat
  /\ completedEvents
       (effectsOf
          (completeStep 3
             (activeState (withSteps linearWorkflow
                             [ markCompleted (screenStep "step-1" "S1" true []);
                               screenStep "step-2" "S2" true [] ])
                          (Some "step-2"))
             "step-2" None))
     = 1%nat.
Proof.
  split; [reflexivity|].
  apply (completeStep_ends_workflow 3 0
           (activeState (withSteps linearWorkflow
                           [ markCompleted (screenStep "step-1" "S1" true []);
                             screenStep "step-2" "S2" true [] ])
                        (Some "step-2"))
           (withSteps linearWorkflow
              [ markCompleted (screenStep "step-1" "S1" true []);
                screenStep "step-2" "S2" true [] ])
           "step-2" None (screenStep "step-2" "S2" true [])).
  - reflexivity.
  - reflexivity.
  - simpl. intros s [<-|[<-|[]]] _; [left|right]; reflexivity.
Defined.

(** With distinct step ids every [completeStep] returns: fuel equal to the
    number of steps is enough for the chain of automatic completions. *)
Theorem completeStep_returns_with_distinct_ids (state : WorkflowState)
    (active : WorkflowDefinition) (stepId : string) (d : option JsValue) :
  activeWorkflow state = Some active ->
  List.NoDup (List.map Step.id (Workflow.steps active)) ->
  exists tr, completeStep (length (Workflow.steps active)) state stepId d = Done tr.
Proof.
  intros Hactive Hnd. apply (completeStep_total state active); [assumption..|lia].
Qed.

Lemma completeStep_returns_with_distinct_ids_witness :
  exists tr, completeStep 3 (activeState detourWorkflow None) "first" None = Done tr.
Proof.
  apply (completeStep_returns_with_distinct_ids (activeState detourWorkflow None)
           detourWorkflow "first" None).
  - reflexivity.
  - repeat constructor; simpl; intuition discriminate.
Defined.

Lemma findNextStep_In workflow stepId next :
  findNextStep workflow stepId = Some next -> In next (Workflow.steps workflow).
Proof.
  intros H. destruct (findNextStep_position _ _ _ H) as (pre & post & -> & _).
  apply in_or_app. right. left. reflexivity.
Qed.

Lemma find_hasId_In (ss : list WorkflowStep) s :
  In s ss -> exists s', List.find (hasId (Step.id s)) ss = Some s'.
Proof.
  intros Hin. destruct (List.find (hasId (Step.id s)) ss) as [s'|] eqn:E;
    [eexists; reflexivity|].
  pose proof (find_none_all _ _ E s Hin) as H. apply hasId_false in H. congruence.
Qed.

(** Every trace of [completeStep] on a step of the active workflow is a
    chain. *)
Lemma completeStep_chain state active :
  activeWorkflow state = Some active ->
  forall fuel stepId d step tr,
    List.find (hasId stepId) (Workflow.steps active) = Some step ->
    completeStep fuel state stepId d = Done tr ->
    Chain state active stepId d tr.
Proof.
  intros Hactive. induction fuel as [|fuel IH]; intros stepId d step tr Hfind;
    rewrite completeStep_eq, Hactive, Hfind;
    fold (allRequiredStepsComplete active stepId);
    destruct (allRequiredStepsComplete active stepId) eqn:Hall.
  - intros H. apply Done_inj in H. subst tr. apply ChainEnds; assumption.
  - destruct (findNextStep active stepId) as [next|] eqn:Hnext.
    + intros H. destruct (andThen_Done _ _ _ H) as (rest & Hrest & ->).
      rewrite executeStep_eq, Hactive in Hrest.
      destruct (completesOnActivation state next) eqn:Hauto.
      * destruct (andThen_Done _ _ _ Hrest) as (rest' & Hrest' & _). discriminate.
      * apply Done_inj in Hrest. subst rest. eapply ChainActivates; eassumption.
    + intros H. apply Done_inj in H. subst tr. eapply ChainStalls; eassumption.
  - intros H. apply Done_inj in H. subst tr. apply ChainEnds; assumption.
  - destruct (findNextStep active stepId) as [next|] eqn:Hnext.
    + intros H. destruct (andThen_Done _ _ _ H) as (rest & Hrest & ->).
      rewrite executeStep_eq, Hactive in Hrest.
      destruct (completesOnActivation state next) eqn:Hauto.
      * destruct (andThen_Done _ _ _ Hrest) as (rest' & Hrest' & ->).
        destruct (find_hasId_In _ next (findNextStep_In _ _ _ Hnext))
          as (step' & Hstep').
        eapply ChainGoesOn; try eassumption. eapply IH; eassumption.
      * apply Done_inj in Hrest. subst rest. eapply ChainActivates; eassumption.
    + intros H. apply Done_inj in H. subst tr. eapply ChainStalls; eassumption.
Qed.

(** ** The reducer over a trace *)

Lemma applyEffects_cons now state e tr :
  applyEffects now state (e :: tr) = applyEffects now (reduceEffect now state e) tr.
Proof. reflexivity. Qed.

Lemma history_after_trace now state tr :
  history (applyEffects now state tr) = history state ++ historyAdds now tr.
Proof.
  revert state. induction tr as [|e tr IH]; intros state.
  - simpl. rewrite app_nil_r. reflexivity.
  - rewrite applyEffects_cons, IH. unfold historyAdds. cbn [flat_map].
    rewrite app_assoc. f_equal.
    destruct e as [a| | |]; try (simpl; rewrite app_nil_r; reflexivity).
    destruct a; simpl; rewrite ?app_nil_r; try reflexivity.
    destruct (activeWorkflow state); simpl; rewrite ?app_nil_r; reflexivity.
Qed.

(** The history log is append-only: whatever is dispatched, the entries
    already recorded stay in place, in order, and each [ADD_HISTORY_ENTRY]
    adds one entry after them; stopping or restarting a workflow does not
    clear the log. *)
Theorem history_append_only (now : Z) (state : WorkflowState) (tr : list Effect) :
  history (applyEffects now state tr) = history state ++ historyAdds now tr
  /\ history (applyEffects now state (stopWorkflow state)) = history state.
Proof.
  split; [apply history_after_trace|].
  rewrite history_after_trace. unfold stopWorkflow.
  destruct (activeWorkflow state) as [active|]; simpl;
    [destruct (Workflow.onCancel active); simpl|]; apply app_nil_r.
Qed.

Lemma data_kept now state tr :
  List.forallb (fun e => negb (writesData e)) tr = true ->
  data (applyEffects now state tr) = data state.
Proof.
  revert state. induction tr as [|e tr IH]; intros state H; [reflexivity|].
  cbn [List.forallb] in H. apply andb_true_iff in H. destruct H as [He Htr].
  rewrite applyEffects_cons, IH by exact Htr.
  destruct e as [a| | |]; try reflexivity.
  destruct a; try reflexivity; try discriminate He.
  simpl. destruct (activeWorkflow state); reflexivity.
Qed.

Lemma markCompleted_idem s : markCompleted (markCompleted s) = markCompleted s.
Proof. reflexivity. Qed.

Lemma advanced_trans s1 s2 s3 : advanced s1 s2 -> advanced s2 s3 -> advanced s1 s3.
Proof.
  unfold advanced. intros [->| ->] [->| ->]; auto.
Qed.

Lemma progressed_refl w : progressed w w.
Proof.
  split; [destruct w; reflexivity|].
  induction (Workflow.steps w); constructor; [left; reflexivity|assumption].
Qed.

Lemma Forall2_advanced_trans l1 l2 l3 :
  Forall2 advanced l1 l2 -> Forall2 advanced l2 l3 -> Forall2 advanced l1 l3.
Proof.
  intros H12. revert l3. induction H12 as [|a b l1 l2 Hab H12 IH]; intros l3 H23.
  - inversion H23. constructor.
  - inversion H23 as [|b' c l2' l3' Hbc H23']; subst. constructor.
    + eapply advanced_trans; eassumption.
    + apply IH, H23'.
Qed.

Lemma progressed_trans w1 w2 w3 : progressed w1 w2 -> progressed w2 w3 -> progressed w1 w3.
Proof.
  intros [E12 F12] [E23 F23]. split.
  - rewrite E23. rewrite E12 at 1. reflexivity.
  - eapply Forall2_advanced_trans; eassumption.
Qed.

Lemma progressed_COMPLETE_STEP w stepId :
  progressed w
    (withSteps w
       (List.map (fun step => if String.eqb (Step.id step) stepId
                              then markCompleted step else step)
                 (Workflow.steps w))).
Proof.
  split; [reflexivity|]. simpl.
  induction (Workflow.steps w) as [|s ss IH]; simpl; constructor; [|exact IH].
  destruct (String.eqb (Step.id s) stepId); [right|left]; reflexivity.
Qed.

(** Completion is monotonic.  As long as a trace neither starts nor stops
    a workflow, the active workflow stays the same definition with the same
    steps in the same order, and each step is as it was or has been marked
    completed: no flag goes back to false. *)
Theorem completion_is_monotonic (now : Z) (state : WorkflowState)
    (w : WorkflowDefinition) (tr : list Effect) :
  activeWorkflow state = Some w ->
  List.forallb (fun e => negb (switchesWorkflow e)) tr = true ->
  exists w', activeWorkflow (applyEffects now state tr) = Some w' /\ progressed w w'.
Proof.
  revert state w. induction tr as [|e tr IH]; intros state w Hw H.
  - exists w. split; [exact Hw|apply progressed_refl].
  - cbn [List.forallb] in H. apply andb_true_iff in H. destruct H as [He Htr].
    rewrite applyEffects_cons.
    assert (Hstep : exists w1, activeWorkflow (reduceEffect now state e) = Some w1
                               /\ progressed w w1).
    { destruct e as [a| | |]; try (exists w; split; [exact Hw|apply progressed_refl]).
      destruct a; try discriminate He;
        try (exists w; split; [exact Hw|apply progressed_refl]).
      simpl. rewrite Hw. eexists. split; [reflexivity|apply progressed_COMPLETE_STEP]. }
    destruct Hstep as (w1 & Hw1 & P1).
    destruct (IH _ w1 Hw1 Htr) as (w' & Hw' & P').
    exists w'. split; [exact Hw'|]. eapply progressed_trans; eassumption.
Qed.
Lemma completion_is_monotonic_witness :
  exists w',
    activeWorkflow
      (applyEffects 0 (activeState detourWorkflow None)
         (effectsOf (completeStep 3 (activeState detourWorkflow None) "first" None)))
    = Some w'
    /\ progressed detourWorkflow w'.
Proof.
  apply (completion_is_monotonic 0 (activeState detourWorkflow None) detourWorkflow
           (effectsOf (completeStep 3 (activeState detourWorkflow None) "first" None)));
    reflexivity.
Defined.


(** ** The chain of automatic completions *)

Lemma completions_app tr1 tr2 : completions (tr1 ++ tr2) = completions tr1 ++ completions tr2.
Proof. apply flat_map_app. Qed.

Lemma activations_app tr1 tr2 : activations (tr1 ++ tr2) = activations tr1 ++ activations tr2.
Proof. apply flat_map_app. Qed.

Lemma historyAdds_app now tr1 tr2 :
  historyAdds now (tr1 ++ tr2) = historyAdds now tr1 ++ historyAdds now tr2.
Proof. apply flat_map_app. Qed.

Lemma invoke_silent h w c :
  completions (invoke h w c) = [] /\ activations (invoke h w c) = []
  /\ (forall now, historyAdds now (invoke h w c) = [])
  /\ List.forallb (fun e => negb (writesData e)) (invoke h w c) = true
  /\ List.forallb (fun e => negb (switchesWorkflow e)) (invoke h w c) = true.
Proof. destruct h; repeat split. Qed.

Lemma completionEffects_facts active step stepId d :
  completions (completionEffects active step stepId d) = [(stepId, d)]
  /\ activations (completionEffects active step stepId d) = []
  /\ (forall now, historyAdds now (completionEffects active step stepId d)
                  = [ {| he_workflowId := Workflow.id active; he_stepId := stepId;
                         completedAt := now; he_data := d |} ])
  /\ List.forallb (fun e => negb (writesData e)) (completionEffects active step stepId d) = true
  /\ List.forallb (fun e => negb (switchesWorkflow e))
       (completionEffects active step stepId d) = true
  /\ completedEvents (completionEffects active step stepId d) = 0%nat.
Proof.
  unfold completionEffects.
  destruct (invoke_silent (Step.onComplete step) (Workflow.id active) (Some (Step.id step)))
    as (Hc & Ha & Hh & Hd & Hs).
  rewrite completions_app, activations_app, !forallb_app, completedEvents_app,
    completedEvents_invoke, Hc, Ha, Hd, Hs.
  repeat split. intros now. rewrite historyAdds_app, Hh. reflexivity.
Qed.

Lemma activationEffects_facts active step :
  completions (activationEffects active step) = []
  /\ activations (activationEffects active step) = [Step.id step]
  /\ (forall now, historyAdds now (activationEffects active step) = [])
  /\ List.forallb (fun e => negb (writesData e)) (activationEffects active step) = true
  /\ List.forallb (fun e => negb (switchesWorkflow e)) (activationEffects active step) = true
  /\ completedEvents (activationEffects active step) = 0%nat.
Proof.
  unfold activationEffects.
  destruct (invoke_silent (Step.onActivate step) (Workflow.id active) (Some (Step.id step)))
    as (Hc & Ha & Hh & Hd & Hs).
  rewrite !completions_app, !activations_app, !forallb_app, !completedEvents_app,
    completedEvents_invoke, Hc, Ha, Hd, Hs.
  destruct (negb (Step.headless step) && truthy (Step.screen step));
    repeat split; intros now; rewrite !historyAdds_app, Hh; reflexivity.
Qed.

(** What a chain dispatches: it never writes the data mapping, and it adds
    to the history one entry per completion. *)
Lemma chain_frame state active stepId d tr :
  Chain state active stepId d tr ->
  List.forallb (fun e => negb (writesData e)) tr = true
  /\ forall now,
       historyAdds now tr
       = List.map (fun c => {| he_workflowId := Workflow.id active; he_stepId := fst c;
                               completedAt := now; he_data := snd c |})
                  (completions tr).
Proof.
  induction 1 as [stepId d step Hfind Hall
                 |stepId d step Hfind Hall Hnext
                 |stepId d step next Hfind Hall Hnext Hauto
                 |stepId d step next rest Hfind Hall Hnext Hauto Hrest [IHd IHh]];
    destruct (completionEffects_facts active step stepId d) as (Cc & _ & Ch & Cd & _).
  - destruct (invoke_silent (Workflow.onComplete active) (Workflow.id active) None)
      as (Ic & _ & Ih & Id & _).
    rewrite !forallb_app, Cd, Id. split; [reflexivity|]. intros now.
    rewrite !historyAdds_app, !completions_app, Ch, Cc, Ih, Ic. reflexivity.
  - split; [exact Cd|]. intros now. rewrite Ch, Cc. reflexivity.
  - destruct (activationEffects_facts active next) as (Ac & _ & Ah & Ad & _).
    rewrite forallb_app, Cd, Ad. split; [reflexivity|]. intros now.
    rewrite historyAdds_app, completions_app, Ch, Cc, Ah, Ac. reflexivity.
  - destruct (activationEffects_facts active next) as (Ac & _ & Ah & Ad & _).
    rewrite !forallb_app, Cd, Ad, IHd. split; [reflexivity|]. intros now.
    rewrite !historyAdds_app, !completions_app, Ch, Cc, Ah, Ac, IHh. reflexivity.
Qed.

(** [completeStep] and [skipToStep] never write the data mapping, and they
    append to the history exactly one entry per step they complete, in the
    order of completion, stamped with the id of the active workflow. *)
Theorem engine_calls_keep_data_and_log_completions (fuel : nat) (now : Z)
    (state : WorkflowState) (active : WorkflowDefinition) (stepId : string)
    (d : option JsValue) :
  activeWorkflow state = Some active ->
  (forall tr,
      completeStep fuel state stepId d = Done tr ->
      data (applyEffects now state tr) = data state
      /\ history (applyEffects now state tr)
         = history state
           ++ List.map (fun c => {| he_workflowId := Workflow.id active; he_stepId := fst c;
                                    completedAt := now; he_data := snd c |})
                       (completions tr))
  /\ (forall tr,
        skipToStep fuel state stepId = Done tr ->
        data (applyEffects now state tr) = data state
        /\ history (applyEffects now state tr)
           = history state
             ++ List.map (fun c => {| he_workflowId := Workflow.id active; he_stepId := fst c;
                                      completedAt := now; he_data := snd c |})
                         (completions tr)).
Proof.
  intros Hactive. split.
  - intros tr Hrun. rewrite history_after_trace.
    destruct (List.find (hasId stepId) (Workflow.steps active)) as [step|] eqn:Hfind.
    + destruct (chain_frame _ _ _ _ _ (completeStep_chain state active Hactive _ _ _ _ _ Hfind Hrun))
        as [Hd Hh].
      rewrite data_kept by exact Hd. rewrite Hh. split; reflexivity.
    + rewrite completeStep_eq, Hactive, Hfind in Hrun. apply Done_inj in Hrun. subst tr.
      split; reflexivity.
  - intros tr Hrun. rewrite history_after_trace. unfold skipToStep in Hrun.
    rewrite Hactive in Hrun.
    destruct (List.find (hasId stepId) (Workflow.steps active)) as [step|] eqn:Hfind.
    + rewrite executeStep_eq, Hactive in Hrun.
      destruct (activationEffects_facts active step) as (Ac & _ & Ah & Ad & _).
      destruct (completesOnActivation state step).
      * destruct (andThen_Done _ _ _ Hrun) as (rest & Hrest & ->).
        destruct fuel as [|fuel]; [discriminate|].
        assert (Hid : Step.id step = stepId).
        { destruct (find_first _ _ _ Hfind) as (_ & _ & _ & Hid & _).
          apply hasId_true, Hid. }
        rewrite Hid in Hrest.
        destruct (chain_frame _ _ _ _ _
                    (completeStep_chain state active Hactive _ _ _ _ _ Hfind Hrest))
          as [Hd Hh].
        rewrite data_kept by (rewrite forallb_app, Ad, Hd; reflexivity).
        rewrite historyAdds_app, completions_app, Ah, Ac, Hh. split; reflexivity.
      * apply Done_inj in Hrun. subst tr. rewrite data_kept by exact Ad.
        rewrite Ah, Ac. split; reflexivity.
    + apply Done_inj in Hrun. subst tr. split; reflexivity.
Qed.
Lemma engine_calls_keep_data_and_log_completions_witness :
  data (applyEffects 7 (activeState detourWorkflow None)
          (effectsOf (completeStep 3 (activeState detourWorkflow None) "first" None)))
  = ∅
  /\ history (applyEffects 7 (activeState detourWorkflow None)
                (effectsOf (completeStep 3 (activeState detourWorkflow None) "first" None)))
     = [ {| he_workflowId := "detour"; he_stepId := "first";
            completedAt := 7; he_data := None |};
         {| he_workflowId := "detour"; he_stepId := "check";
            completedAt := 7; he_data := None |} ].
Proof.
  destruct (engine_calls_keep_data_and_log_completions 3 7
              (activeState detourWorkflow None) detourWorkflow "first" None eq_refl)
    as [H _].
  apply (H (effectsOf (completeStep 3 (activeState detourWorkflow None) "first" None))).
  reflexivity.
Defined.


(** ** One call ends the workflow at most once *)

Lemma active_kept now state tr :
  List.forallb (fun e => negb (switchesWorkflow e)) tr = true ->
  activeWorkflow state <> None ->
  activeWorkflow (applyEffects now state tr) <> None.
Proof.
  revert state. induction tr as [|e tr IH]; intros state H Hactive; [exact Hactive|].
  cbn [List.forallb] in H. apply andb_true_iff in H. destruct H as [He Htr].
  rewrite applyEffects_cons. apply IH; [exact Htr|].
  destruct e as [a| | |]; try exact Hactive.
  destruct a; try discriminate He; try exact Hactive.
  simpl. destruct (activeWorkflow state) eqn:E; [discriminate|].
  simpl. rewrite E. exact Hactive.
Qed.

Lemma chain_ends_or_goes_on now state active stepId d tr :
  Chain state active stepId d tr ->
  forall store,
    activeWorkflow store <> None ->
    (completedEvents tr = 1%nat /\ activeWorkflow (applyEffects now store tr) = None)
    \/ (completedEvents tr = 0%nat /\ activeWorkflow (applyEffects now store tr) <> None).
Proof.
  induction 1 as [stepId d step Hfind Hall
                 |stepId d step Hfind Hall Hnext
                 |stepId d step next Hfind Hall Hnext Hauto
                 |stepId d step next rest Hfind Hall Hnext Hauto Hrest IH];
    intros store Hstore;
    destruct (completionEffects_facts active step stepId d) as (_ & _ & _ & _ & Cs & Ce).
  - left. split.
    + rewrite !completedEvents_app, Ce, completedEvents_invoke. reflexivity.
    + rewrite !applyEffects_app, applyEffects_invoke. reflexivity.
  - right. split; [exact Ce|]. apply active_kept; assumption.
  - destruct (activationEffects_facts active next) as (_ & _ & _ & _ & As & Ae).
    right. split.
    + rewrite completedEvents_app, Ce, Ae. reflexivity.
    + apply active_kept; [|exact Hstore]. rewrite forallb_app, Cs, As. reflexivity.
  - destruct (activationEffects_facts active next) as (_ & _ & _ & _ & As & Ae).
    rewrite !completedEvents_app, Ce, Ae, !applyEffects_app.
    apply IH. apply active_kept; [exact As|]. apply active_kept; assumption.
Qed.

(** One call of [completeStep] emits [WORKFLOW_COMPLETED] at most once, and
    it emits it exactly when a workflow was active and the store it leaves
    has none. *)
Theorem workflow_completed_at_most_once (fuel : nat) (now : Z) (state : WorkflowState)
    (stepId : string) (d : option JsValue) (tr : list Effect) :
  completeStep fuel state stepId d = Done tr ->
  (completedEvents tr <= 1)%nat
  /\ (completedEvents tr = 1%nat
      <-> activeWorkflow state <> None
          /\ activeWorkflow (applyEffects now state tr) = None).
Proof.
  intros Hrun.
  destruct (activeWorkflow state) as [active|] eqn:Hactive.
  - destruct (List.find (hasId stepId) (Workflow.steps active)) as [step|] eqn:Hfind.
    + destruct (chain_ends_or_goes_on now _ _ _ _ _
                  (completeStep_chain state active Hactive _ _ _ _ _ Hfind Hrun) state)
        as [[He Hs]|[He Hs]]; try (rewrite Hactive; discriminate);
        rewrite He; (split; [lia|]); split.
      * intros _. split; [discriminate|exact Hs].
      * reflexivity.
      * discriminate.
      * intros [_ Hnone]. contradiction.
    + rewrite completeStep_eq, Hactive, Hfind in Hrun. apply Done_inj in Hrun. subst tr.
      split; [unfold completedEvents; simpl; lia|]. split; [discriminate|].
      intros [_ Hnone]. simpl in Hnone. congruence.
  - rewrite completeStep_eq, Hactive in Hrun. apply Done_inj in Hrun. subst tr.
    split; [unfold completedEvents; simpl; lia|]. split; [discriminate|].
    intros [H _]. contradiction.
Qed.
Lemma workflow_completed_at_most_once_witness :
  (completedEvents
     (effectsOf (completeStep 3 (activeState detourWorkflow None) "first" None)) <= 1)%nat.
Proof.
  apply (workflow_completed_at_most_once 3 0 (activeState detourWorkflow None) "first" None
           (effectsOf (completeStep 3 (activeState detourWorkflow None) "first" None))).
  reflexivity.
Defined.


(** ** Positions along the chain *)

Lemma findIndex_of_step (ss : list WorkflowStep) pre next post :
  List.NoDup (List.map Step.id ss) ->
  ss = pre ++ next :: post ->
  findIndex (hasId (Step.id next)) ss = Z.of_nat (length pre).
Proof. intros Hnd ->. apply findIndex_unique, Hnd. Qed.

Lemma findNextStep_index workflow stepId next :
  List.NoDup (List.map Step.id (Workflow.steps workflow)) ->
  findNextStep workflow stepId = Some next ->
  findIndex (hasId stepId) (Workflow.steps workflow)
  < findIndex (hasId (Step.id next)) (Workflow.steps workflow).
Proof.
  intros Hnd Hnext.
  destruct (findNextStep_position _ _ _ Hnext) as (pre & post & Hs & Hi & _).
  rewrite (findIndex_of_step _ pre next post Hnd Hs). exact Hi.
Qed.

Lemma find_hasId_id (ss : list WorkflowStep) stepId step :
  List.find (hasId stepId) ss = Some step -> In step ss /\ Step.id step = stepId.
Proof.
  intros Hfind. destruct (find_first _ _ _ Hfind) as (pre & post & -> & Hid & _).
  split; [apply in_or_app; right; left; reflexivity|apply hasId_true, Hid].
Qed.

(** With distinct ids, a required step that is not completed and is
    declared before the step a chain starts from keeps the chain from ending
    the workflow. *)
Lemma chain_blocked state active stepId d tr :
  Chain state active stepId d tr ->
  List.NoDup (List.map Step.id (Workflow.steps active)) ->
  forall blocker,
    In blocker (Workflow.steps active) ->
    Step.required blocker = true ->
    Step.completed blocker = false ->
    findIndex (hasId (Step.id blocker)) (Workflow.steps active)
    < findIndex (hasId stepId) (Workflow.steps active) ->
    completedEvents tr = 0%nat
    /\ List.forallb (fun e => negb (switchesWorkflow e)) tr = true.
Proof.
  intros Hchain Hnd blocker Hin Hreq Hinc.
  induction Hchain as [stepId d step Hfind Hall
                      |stepId d step Hfind Hall Hnext
                      |stepId d step next Hfind Hall Hnext Hauto
                      |stepId d step next rest Hfind Hall Hnext Hauto Hrest IH];
    intros Hidx;
    destruct (completionEffects_facts active step stepId d) as (_ & _ & _ & _ & Cs & Ce).
  - exfalso. unfold allRequiredStepsComplete in Hall.
    rewrite forallb_forall in Hall. specialize (Hall blocker).
    rewrite filter_In, Hinc in Hall. simpl in Hall.
    specialize (Hall (conj Hin Hreq)). apply String.eqb_eq in Hall.
    rewrite Hall in Hidx. lia.
  - split; assumption.
  - destruct (activationEffects_facts active next) as (_ & _ & _ & _ & As & Ae).
    rewrite completedEvents_app, forallb_app, Ce, Cs, Ae, As. split; reflexivity.
  - destruct (activationEffects_facts active next) as (_ & _ & _ & _ & As & Ae).
    pose proof (findNextStep_index _ _ _ Hnd Hnext) as Hlt.
    destruct IH as [Ie Is]; [lia|].
    rewrite !completedEvents_app, !forallb_app, Ce, Cs, Ae, As, Ie, Is. split; reflexivity.
Qed.

(** The automatic chain never ends the workflow on behalf of the step the
    call was made for.  When the call completes a required step that the
    workflow it holds has as not completed, and another required step is not
    completed there either, no [WORKFLOW_COMPLETED] is emitted and the
    workflow stays active, whatever the chain of automatic completions
    completes afterwards: the nested calls judge the required steps on the
    same captured workflow, in which the first step is still not
    completed. *)
Theorem automatic_chain_never_ends_workflow (fuel : nat) (now : Z)
    (state : WorkflowState) (active : WorkflowDefinition) (stepId : string)
    (d : option JsValue) (step other : WorkflowStep) (tr : list Effect) :
  activeWorkflow state = Some active ->
  List.NoDup (List.map Step.id (Workflow.steps active)) ->
  List.find (hasId stepId) (Workflow.steps active) = Some step ->
  Step.required step = true ->
  Step.completed step = false ->
  In other (Workflow.steps active) ->
  Step.required other = true ->
  Step.completed other = false ->
  Step.id other <> stepId ->
  completeStep fuel state stepId d = Done tr ->
  completedEvents tr = 0%nat
  /\ activeWorkflow (applyEffects now state tr) <> None.
Proof.
  intros Hactive Hnd Hfind Hreq Hinc Hother Hreq' Hinc' Hne Hrun.
  assert (Hall : allRequiredStepsComplete active stepId = false).
  { apply not_true_is_false. intros Hall. unfold allRequiredStepsComplete in Hall.
    rewrite forallb_forall in Hall. specialize (Hall other).
    rewrite filter_In, Hinc' in Hall. simpl in Hall.
    specialize (Hall (conj Hother Hreq')). apply String.eqb_eq in Hall. contradiction. }
  destruct (find_hasId_id _ _ _ Hfind) as [Hin Hid].
  assert (H : completedEvents tr = 0%nat
              /\ List.forallb (fun e => negb (switchesWorkflow e)) tr = true).
  { pose proof (completeStep_chain state active Hactive _ _ _ _ _ Hfind Hrun) as Hchain.
    destruct (completionEffects_facts active step stepId d) as (_ & _ & _ & _ & Cs & Ce).
    inversion Hchain as [sid d' step' Hfind' Hall'
                        |sid d' step' Hfind' Hall' Hnext
                        |sid d' step' next Hfind' Hall' Hnext Hauto
                        |sid d' step' next rest Hfind' Hall' Hnext Hauto Hrest]; subst;
      rewrite Hfind in Hfind'; injection Hfind' as <-.
    - congruence.
    - split; assumption.
    - destruct (activationEffects_facts active next) as (_ & _ & _ & _ & As & Ae).
      rewrite completedEvents_app, forallb_app, Ce, Cs, Ae, As. split; reflexivity.
    - destruct (activationEffects_facts active next) as (_ & _ & _ & _ & As & Ae).
      destruct (chain_blocked _ _ _ _ _ Hrest Hnd step Hin Hreq Hinc) as [Ie Is].
      { apply findNextStep_index; assumption. }
      rewrite !completedEvents_app, !forallb_app, Ce, Cs, Ae, As, Ie, Is.
      split; reflexivity. }
  destruct H as [He Hs]. split; [exact He|].
  apply active_kept; [exact Hs|]. rewrite Hactive. discriminate.
Qed.
(** In [autoWorkflow] the call that completes ["form"] completes ["sync"]
    as well, and the workflow stays active with every required step
    completed. *)
Lemma automatic_chain_never_ends_workflow_witness :
  completedEvents
    (effectsOf (completeStep 3 (activeState autoWorkflow (Some "form")) "form" None))
  = 0%nat
  /\ activeWorkflow
       (applyEffects 0 (activeState autoWorkflow (Some "form"))
          (effectsOf (completeStep 3 (activeState autoWorkflow (Some "form")) "form" None)))
     <> None.
Proof.
  apply (automatic_chain_never_ends_workflow 3 0 (activeState autoWorkflow (Some "form"))
           autoWorkflow "form" None (screenStep "form" "Form" true [])
           (conditionalStep "sync" true (fun _ => true))
           (effectsOf (completeStep 3 (activeState autoWorkflow (Some "form")) "form" None)));
    try reflexivity.
  - repeat constructor; simpl; intuition discriminate.
  - simpl. right. left. reflexivity.
  - discriminate.
Defined.


(** ** What a call activates and completes *)

Lemma findNextStep_eligible workflow stepId next :
  findNextStep workflow stepId = Some next ->
  In next (Workflow.steps workflow) /\ eligibleIn workflow next.
Proof.
  intros H. split; [eapply findNextStep_In, H|].
  destruct (findNextStep_position _ _ _ H) as (_ & _ & _ & _ & Hok & _).
  apply eligible_test, Hok.
Qed.

Lemma chain_activations state active stepId d tr :
  Chain state active stepId d tr ->
  Forall (fun sid => exists s, In s (Workflow.steps active) /\ Step.id s = sid
                               /\ eligibleIn active s)
         (activations tr).
Proof.
  induction 1 as [stepId d step Hfind Hall
                 |stepId d step Hfind Hall Hnext
                 |stepId d step next Hfind Hall Hnext Hauto
                 |stepId d step next rest Hfind Hall Hnext Hauto Hrest IH];
    destruct (completionEffects_facts active step stepId d) as (_ & Ca & _).
  - destruct (invoke_silent (Workflow.onComplete active) (Workflow.id active) None)
      as (_ & Ia & _).
    rewrite !activations_app, Ca, Ia. constructor.
  - rewrite Ca. constructor.
  - destruct (activationEffects_facts active next) as (_ & Aa & _).
    rewrite activations_app, Ca, Aa. constructor; [|constructor].
    exists next. destruct (findNextStep_eligible _ _ _ Hnext). auto.
  - destruct (activationEffects_facts active next) as (_ & Aa & _).
    rewrite !activations_app, Ca, Aa. constructor; [|exact IH].
    exists next. destruct (findNextStep_eligible _ _ _ Hnext). auto.
Qed.

(** Every step a [completeStep] call activates, the first one and those
    the chain of automatic completions goes through, is a step of the
    workflow that the workflow held by the call has as eligible.  The
    dependencies are judged on that captured workflow: a step that depends
    on the step being completed is therefore not activated by the call that
    completes it. *)
Theorem completeStep_activates_eligible_steps (fuel : nat) (state : WorkflowState)
    (active : WorkflowDefinition) (stepId : string) (d : option JsValue)
    (tr : list Effect) (sid : string) :
  activeWorkflow state = Some active ->
  completeStep fuel state stepId d = Done tr ->
  In sid (activations tr) ->
  exists s,
    In s (Workflow.steps active) /\ Step.id s = sid /\ eligibleIn active s
    /\ forall step,
         List.find (hasId stepId) (Workflow.steps active) = Some step ->
         Step.completed step = false ->
         ~ In stepId (Step.dependencies s).
Proof.
  intros Hactive Hrun Hsid.
  destruct (List.find (hasId stepId) (Workflow.steps active)) as [step|] eqn:Hfind.
  - pose proof (chain_activations _ _ _ _ _
                  (completeStep_chain state active Hactive _ _ _ _ _ Hfind Hrun)) as Hall.
    rewrite List.Forall_forall in Hall. destruct (Hall sid Hsid) as (s & Hin & Hid & Hel).
    exists s. repeat split; try assumption; try apply Hel.
    intros step' [= <-] Hinc Hdep.
    destruct Hel as [_ Hdeps]. destruct (Hdeps stepId Hdep) as (dep & Hdepfind & Hc).
    congruence.
  - rewrite completeStep_eq, Hactive, Hfind in Hrun. apply Done_inj in Hrun. subst tr.
    destruct Hsid.
Qed.
Lemma completeStep_activates_eligible_steps_witness :
  exists s,
    In s (Workflow.steps detourWorkflow) /\ Step.id s = "check"
    /\ eligibleIn detourWorkflow s
    /\ forall step,
         List.find (hasId "first") (Workflow.steps detourWorkflow) = Some step ->
         Step.completed step = false ->
         ~ In "first" (Step.dependencies s).
Proof.
  apply (completeStep_activates_eligible_steps 3 (activeState detourWorkflow None)
           detourWorkflow "first" None
           (effectsOf (completeStep 3 (activeState detourWorkflow None) "first" None))
           "check").
  - reflexivity.
  - reflexivity.
  - simpl. left. reflexivity.
Defined.


Lemma chain_completions state active stepId d tr :
  Chain state active stepId d tr ->
  List.NoDup (List.map Step.id (Workflow.steps active)) ->
  Forall (fun c => findIndex (hasId stepId) (Workflow.steps active)
                   <= findIndex (hasId (fst c)) (Workflow.steps active)
                   /\ exists s, In s (Workflow.steps active) /\ Step.id s = fst c)
         (completions tr)
  /\ List.NoDup (List.map fst (completions tr)).
Proof.
  intros Hchain Hnd.
  induction Hchain as [stepId d step Hfind Hall
                      |stepId d step Hfind Hall Hnext
                      |stepId d step next Hfind Hall Hnext Hauto
                      |stepId d step next rest Hfind Hall Hnext Hauto Hrest [IHf IHn]];
    destruct (completionEffects_facts active step stepId d) as (Cc & _);
    destruct (find_hasId_id _ _ _ Hfind) as [Hin Hid];
    assert (Hhead : findIndex (hasId stepId) (Workflow.steps active)
                    <= findIndex (hasId (fst (stepId, d))) (Workflow.steps active)
                    /\ exists s, In s (Workflow.steps active) /\ Step.id s = fst (stepId, d))
      by (split; [simpl; lia|exists step; split; assumption]).
  - destruct (invoke_silent (Workflow.onComplete active) (Workflow.id active) None)
      as (Ic & _).
    rewrite !completions_app, Cc, Ic. simpl. split; [repeat constructor; apply Hhead|].
    repeat constructor. intros [].
  - rewrite Cc. split; [repeat constructor; apply Hhead|].
    repeat constructor. intros [].
  - destruct (activationEffects_facts active next) as (Ac & _).
    rewrite completions_app, Cc, Ac. split; [repeat constructor; apply Hhead|].
    repeat constructor. intros [].
  - destruct (activationEffects_facts active next) as (Ac & _).
    pose proof (findNextStep_index _ _ _ Hnd Hnext) as Hlt.
    rewrite !completions_app, Cc, Ac. simpl. split.
    + constructor; [exact Hhead|].
      eapply List.Forall_impl; [|exact IHf]. intros c [Hle Hex]. split; [lia|exact Hex].
    + constructor; [|exact IHn]. intros Hdup.
      apply in_map_iff in Hdup. destruct Hdup as (c & Hc & Hcin).
      rewrite List.Forall_forall in IHf. destruct (IHf c Hcin) as [Hle _].
      rewrite Hc in Hle. lia.
Qed.

(** With distinct step ids, one call of [completeStep] completes no step
    twice: the steps it completes are steps of the workflow, pairwise
    distinct, so the call adds at most one history entry per step. *)
Theorem completeStep_completes_each_step_once (fuel : nat) (state : WorkflowState)
    (active : WorkflowDefinition) (stepId : string) (d : option JsValue)
    (tr : list Effect) :
  activeWorkflow state = Some active ->
  List.NoDup (List.map Step.id (Workflow.steps active)) ->
  completeStep fuel state stepId d = Done tr ->
  List.NoDup (List.map fst (completions tr))
  /\ (forall c, In c (completions tr) ->
        exists s, In s (Workflow.steps active) /\ Step.id s = fst c)
  /\ (length (completions tr) <= length (Workflow.steps active))%nat.
Proof.
  intros Hactive Hnd Hrun.
  assert (H : List.NoDup (List.map fst (completions tr))
              /\ forall c, In c (completions tr) ->
                   exists s, In s (Workflow.steps active) /\ Step.id s = fst c).
  { destruct (List.find (hasId stepId) (Workflow.steps active)) as [step|] eqn:Hfind.
    - destruct (chain_completions _ _ _ _ _
                  (completeStep_chain state active Hactive _ _ _ _ _ Hfind Hrun) Hnd)
        as [Hall Hnd'].
      split; [exact Hnd'|]. rewrite List.Forall_forall in Hall.
      intros c Hc. apply (Hall c Hc).
    - rewrite completeStep_eq, Hactive, Hfind in Hrun. apply Done_inj in Hrun. subst tr.
      split; [constructor|intros c []]. }
  destruct H as [Hnd' Hsteps]. split; [exact Hnd'|split; [exact Hsteps|]].
  rewrite <- (length_map fst (completions tr)), <- (length_map Step.id (Workflow.steps active)).
  apply List.NoDup_incl_length; [exact Hnd'|].
  intros x Hx. apply in_map_iff in Hx. destruct Hx as (c & <- & Hc).
  destruct (Hsteps c Hc) as (s & Hs & <-). apply in_map, Hs.
Qed.
Lemma completeStep_completes_each_step_once_witness :
  List.NoDup
    (List.map fst
       (completions
          (effectsOf (completeStep 3 (activeState detourWorkflow None) "first" None)))).
Proof.
  apply (completeStep_completes_each_step_once 3 (activeState detourWorkflow None)
           detourWorkflow "first" None
           (effectsOf (completeStep 3 (activeState detourWorkflow None) "first" None))).
  - reflexivity.
  - repeat constructor; simpl; intuition discriminate.
  - reflexivity.
Defined.


(** ** A repeated step id *)

(** When the step selected after [stepId] bears the id [stepId] itself and
    completes on activation, [completeStep stepId] never returns: the
    nested call completes [stepId] again, on the same captured workflow,
    and selects the same step. *)
Theorem repeated_id_chain_never_returns (fuel : nat) (state : WorkflowState)
    (active : WorkflowDefinition) (stepId : string) (d : option JsValue)
    (step next : WorkflowStep) :
  activeWorkflow state = Some active ->
  List.find (hasId stepId) (Workflow.steps active) = Some step ->
  allRequiredStepsComplete active stepId = false ->
  findNextStep active stepId = Some next ->
  Step.id next = stepId ->
  completesOnActivation state next = true ->
  completeStep fuel state stepId d = OutOfFuel.
Proof.
  intros Hactive Hfind Hall Hnext Hid Hauto. revert d.
  induction fuel as [|fuel IH]; intros d;
    rewrite completeStep_eq, Hactive, Hfind;
    fold (allRequiredStepsComplete active stepId);
    rewrite Hall, Hnext, executeStep_eq, Hactive, Hauto.
  - reflexivity.
  - rewrite Hid, IH. reflexivity.
Qed.
Lemma repeated_id_chain_never_returns_witness :
  completeStep 1000 (activeState repeatedWorkflow None) "poll" None = OutOfFuel.
Proof.
  apply (repeated_id_chain_never_returns 1000 (activeState repeatedWorkflow None)
           repeatedWorkflow "poll" None
           (conditionalStep "poll" false (fun _ => true))
           (conditionalStep "poll" false (fun _ => true)));
    reflexivity.
Defined.


(** ** The scan after an id that names no step *)

Lemma findIndex_absent {A} (p : A -> bool) l :
  (forall x, In x l -> p x = false) -> findIndex p l = -1.
Proof.
  intros Hall. unfold findIndex.
  destruct (findIndexFrom_spec p l 0) as [[H _]|(pre & x & post & -> & Hx & _)];
    [exact H|].
  rewrite Hall in Hx by (apply in_or_app; right; left; reflexivity). discriminate.
Qed.

(** [findNextStep] and [WorkflowUtils.getNextStep] select the same step
    after any non-empty id, and each of them scans the whole sequence from
    its beginning when the id names no step: the step selected is then the
    first eligible step of the workflow. *)
Theorem next_step_after_unknown_id (workflow : WorkflowDefinition) (stepId : string) :
  (stepId <> "" ->
   WorkflowUtils.getNextStep workflow (Some stepId) = findNextStep workflow stepId)
  /\ ((forall s, In s (Workflow.steps workflow) -> Step.id s <> stepId) ->
      findNextStep workflow stepId = firstEligible workflow
      /\ WorkflowUtils.getNextStep workflow (Some stepId) = firstEligible workflow).
Proof.
  split.
  - intros Hne. unfold WorkflowUtils.getNextStep, findNextStep.
    apply String.eqb_neq in Hne. rewrite Hne. reflexivity.
  - intros Hnone.
    assert (Hidx : findIndex (hasId stepId) (Workflow.steps workflow) = -1).
    { apply findIndex_absent. intros s Hs. apply hasId_false, Hnone, Hs. }
    unfold WorkflowUtils.getNextStep, findNextStep, firstEligible.
    rewrite Hidx. destruct (String.eqb stepId ""); split; reflexivity.
Qed.

(** ** The life cycle of a workflow *)

(** A start made while no workflow is active activates no step.  The call
    dispatches [START_WORKFLOW], emits [WORKFLOW_STARTED] and invokes
    [onStart]; the [executeStep] it then makes for the first step reads the
    state the call captured, finds no active workflow there and returns at
    once.  The store is left with the workflow active and no current
    step. *)
Theorem startWorkflow_from_idle_activates_nothing
    (registry : gmap string WorkflowDefinition) (fuel : nat) (now : Z)
    (state : WorkflowState) (workflowId : string)
    (contextData : option (gmap string JsValue)) (workflow : WorkflowDefinition) :
  activeWorkflow state = None ->
  registry !! workflowId = Some workflow ->
  startWorkflow registry fuel state workflowId contextData
  = Done ([ Dispatch (START_WORKFLOW workflow contextData);
            Emit {| ev_type := WORKFLOW_STARTED;
                    ev_workflowId := workflowId;
                    ev_stepId := None;
                    ev_data := None |} ]
          ++ invoke (Workflow.onStart workflow) (Workflow.id workflow) None)
  /\ storeAfter now state (startWorkflow registry fuel state workflowId contextData)
     = {| activeWorkflow := Some workflow;
          currentStepId := None;
          paused := false;
          history := history state;
          data := spread (data state) contextData |}.
Proof.
  intros Hidle Hreg.
  assert (Hrun : startWorkflow registry fuel state workflowId contextData
                 = Done ([ Dispatch (START_WORKFLOW workflow contextData);
                           Emit {| ev_type := WORKFLOW_STARTED;
                                   ev_workflowId := workflowId;
                                   ev_stepId := None;
                                   ev_data := None |} ]
                         ++ invoke (Workflow.onStart workflow) (Workflow.id workflow) None)).
  { unfold startWorkflow. rewrite Hreg.
    destruct (List.find _ _) as [first|]; [|reflexivity].
    rewrite executeStep_eq, Hidle. unfold andThen, bindRun. rewrite app_nil_r.
    reflexivity. }
  split; [exact Hrun|]. rewrite Hrun. unfold storeAfter, effectsOf.
  rewrite applyEffects_app, applyEffects_invoke. reflexivity.
Qed.
Lemma startWorkflow_from_idle_activates_nothing_witness :
  storeAfter 0 initialState
    (startWorkflow (registerWorkflow ∅ linearWorkflow) 4 initialState "linear" None)
  = {| activeWorkflow := Some linearWorkflow;
       currentStepId := None;
       paused := false;
       history := [];
       data := ∅ |}.
Proof.
  apply (startWorkflow_from_idle_activates_nothing (registerWorkflow ∅ linearWorkflow) 4 0
           initialState "linear" None linearWorkflow); reflexivity.
Defined.


Lemma applyEffects_stopWorkflow now state :
  applyEffects now state (stopWorkflow state)
  = {| activeWorkflow := None;
       currentStepId := None;
       paused := false;
       history := history state;
       data := data state |}.
Proof.
  unfold stopWorkflow. rewrite applyEffects_app.
  destruct (activeWorkflow state) as [active|]; [|reflexivity].
  rewrite applyEffects_app, applyEffects_invoke. reflexivity.
Qed.

(** [stopWorkflow] always dispatches [STOP_WORKFLOW]; it emits
    [WORKFLOW_CANCELLED] first exactly when a workflow is active.  The
    store it leaves is idle and keeps the history and the data mapping, and
    on that store [completeStep], [skipToStep], [pauseWorkflow] and
    [resumeWorkflow] do nothing. *)
Theorem stopWorkflow_leaves_idle_store (now : Z) (state : WorkflowState) :
  let store := applyEffects now state (stopWorkflow state) in
  store = {| activeWorkflow := None;
             currentStepId := None;
             paused := false;
             history := history state;
             data := data state |}
  /\ (forall fuel stepId d, completeStep fuel store stepId d = Done [])
  /\ (forall fuel stepId, skipToStep fuel store stepId = Done [])
  /\ pauseWorkflow store = []
  /\ resumeWorkflow store = []
  /\ stopWorkflow store = [ Dispatch STOP_WORKFLOW ]
  /\ (forall ev, In (Emit ev) (stopWorkflow state) ->
        ev_type ev = WORKFLOW_CANCELLED
        /\ exists active, activeWorkflow state = Some active
                          /\ ev_workflowId ev = Workflow.id active).
Proof.
  intros store.
  assert (Hstore : store = {| activeWorkflow := None;
                              currentStepId := None;
                              paused := false;
                              history := history state;
                              data := data state |}).
  { apply applyEffects_stopWorkflow. }
  split; [exact Hstore|]. rewrite Hstore.
  split; [intros fuel stepId d; rewrite completeStep_eq; reflexivity|].
  repeat split; try reflexivity.
  - unfold stopWorkflow in H. destruct (activeWorkflow state) as [active|];
      simpl in H; [|intuition discriminate].
    destruct H as [[= <-]|H]; [reflexivity|].
    apply in_app_or in H. destruct H as [H|H].
    + destruct (Workflow.onCancel active); simpl in H; intuition discriminate.
    + simpl in H. intuition discriminate.
  - unfold stopWorkflow in H. destruct (activeWorkflow state) as [active|];
      simpl in H; [|intuition discriminate].
    exists active. split; [reflexivity|].
    destruct H as [[= <-]|H]; [reflexivity|].
    apply in_app_or in H. destruct H as [H|H].
    + destruct (Workflow.onCancel active); simpl in H; intuition discriminate.
    + simpl in H. intuition discriminate.
Qed.

(** [restartWorkflow] discards the progress made and keeps what was
    recorded.  When the workflow is registered under its id and the first
    step the registered definition has as not completed does not complete on
    activation, the restart leaves the registered definition active with
    that step current and not paused, and the history and the data mapping
    as they were. *)
Theorem restartWorkflow_resets_progress (registry : gmap string WorkflowDefinition)
    (fuel : nat) (now : Z) (state : WorkflowState)
    (active workflow registered : WorkflowDefinition) (first : WorkflowStep) :
  activeWorkflow state = Some active ->
  registry !! Workflow.id workflow = Some registered ->
  List.find (fun step => negb (Step.completed step)) (Workflow.steps registered)
  = Some first ->
  completesOnActivation state first = false ->
  let '(stopped, started) := restartWorkflow registry fuel state workflow in
  exists tr,
    started = Done tr
    /\ applyEffects now state (stopped ++ tr)
       = {| activeWorkflow := Some registered;
            currentStepId := Some (Step.id first);
            paused := false;
            history := history state;
            data := data state |}.
Proof.
  intros Hactive Hreg Hfirst Hauto. unfold restartWorkflow, startWorkflow.
  rewrite Hreg, Hfirst, executeStep_eq, Hactive, Hauto.
  eexists. split; [reflexivity|].
  rewrite !applyEffects_app, applyEffects_stopWorkflow.
  rewrite applyEffects_invoke. unfold activationEffects.
  rewrite !applyEffects_app, applyEffects_invoke.
  destruct (negb (Step.headless first) && truthy (Step.screen first)); reflexivity.
Qed.
Lemma restartWorkflow_resets_progress_witness :
  let '(stopped, started) :=
    restartWorkflow (registerWorkflow ∅ linearWorkflow) 4
      (activeState (withSteps linearWorkflow
                      [ markCompleted (screenStep "step-1" "S1" true []);
                        screenStep "step-2" "S2" true [];
                        screenStep "step-3" "S3" true [] ])
                   (Some "step-2"))
      linearWorkflow in
  exists tr,
    started = Done tr
    /\ applyEffects 0
         (activeState (withSteps linearWorkflow
                         [ markCompleted (screenStep "step-1" "S1" true []);
                           screenStep "step-2" "S2" true [];
                           screenStep "step-3" "S3" true [] ])
                      (Some "step-2"))
         (stopped ++ tr)
       = {| activeWorkflow := Some linearWorkflow;
            currentStepId := Some "step-1";
            paused := false;
            history := [];
            data := ∅ |}.
Proof.
  apply (restartWorkflow_resets_progress (registerWorkflow ∅ linearWorkflow) 4 0
           (activeState (withSteps linearWorkflow
                           [ markCompleted (screenStep "step-1" "S1" true []);
                             screenStep "step-2" "S2" true [];
                             screenStep "step-3" "S3" true [] ])
                        (Some "step-2"))
           (withSteps linearWorkflow
              [ markCompleted (screenStep "step-1" "S1" true []);
                screenStep "step-2" "S2" true [];
                screenStep "step-3" "S3" true [] ])
           linearWorkflow linearWorkflow (screenStep "step-1" "S1" true []));
    reflexivity.
Defined.


(** ** The data mapping *)

Lemma reduceEffect_data_dom now state e :
  dom (data state) ⊆ dom (data (reduceEffect now state e)).
Proof.
  destruct e as [a| | |]; try reflexivity.
  destruct a; simpl; try reflexivity.
  - destruct d as [d|]; simpl; [|reflexivity]. rewrite dom_union. set_solver.
  - destruct (activeWorkflow state); reflexivity.
  - rewrite dom_insert. set_solver.
Qed.

(** No engine call and no dispatch ever removes a key from the data
    mapping: stopping a workflow keeps the mapping, and starting one merges
    the initial data into it, so the keys written for one workflow are still
    there for the next.  A value written by [setData] stays until a start or
    another [setData] writes the mapping again. *)
Theorem workflow_data_is_never_dropped (now : Z) (state : WorkflowState)
    (tr : list Effect) :
  dom (data state) ⊆ dom (data (applyEffects now state tr))
  /\ (forall key value,
        List.forallb (fun e => negb (writesData e)) tr = true ->
        data (applyEffects now state (setData key value ++ tr)) !! key = Some value).
Proof.
  split.
  - revert state. induction tr as [|e tr IH]; intros state; [reflexivity|].
    rewrite applyEffects_cons. etransitivity; [|apply IH].
    apply reduceEffect_data_dom.
  - intros key value Hquiet. rewrite applyEffects_app, data_kept by exact Hquiet.
    simpl. apply lookup_insert_eq.
Qed.

(** ** The reducer on COMPLETE_STEP *)

(** [COMPLETE_STEP] marks every step that bears the id, ignores its
    payload, and changes nothing else: reducing it twice is reducing it
    once, and two completions reduce to the same state in either order. *)
Theorem COMPLETE_STEP_is_idempotent_and_commutes (now : Z) (state : WorkflowState)
    (a b : string) (da da' db : option JsValue) :
  workflowReducer now (workflowReducer now state (COMPLETE_STEP a da)) (COMPLETE_STEP a da')
  = workflowReducer now state (COMPLETE_STEP a da)
  /\ workflowReducer now (workflowReducer now state (COMPLETE_STEP a da)) (COMPLETE_STEP b db)
     = workflowReducer now (workflowReducer now state (COMPLETE_STEP b db)) (COMPLETE_STEP a da).
Proof.
  split; simpl; destruct (activeWorkflow state) as [active|] eqn:Hactive; simpl;
    rewrite ?Hactive; try reflexivity; f_equal; f_equal; unfold withSteps; simpl;
    f_equal; rewrite !List.map_map; apply List.map_ext; intros s.
  - destruct (String.eqb (Step.id s) a) eqn:E; simpl; rewrite E; reflexivity.
  - destruct (String.eqb (Step.id s) a) eqn:Ea, (String.eqb (Step.id s) b) eqn:Eb;
      simpl; rewrite ?Ea, ?Eb; reflexivity.
Qed.

(** ** What validate accepts *)

Lemma app_nil_both {A} (l1 l2 : list A) : l1 ++ l2 = [] <-> l1 = [] /\ l2 = [].
Proof.
  split; [apply app_eq_nil|]. intros [-> ->]. reflexivity.
Qed.

Lemma flat_map_nil {A B} (f : A -> list B) l :
  flat_map f l = [] <-> forall x, In x l -> f x = [].
Proof.
  induction l as [|a l IH]; simpl.
  - split; [intros _ x []|reflexivity].
  - rewrite app_nil_both, IH. split.
    + intros [Ha Hl] x [<-|Hx]; auto.
    + intros H. split; [apply H; left; reflexivity|intros x Hx; apply H; right; exact Hx].
Qed.

Lemma stepErrors_nil seen step :
  WorkflowUtils.stepErrors seen step = [] <-> stepOk seen step.
Proof.
  unfold WorkflowUtils.stepErrors, stepOk.
  rewrite !app_nil_both, flat_map_nil.
  assert (H1 : (if decide (Step.id step ∈ seen)
                then ["Duplicate step ID: " +:+ Step.id step] else []) = []
               <-> Step.id step ∉ seen).
  { destruct (decide (Step.id step ∈ seen)); split; intros H;
      try discriminate; try contradiction; auto. }
  assert (H2 : (forall depId, In depId (Step.dependencies step) ->
                  (if decide (depId ∈ ({[Step.id step]} ∪ seen : gset string))
                   then []
                   else ["Step " +:+ Step.id step
                         +:+ " depends on non-existent step: " +:+ depId]) = [])
               <-> (forall depId, In depId (Step.dependencies step) ->
                      depId = Step.id step \/ depId ∈ seen)).
  { split; intros H depId Hin; specialize (H depId Hin).
    - destruct (decide (depId ∈ ({[Step.id step]} ∪ seen : gset string))) as [Hd|];
        [|discriminate].
      apply elem_of_union in Hd. destruct Hd as [Hd|Hd]; [left|right; exact Hd].
      apply elem_of_singleton in Hd. exact Hd.
    - destruct (decide (depId ∈ ({[Step.id step]} ∪ seen : gset string))) as [|Hn];
        [reflexivity|].
      exfalso. apply Hn. apply elem_of_union. destruct H as [->|H]; [left|right; exact H].
      apply elem_of_singleton. reflexivity. }
  assert (H3 : (if Step.headless step
                   && negb (bool_decide (is_Some (Step.onActivate step)))
                   && negb (bool_decide (is_Some (Step.completionCondition step)))
                then ["Headless step " +:+ Step.id step
                      +:+ " must have onActivate or completionCondition"]
                else []) = []
               <-> (Step.headless step = true ->
                      is_Some (Step.onActivate step)
                      \/ is_Some (Step.completionCondition step))).
  { destruct (Step.headless step); simpl; [|split; [discriminate|reflexivity]].
    destruct (Step.onActivate step) as [h|]; simpl.
    - split; [intros _ _; left; eexists; reflexivity|reflexivity].
    - destruct (Step.completionCondition step) as [c|]; simpl.
      + split; [intros _ _; right; eexists; reflexivity|reflexivity].
      + split; [discriminate|].
        intros H. destruct (H eq_refl) as [[x Hx]|[x Hx]]; discriminate. }
  assert (H4 : (if negb (Step.headless step) && negb (truthy (Step.screen step))
                then ["Step " +:+ Step.id step
                      +:+ " must have a screen or be marked as headless"]
                else []) = []
               <-> (Step.headless step = false -> truthy (Step.screen step) = true)).
  { destruct (Step.headless step); simpl; [split; [discriminate|reflexivity]|].
    destruct (truthy (Step.screen step)); simpl.
    - split; reflexivity.
    - split; [discriminate|]. intros H. discriminate (H eq_refl). }
  rewrite H1, H2, H3, H4. reflexivity.
Qed.

Lemma validateSteps_nil seen steps :
  WorkflowUtils.validateSteps seen steps = [] <-> stepsOk seen steps.
Proof.
  revert seen. induction steps as [|step rest IH]; intros seen; simpl.
  - split; auto.
  - rewrite app_nil_both, stepErrors_nil, IH. reflexivity.
Qed.

Lemma stepsOk_declared seen steps :
  stepsOk seen steps
  <-> List.NoDup (List.map Step.id steps)
      /\ (forall s, In s steps -> Step.id s ∉ seen)
      /\ (forall pre step post depId,
            steps = pre ++ step :: post ->
            In depId (Step.dependencies step) ->
            depId = Step.id step \/ depId ∈ seen \/ In depId (List.map Step.id pre))
      /\ (forall step, In step steps ->
            Step.headless step = true ->
            is_Some (Step.onActivate step) \/ is_Some (Step.completionCondition step))
      /\ (forall step, In step steps ->
            Step.headless step = false -> truthy (Step.screen step) = true).
Proof.
  revert seen. induction steps as [|a rest IH]; intros seen.
  - simpl. split; [intros _|auto]. refine (conj _ (conj _ (conj _ (conj _ _)))).
    + constructor.
    + intros s [].
    + intros pre step post depId H. destruct pre; discriminate H.
    + intros s [].
    + intros s [].
  - cbn [stepsOk]. rewrite IH. unfold stepOk. split.
    + intros ((Ha1 & Ha2 & Ha3 & Ha4) & Hnd & Hfresh & Hdeps & Hhl & Hscr).
      refine (conj _ (conj _ (conj _ (conj _ _)))).
      * simpl. constructor; [|exact Hnd]. intros Hin.
        apply in_map_iff in Hin. destruct Hin as (s & Hid & Hs).
        apply (Hfresh s Hs). rewrite Hid.
        apply elem_of_union. left. apply elem_of_singleton. reflexivity.
      * intros s [<-|Hs]; [exact Ha1|]. intros Hin.
        apply (Hfresh s Hs), elem_of_union. right. exact Hin.
      * intros pre step post depId Hsplit Hdep. destruct pre as [|a' pre].
        -- simpl in Hsplit. injection Hsplit as <- <-.
           destruct (Ha2 depId Hdep); auto.
        -- simpl in Hsplit. injection Hsplit as <- ->.
           destruct (Hdeps pre step post depId eq_refl Hdep) as [H|[H|H]]; auto.
           ++ apply elem_of_union in H. destruct H as [H|H]; auto.
              apply elem_of_singleton in H. right. right. left. symmetry. exact H.
           ++ right. right. right. exact H.
      * intros s [<-|Hs]; [exact Ha3|apply Hhl, Hs].
      * intros s [<-|Hs]; [exact Ha4|apply Hscr, Hs].
    + intros (Hnd & Hfresh & Hdeps & Hhl & Hscr). simpl in Hnd.
      apply List.NoDup_cons_iff in Hnd. destruct Hnd as [Hnotin Hnd].
      refine (conj (conj _ (conj _ (conj _ _))) (conj _ (conj _ (conj _ (conj _ _))))).
      * apply Hfresh. left. reflexivity.
      * intros depId Hdep.
        destruct (Hdeps [] a rest depId eq_refl Hdep) as [H|[H|[]]]; auto.
      * apply Hhl. left. reflexivity.
      * apply Hscr. left. reflexivity.
      * exact Hnd.
      * intros s Hs Hin. apply elem_of_union in Hin. destruct Hin as [Hin|Hin].
        -- apply elem_of_singleton in Hin. apply Hnotin. rewrite <- Hin.
           apply in_map, Hs.
        -- apply (Hfresh s (or_intror Hs) Hin).
      * intros pre step post depId Hsplit Hdep.
        destruct (Hdeps (a :: pre) step post depId) as [H|[H|[H|H]]]; auto.
        -- simpl. rewrite Hsplit. reflexivity.
        -- right. left. apply elem_of_union. right. exact H.
        -- right. left. apply elem_of_union. left. apply elem_of_singleton.
           symmetry. exact H.
      * intros s Hs. apply Hhl. right. exact Hs.
      * intros s Hs. apply Hscr. right. exact Hs.
Qed.

Lemma validate_valid_iff workflow :
  WorkflowUtils.valid (WorkflowUtils.validate workflow) = true <-> wellDeclared workflow.
Proof.
  unfold WorkflowUtils.validate. cbn [WorkflowUtils.valid].
  set (errors := _ ++ _).
  assert (Hv : match errors with [] => true | _ => false end = true <-> errors = []).
  { destruct errors; split; intros H; try reflexivity; discriminate. }
  rewrite Hv. subst errors. rewrite !app_nil_both, validateSteps_nil, stepsOk_declared.
  unfold wellDeclared.
  assert (Hid : (if String.eqb (Workflow.id workflow) ""
                 then ["Workflow must have an id"] else []) = []
                <-> Workflow.id workflow <> "").
  { destruct (String.eqb_spec (Workflow.id workflow) ""); split; intros H;
      try discriminate; try contradiction; auto. }
  assert (Hname : (if String.eqb (Workflow.name workflow) ""
                   then ["Workflow must have a name"] else []) = []
                  <-> Workflow.name workflow <> "").
  { destruct (String.eqb_spec (Workflow.name workflow) ""); split; intros H;
      try discriminate; try contradiction; auto. }
  assert (Hsteps : match Workflow.steps workflow with
                   | [] => ["Workflow must have at least one step"]
                   | _ => []
                   end = [] <-> Workflow.steps workflow <> []).
  { destruct (Workflow.steps workflow); split; intros H;
      try discriminate; try contradiction; auto. }
  rewrite Hid, Hname, Hsteps. split.
  - intros (H1 & H2 & H3 & Hnd & _ & Hdeps & Hhl & Hscr). repeat split; try assumption.
    intros pre step post depId Hsplit Hdep.
    destruct (Hdeps pre step post depId Hsplit Hdep) as [H|[H|H]]; auto. set_solver.
  - intros (H1 & H2 & H3 & Hnd & Hdeps & Hhl & Hscr). repeat split; try assumption.
    + intros s _. set_solver.
    + intros pre step post depId Hsplit Hdep.
      destruct (Hdeps pre step post depId Hsplit Hdep) as [H|H]; auto.
Qed.

(** [validate] answers [valid] exactly for the definitions that are well
    declared, and it lists an error for every other one.  A dependency on a
    step declared later is among what it rejects, and a step that depends on
    itself is among what it accepts. *)
Theorem validate_accepts_exactly_well_declared (workflow : WorkflowDefinition) :
  (WorkflowUtils.valid (WorkflowUtils.validate workflow) = true <-> wellDeclared workflow)
  /\ (WorkflowUtils.valid (WorkflowUtils.validate workflow) = false
      <-> WorkflowUtils.errors (WorkflowUtils.validate workflow) <> []).
Proof.
  split; [apply validate_valid_iff|].
  unfold WorkflowUtils.validate. cbn [WorkflowUtils.valid WorkflowUtils.errors].
  set (errors := _ ++ _).
  destruct errors; split; intros H; try discriminate; try reflexivity; congruence.
Qed.

Lemma progressed_ids w w' :
  progressed w w' ->
  List.map Step.id (Workflow.steps w') = List.map Step.id (Workflow.steps w).
Proof.
  intros [_ H]. induction H as [|s s' l l' Hs _ IH]; [reflexivity|].
  simpl. rewrite IH. destruct Hs as [->| ->]; reflexivity.
Qed.

(** The engine returns on every workflow [validate] accepts.  When the
    active workflow is a valid definition with some of its steps marked
    completed, every [completeStep] returns, and fuel equal to the number of
    steps is enough for its chain of automatic completions. *)
Theorem validated_workflow_always_returns (state : WorkflowState)
    (workflow active : WorkflowDefinition) (stepId : string) (d : option JsValue) :
  WorkflowUtils.valid (WorkflowUtils.validate workflow) = true ->
  progressed workflow active ->
  activeWorkflow state = Some active ->
  exists tr, completeStep (length (Workflow.steps workflow)) state stepId d = Done tr.
Proof.
  intros Hvalid Hprog Hactive.
  apply validate_valid_iff in Hvalid.
  destruct Hvalid as (_ & _ & _ & Hnd & _).
  pose proof (progressed_ids _ _ Hprog) as Hids.
  apply (completeStep_total state active); [exact Hactive|rewrite Hids; exact Hnd|].
  rewrite <- (length_map Step.id (Workflow.steps active)), Hids, length_map. lia.
Qed.
Lemma validated_workflow_always_returns_witness :
  exists tr,
    completeStep 3
      (activeState (withSteps linearWorkflow
                      [ markCompleted (screenStep "step-1" "S1" true []);
                        screenStep "step-2" "S2" true [];
                        screenStep "step-3" "S3" true [] ])
                   (Some "step-2"))
      "step-2" None
    = Done tr.
Proof.
  apply (validated_workflow_always_returns
           (activeState (withSteps linearWorkflow
                           [ markCompleted (screenStep "step-1" "S1" true []);
                             screenStep "step-2" "S2" true [];
                             screenStep "step-3" "S3" true [] ])
                        (Some "step-2"))
           linearWorkflow
           (withSteps linearWorkflow
              [ markCompleted (screenStep "step-1" "S1" true []);
                screenStep "step-2" "S2" true [];
                screenStep "step-3" "S3" true [] ])
           "step-2" None).
  - vm_compute. reflexivity.
  - split; [reflexivity|]. simpl.
    constructor; [right; reflexivity|].
    constructor; [left; reflexivity|].
    constructor; [left; reflexivity|constructor].
  - reflexivity.
Defined.


(** ** canComplete, getSummary and the engine's test *)

Lemma forallb_filter_length {A} (p : A -> bool) l :
  List.forallb p l = true <-> length (List.filter p l) = length l.
Proof.
  induction l as [|a l IH]; simpl; [split; reflexivity|].
  pose proof (filter_length_bound p l) as Hb.
  destruct (p a); simpl.
  - rewrite IH. split; intros H; lia.
  - split; [discriminate|]. intros H. lia.
Qed.

Lemma find_none_iff {A} (p : A -> bool) l :
  List.find p l = None <-> forall x, In x l -> p x = false.
Proof.
  split; [apply find_none_all|].
  intros H. destruct (List.find p l) as [x|] eqn:E; [|reflexivity].
  destruct (find_first _ _ _ E) as (pre & post & -> & Hx & _).
  rewrite H in Hx by (apply in_or_app; right; left; reflexivity). discriminate.
Qed.

(** [getSummary] is consistent with itself: [isComplete] holds exactly when
    the two counts of required steps agree; the visible steps completed are
    at most the visible steps; [nextStep] is the id of the first eligible
    step of the whole sequence, and it is absent exactly when no step is
    eligible, which can be the case while [isComplete] is false. *)
Theorem getSummary_is_consistent (workflow : WorkflowDefinition) :
  let summary := WorkflowUtils.getSummary workflow in
  (WorkflowUtils.isComplete summary = true
   <-> WorkflowUtils.completedRequiredSteps summary = WorkflowUtils.requiredSteps summary)
  /\ (WorkflowUtils.completedSteps summary <= WorkflowUtils.totalSteps summary)%nat
  /\ WorkflowUtils.nextStep summary = option_map Step.id (firstEligible workflow)
  /\ (forall sid,
        WorkflowUtils.nextStep summary = Some sid ->
        exists step, In step (Workflow.steps workflow) /\ Step.id step = sid
                     /\ eligibleIn workflow step)
  /\ (WorkflowUtils.nextStep summary = None
      <-> forall step, In step (Workflow.steps workflow) -> ~ eligibleIn workflow step).
Proof.
  intros summary. subst summary. unfold WorkflowUtils.getSummary. simpl.
  change (WorkflowUtils.getNextStep workflow None) with (firstEligible workflow).
  split; [|split; [|split; [|split]]].
  - unfold WorkflowUtils.canComplete. apply forallb_filter_length.
  - apply filter_length_bound.
  - reflexivity.
  - intros sid Hsid. unfold firstEligible in Hsid.
    destruct (List.find _ _) as [step|] eqn:Hfind; [|discriminate].
    injection Hsid as <-. exists step.
    destruct (find_first _ _ _ Hfind) as (pre & post & Hs & Hok & _).
    split; [rewrite Hs; apply in_or_app; right; left; reflexivity|].
    split; [reflexivity|apply eligible_test, Hok].
  - unfold firstEligible. split.
    + intros Hnone step Hin Hel.
      destruct (List.find _ _) as [x|] eqn:Hfind; [discriminate|].
      apply eligible_test in Hel. rewrite (find_none_all _ _ Hfind step Hin) in Hel.
      discriminate.
    + intros Hall.
      assert (Hfind : List.find
                        (fun step => negb (Step.completed step)
                                     && areDependenciesMet step workflow)
                        (Workflow.steps workflow) = None).
      { apply find_none_iff. intros x Hx. apply not_true_is_false. intros Hok.
        apply (Hall x Hx). apply eligible_test, Hok. }
      rewrite Hfind. reflexivity.
Qed.

Lemma canComplete_after_COMPLETE_STEP active stepId :
  WorkflowUtils.canComplete
    (withSteps active
       (List.map (fun step => if String.eqb (Step.id step) stepId
                              then markCompleted step else step)
                 (Workflow.steps active)))
  = allRequiredStepsComplete active stepId.
Proof.
  unfold WorkflowUtils.canComplete, allRequiredStepsComplete. simpl.
  induction (Workflow.steps active) as [|s ss IH]; [reflexivity|].
  simpl. destruct (String.eqb (Step.id s) stepId) eqn:E; simpl.
  - destruct (Step.required s); simpl; rewrite ?E, ?orb_true_r, IH; reflexivity.
  - destruct (Step.required s); simpl; rewrite ?E, ?orb_false_r, IH; reflexivity.
Qed.

(** The engine's test and [canComplete] agree.  A [completeStep] on a step
    of the active workflow ends the workflow without activating anything
    exactly when [canComplete] holds of the workflow that reducing its
    [COMPLETE_STEP] gives. *)
Theorem completeStep_ends_iff_canComplete (fuel : nat) (now : Z) (state : WorkflowState)
    (active : WorkflowDefinition) (stepId : string) (d : option JsValue)
    (step : WorkflowStep) (tr : list Effect) :
  activeWorkflow state = Some active ->
  List.find (hasId stepId) (Workflow.steps active) = Some step ->
  completeStep fuel state stepId d = Done tr ->
  exists updated,
    activeWorkflow (workflowReducer now state (COMPLETE_STEP stepId d)) = Some updated
    /\ (WorkflowUtils.canComplete updated = true
        <-> completedEvents tr = 1%nat /\ activations tr = []).
Proof.
  intros Hactive Hfind Hrun. simpl. rewrite Hactive. eexists. split; [reflexivity|].
  rewrite canComplete_after_COMPLETE_STEP.
  pose proof (completeStep_chain state active Hactive _ _ _ _ _ Hfind Hrun) as Hchain.
  destruct (completionEffects_facts active step stepId d) as (_ & Ca & _ & _ & _ & Ce).
  inversion Hchain as [sid d' step' Hfind' Hall'
                      |sid d' step' Hfind' Hall' Hnext
                      |sid d' step' next Hfind' Hall' Hnext Hauto
                      |sid d' step' next rest Hfind' Hall' Hnext Hauto Hrest]; subst;
    rewrite Hfind in Hfind'; injection Hfind' as <-; rewrite Hall'.
  - destruct (invoke_silent (Workflow.onComplete active) (Workflow.id active) None)
      as (_ & Ia & _).
    rewrite !completedEvents_app, !activations_app, Ce, Ca, Ia, completedEvents_invoke.
    split; [intros _; split; reflexivity|reflexivity].
  - rewrite Ce. split; [discriminate|intros [H _]; discriminate].
  - destruct (activationEffects_facts active next) as (_ & Aa & _).
    rewrite activations_app, Ca, Aa. split; [discriminate|intros [_ H]; discriminate].
  - destruct (activationEffects_facts active next) as (_ & Aa & _).
    rewrite !activations_app, Ca, Aa. split; [discriminate|intros [_ H]; discriminate].
Qed.
Lemma completeStep_ends_iff_canComplete_witness :
  exists updated,
    activeWorkflow
      (workflowReducer 0 (activeState autoWorkflow (Some "form")) (COMPLETE_STEP "form" None))
    = Some updated
    /\ (WorkflowUtils.canComplete updated = true
        <-> completedEvents
              (effectsOf (completeStep 3 (activeState autoWorkflow (Some "form")) "form" None))
            = 1%nat
            /\ activations
                 (effectsOf
                    (completeStep 3 (activeState autoWorkflow (Some "form")) "form" None))
               = []).
Proof.
  apply (completeStep_ends_iff_canComplete 3 0 (activeState autoWorkflow (Some "form"))
           autoWorkflow "form" None (screenStep "form" "Form" true [])
           (effectsOf (completeStep 3 (activeState autoWorkflow (Some "form")) "form" None)));
    reflexivity.
Defined.


(** ** The progress shown during onboarding *)

Lemma filter_length_complement {A} (p : A -> bool) l :
  (length (List.filter p l) + length (List.filter (fun x => negb (p x)) l))%nat = length l.
Proof.
  induction l as [|a l IH]; [reflexivity|]. simpl. destruct (p a); simpl; lia.
Qed.

(** [calculateOnboardingProgress], and the header of [WorkflowNavigator]
    with it, count every completed step against the visible steps only:
    [current] is the [completed] of [getProgress] plus the headless steps
    that are completed, and [total] is the [total] of [getProgress].  The
    percentage, the double that [(current / total) * 100] computes, is
    above 100 only when more steps are completed than are visible, and then
    it is, for every total up to [2 ^ 52] (an array is shorter than
    [2 ^ 32]). *)
Theorem onboarding_progress_counts_headless_steps (workflow : WorkflowDefinition) :
  let p := EnhancedOnboarding.calculateOnboardingProgress workflow in
  let q := WorkflowUtils.getProgress workflow in
  EnhancedOnboarding.current p
  = (WorkflowUtils.completed q
     + length (List.filter (fun s => Step.headless s && Step.completed s)
                           (Workflow.steps workflow)))%nat
  /\ EnhancedOnboarding.total p = WorkflowUtils.total q
  /\ EnhancedOnboarding.percentage p
     = (if Nat.eqb (EnhancedOnboarding.total p) 0
        then inject_Z 0
        else mulDouble (divDouble (inject_Z (Z.of_nat (EnhancedOnboarding.current p)))
                                  (inject_Z (Z.of_nat (EnhancedOnboarding.total p))))
                       (inject_Z 100))
  /\ ((100 < EnhancedOnboarding.percentage p)%Q ->
      (0 < EnhancedOnboarding.total p < EnhancedOnboarding.current p)%nat)
  /\ (Z.of_nat (EnhancedOnboarding.total p) <= 2 ^ 52 ->
      (0 < EnhancedOnboarding.total p < EnhancedOnboarding.current p)%nat ->
      (100 < EnhancedOnboarding.percentage p)%Q).
Proof.
  intros p q. subst p q.
  unfold EnhancedOnboarding.calculateOnboardingProgress, WorkflowUtils.getProgress.
  cbv zeta.
  cbn [EnhancedOnboarding.current EnhancedOnboarding.total EnhancedOnboarding.percentage
       WorkflowUtils.completed WorkflowUtils.total].
  set (ss := Workflow.steps workflow).
  set (visible := length (List.filter (fun step => negb (Step.headless step)) ss)).
  set (done := length (List.filter Step.completed ss)).
  split; [|split; [reflexivity|split; [|split]]].
  - subst done. rewrite filter_filter_andb.
    rewrite <- (filter_length_complement (fun s => negb (Step.headless s))
                  (List.filter Step.completed ss)).
    rewrite !filter_filter_andb. f_equal.
    + f_equal. apply List.filter_ext. intros s. apply andb_comm.
    + f_equal. apply List.filter_ext. intros s. rewrite negb_involutive. apply andb_comm.
  - destruct visible as [|n]; reflexivity.
  - destruct visible as [|n] eqn:En; cbn [Nat.ltb Nat.leb].
    + intros H. discriminate H.
    + intros H. split; [lia|].
      destruct (Nat.lt_ge_cases (S n) done) as [Hlt|Hge]; [exact Hlt|].
      exfalso. apply (Qlt_not_le _ _ H). apply percent_bounds; lia.
  - intros Hsmall [Ht Hc].
    destruct visible as [|n] eqn:En; [lia|]. cbn [Nat.ltb Nat.leb].
    apply percent_above; [lia|exact Hsmall|exact Hc].
Qed.

(** ** WorkflowBuilder and WorkflowTemplates *)

Lemma decimal_inj n m : decimal n = decimal m -> n = m.
Proof.
  unfold decimal. intros H.
  assert (Hu : Nat.to_uint n = Nat.to_uint m).
  { pose proof (NilEmpty.usu (Nat.to_uint n)) as Hn.
    pose proof (NilEmpty.usu (Nat.to_uint m)) as Hm.
    rewrite H in Hn. congruence. }
  rewrite <- (Unsigned.of_to n), <- (Unsigned.of_to m). congruence.
Qed.

Lemma withSteps_steps builder : withSteps builder (Workflow.steps builder) = builder.
Proof. destruct builder. reflexivity. Qed.

Lemma withSteps_withSteps builder ss ss' :
  withSteps (withSteps builder ss) ss' = withSteps builder ss'.
Proof. reflexivity. Qed.

Lemma addScreens_steps screens : forall index required builder,
  WorkflowTemplates.addScreens index screens required builder
  = withSteps builder (Workflow.steps builder ++ linearSteps index screens required).
Proof.
  induction screens as [|screen rest IH]; intros index required builder.
  - simpl. rewrite app_nil_r, withSteps_steps. reflexivity.
  - cbn [WorkflowTemplates.addScreens linearSteps]. rewrite IH.
    unfold WorkflowBuilder.addScreenStep, WorkflowBuilder.addStep. simpl.
    rewrite <- app_assoc. reflexivity.
Qed.

Lemma linearSteps_ids screens : forall index required x,
  In x (List.map Step.id (linearSteps index screens required)) ->
  exists k, (index <= k)%nat /\ x = "step-" +:+ decimal (k + 1).
Proof.
  induction screens as [|screen rest IH]; intros index required x; simpl; [intros []|].
  intros [<-|Hx].
  - exists index. split; [lia|reflexivity].
  - destruct (IH _ _ _ Hx) as (k & Hk & ->). exists k. split; [lia|reflexivity].
Qed.

Lemma linearSteps_NoDup screens : forall index required,
  List.NoDup (List.map Step.id (linearSteps index screens required)).
Proof.
  induction screens as [|screen rest IH]; intros index required; simpl; constructor.
  - intros Hin. destruct (linearSteps_ids _ _ _ _ Hin) as (k & Hk & Heq).
    injection Heq as Heq. apply decimal_inj in Heq. lia.
  - apply IH.
Qed.

Lemma linearSteps_shape screens : forall index required step,
  In step (linearSteps index screens required) ->
  Step.completed step = false /\ Step.headless step = false
  /\ Step.dependencies step = [] /\ Step.required step = required
  /\ exists screen, In screen screens /\ Step.screen step = Some screen.
Proof.
  induction screens as [|screen rest IH]; intros index required step; simpl; [intros []|].
  intros [<-|Hin].
  - simpl. repeat split. exists screen. split; [left|]; reflexivity.
  - destruct (IH _ _ _ Hin) as (H1 & H2 & H3 & H4 & sc & Hsc & H5).
    repeat split; try assumption. exists sc. split; [right; exact Hsc|exact H5].
Qed.

Lemma linearSteps_screens screens : forall index required,
  List.map Step.screen (linearSteps index screens required) = List.map Some screens.
Proof.
  induction screens as [|screen rest IH]; intros index required; simpl;
    [reflexivity|rewrite IH; reflexivity].
Qed.

(** [createLinearWorkflow] throws exactly when the id or the name is
    empty.  Otherwise it returns a definition with one step per screen, in
    order, each of them not completed and not headless, with no
    dependencies, required unless [allRequired] is [false], and with
    distinct ids; when there is at least one screen and no screen name is
    empty, [validate] accepts the definition. *)
Theorem createLinearWorkflow_is_valid (id name : string) (screens : list string)
    (options : WorkflowTemplates.LinearOptions) :
  (id = "" \/ name = "" ->
   WorkflowTemplates.createLinearWorkflow id name screens options
   = Threw "Workflow must have an id and name")
  /\ (id <> "" -> name <> "" ->
      exists workflow,
        WorkflowTemplates.createLinearWorkflow id name screens options = Done workflow
        /\ Workflow.id workflow = id
        /\ Workflow.name workflow = name
        /\ List.map Step.screen (Workflow.steps workflow) = List.map Some screens
        /\ List.NoDup (List.map Step.id (Workflow.steps workflow))
        /\ (forall step, In step (Workflow.steps workflow) ->
              Step.completed step = false /\ Step.headless step = false
              /\ Step.dependencies step = []
              /\ Step.required step
                 = negb (bool_decide (WorkflowTemplates.allRequired options = Some false)))
        /\ (screens <> [] -> (forall screen, In screen screens -> screen <> "") ->
            WorkflowUtils.valid (WorkflowUtils.validate workflow) = true)).
Proof.
  unfold WorkflowTemplates.createLinearWorkflow. rewrite addScreens_steps.
  set (required := negb (bool_decide (WorkflowTemplates.allRequired options = Some false))).
  unfold WorkflowBuilder.build. simpl. split.
  - intros [-> | ->]; [reflexivity|]. rewrite orb_true_r. reflexivity.
  - intros Hid Hname.
    apply String.eqb_neq in Hid, Hname. rewrite Hid, Hname. simpl.
    eexists. split; [reflexivity|].
    set (workflow := withSteps _ _).
    assert (Hsteps : Workflow.steps workflow = linearSteps 0 screens required)
      by reflexivity.
    split; [reflexivity|split; [reflexivity|]]. rewrite Hsteps.
    split; [apply linearSteps_screens|].
    split; [apply linearSteps_NoDup|].
    split.
    + intros step Hin.
      destruct (linearSteps_shape _ _ _ _ Hin) as (H1 & H2 & H3 & H4 & _). auto.
    + intros Hscreens Hnames. apply validate_valid_iff.
      unfold wellDeclared. rewrite Hsteps.
      apply String.eqb_neq in Hid, Hname.
      refine (conj Hid (conj Hname (conj _ (conj _ (conj _ (conj _ _)))))).
      * destruct screens; [contradiction|discriminate].
      * apply linearSteps_NoDup.
      * intros pre step post depId Hsplit Hdep.
        assert (Hin : In step (linearSteps 0 screens required))
          by (rewrite Hsplit; apply in_or_app; right; left; reflexivity).
        destruct (linearSteps_shape _ _ _ _ Hin) as (_ & _ & H3 & _).
        rewrite H3 in Hdep. destruct Hdep.
      * intros step Hin Hh.
        destruct (linearSteps_shape _ _ _ _ Hin) as (_ & H2 & _). congruence.
      * intros step Hin _.
        destruct (linearSteps_shape _ _ _ _ Hin) as (_ & _ & _ & _ & sc & Hsc & ->).
        simpl. apply negb_true_iff, String.eqb_neq, Hnames, Hsc.
Qed.

(** [addConditionalStep] says of a step whose condition is false that it
    is skipped.  The engine does so for a headless step only: such a step
    completes as soon as it is activated.  A step that is not headless is
    activated like any other, its screen is navigated to, and nothing
    completes it, whatever the condition says. *)
Theorem conditional_step_is_skipped_only_when_headless (fuel : nat)
    (state : WorkflowState) (active builder : WorkflowDefinition)
    (condition : gmap string JsValue -> bool) (options : StepOptions.t) :
  activeWorkflow state = Some active ->
  condition (data state) = false ->
  exists step,
    Workflow.steps (WorkflowBuilder.addConditionalStep builder condition options)
    = Workflow.steps builder ++ [step]
    /\ (StepOptions.headless options = Some true ->
        completesOnActivation state step = true)
    /\ (StepOptions.headless options <> Some true ->
        executeStep fuel state step = Done (activationEffects active step)
        /\ completions (activationEffects active step) = []
        /\ (truthy (StepOptions.screen options) = true ->
            In (Navigate (default "" (StepOptions.screen options))
                         (StepOptions.navigationParams options))
               (activationEffects active step))).
Proof.
  intros Hactive Hcond.
  unfold WorkflowBuilder.addConditionalStep, WorkflowBuilder.addStep. simpl.
  eexists. split; [reflexivity|]. split.
  - intros Hh. unfold completesOnActivation. simpl. rewrite Hh, Hcond. reflexivity.
  - intros Hh.
    assert (Hheadless : default false (StepOptions.headless options) = false).
    { destruct (StepOptions.headless options) as [[|]|]; try reflexivity. congruence. }
    split; [|split].
    + rewrite executeStep_eq, Hactive. unfold completesOnActivation. simpl.
      rewrite Hheadless. reflexivity.
    + apply activationEffects_facts.
    + intros Hscreen. unfold activationEffects. simpl. rewrite Hheadless, Hscreen. simpl.
      right. right. apply in_or_app. right. left. reflexivity.
Qed.
(** A conditional step with a screen, as [createEnhancedOnboardingWorkflow]
    declares its preface: the condition is false and the screen is shown. *)
Lemma conditional_step_is_skipped_only_when_headless_witness :
  exists step,
    Workflow.steps
      (WorkflowBuilder.addConditionalStep
         (WorkflowBuilder.create "enhanced-onboarding" "Welcome to BC Wallet")
         (fun _ => false)
         (StepOptions.mk (Some "preface") (Some "Preface") (Some true)
            None None None None None None))
    = [step]
    /\ executeStep 3 (activeState linearWorkflow None) step
       = Done (activationEffects linearWorkflow step)
    /\ In (Navigate "Preface" None) (activationEffects linearWorkflow step).
Proof.
  destruct (conditional_step_is_skipped_only_when_headless 3
              (activeState linearWorkflow None) linearWorkflow
              (WorkflowBuilder.create "enhanced-onboarding" "Welcome to BC Wallet")
              (fun _ => false)
              (StepOptions.mk (Some "preface") (Some "Preface") (Some true)
                 None None None None None None) eq_refl eq_refl)
    as (step & Hsteps & _ & Hshown).
  assert (Hscreen : None <> Some true) by discriminate.
  destruct (Hshown Hscreen) as (Hrun & _ & Hnav).
  exists step. split; [exact Hsteps|split; [exact Hrun|exact (Hnav eq_refl)]].
Defined.


(** ** What serialize can write *)

Lemma mapRun_serializeEntry_Done entries :
  (exists written, mapRun WorkflowStorage.serializeEntry entries = Done written)
  <-> List.Forall writableEntry entries.
Proof.
  induction entries as [|entry entries IH].
  - split; [constructor|]. intros _. exists []. reflexivity.
  - split.
    + intros (written & Hw).
      destruct (mapRun_cons_Done _ _ _ _ Hw) as (w & ws & Hentry & Hrest & _).
      constructor.
      * destruct (serializeEntry_Done _ _ Hentry) as (props & t & -> & Hc & _).
        exists props, t. split; [reflexivity|exact Hc].
      * apply IH. exists ws. exact Hrest.
    + intros H. inversion H as [|e es (props & t & -> & Hc) Hes]; subst.
      apply IH in Hes. destruct Hes as (ws & Hws).
      eexists. cbn [mapRun]. unfold WorkflowStorage.serializeEntry at 1.
      rewrite Hc, Hws. reflexivity.
Qed.

(** [serialize] returns exactly when the state has no history, or a
    history that is an array of objects each of which carries a valid Date
    as [completedAt]; on any other state it throws. *)
Theorem serialize_returns_exactly_on_writable_history (state : list (string * JsValue)) :
  (exists x, WorkflowStorage.serialize state = Done x)
  <-> match getProp state "history" with
      | JUndefined => True
      | JNull => True
      | JArray entries => List.Forall writableEntry entries
      | _ => False
      end.
Proof.
  unfold WorkflowStorage.serialize.
  destruct (getProp state "history") as [| | | | | | |entries|] eqn:Hh; cbn [bindRun];
    try (split; [intros _; exact I|intros _; eexists; reflexivity]);
    try (split; [intros (x & Hx); discriminate Hx|intros []]).
  rewrite <- mapRun_serializeEntry_Done. split.
  - intros (x & Hx). destruct (mapRun _ entries) as [ws| |]; try discriminate Hx.
    exists ws. reflexivity.
  - intros (ws & ->). eexists. reflexivity.
Qed.

(** [deserialize] accepts documents that [serialize] cannot write back:
    when [new Date] makes an invalid Date of what the first history entry
    of a document has as [completedAt] (nothing at all, or a string that
    the engine does not read as a date), [deserialize] restores the entry
    with that invalid Date, and [serialize] throws a [RangeError] on the
    restored state. *)
Theorem restored_invalid_date_is_not_serializable (platform : Platform) (document : Json)
    (parsed props : list (string * JsValue)) (entries : list JsValue)
    (restored : list (string * JsValue)) :
  fromJson document = JObject parsed ->
  getProp parsed "history" = JArray (JObject props :: entries) ->
  newDate platform (getProp props "completedAt") = Done (JDate None) ->
  WorkflowStorage.deserialize platform document = Done restored ->
  completedAtOf (List.hd JUndefined
                   match getProp restored "history" with
                   | JArray es => es
                   | _ => []
                   end) = JDate None
  /\ WorkflowStorage.serialize restored = Threw "RangeError: Invalid time value".
Proof.
  intros Hparsed Hhistory Hdate. unfold WorkflowStorage.deserialize.
  rewrite Hparsed, Hhistory. cbn [mapRun]. unfold WorkflowStorage.deserializeEntry at 1.
  rewrite Hdate. cbn [bindRun].
  destruct (mapRun (WorkflowStorage.deserializeEntry platform) entries) as [es| |];
    cbn [bindRun]; try discriminate.
  intros H. apply Done_inj in H. subst restored.
  unfold WorkflowStorage.serialize. rewrite getProp_setProp. cbn [mapRun List.hd].
  split.
  - cbn [completedAtOf]. apply getProp_setProp.
  - unfold WorkflowStorage.serializeEntry at 1. rewrite getProp_setProp. reflexivity.
Qed.
(** A document whose only history entry has no timestamp: every engine
    makes an invalid Date of [undefined]. *)
Lemma restored_invalid_date_is_not_serializable_witness :
  WorkflowStorage.serialize
    [ ("history", JArray [ JObject [ ("stepId", JString "step-1");
                                     ("completedAt", JDate None) ] ]) ]
  = Threw "RangeError: Invalid time value".
Proof.
  apply (restored_invalid_date_is_not_serializable strictPlatform
           (JsonObject [ ("history",
                          JsonArray [ JsonObject [ ("stepId", JsonString "step-1") ] ]) ])
           [ ("history", JArray [ JObject [ ("stepId", JString "step-1") ] ]) ]
           [ ("stepId", JString "step-1") ] []
           [ ("history", JArray [ JObject [ ("stepId", JString "step-1");
                                            ("completedAt", JDate None) ] ]) ]);
    reflexivity.
Defined.


(** ** The flags skippable and pausable *)

Lemma completeStep_withFlags skippable pausable fuel state stepId d :
  completeStep fuel (withFlags skippable pausable state) stepId d
  = completeStep fuel state stepId d.
Proof.
  revert stepId d. induction fuel as [|fuel IH]; intros stepId d;
    rewrite !completeStep_eq; simpl;
    destruct (activeWorkflow state) as [active|] eqn:Hactive; try reflexivity; simpl;
    destruct (List.find _ _) as [step|]; try reflexivity;
    destruct (List.forallb _ _); try reflexivity;
    change (findNextStep (Workflow.mk _ _ (Workflow.steps active) _ _ _ _ _) stepId)
      with (findNextStep active stepId);
    destruct (findNextStep active stepId) as [next|]; try reflexivity;
    rewrite !executeStep_eq; simpl; rewrite Hactive; simpl;
    unfold completesOnActivation; simpl;
    destruct (Step.completionCondition next) as [condition|]; try reflexivity;
    destruct (Step.headless next && condition (data state)); try reflexivity.
  rewrite IH. reflexivity.
Qed.

(** The engine never reads the flags [skippable] and [pausable] of a
    workflow: [pauseWorkflow] pauses a workflow declared not pausable,
    [skipToStep] skips in a workflow declared not skippable, and every
    engine call does the same whatever the two flags are. *)
Theorem engine_ignores_skippable_and_pausable (skippable pausable : bool) (fuel : nat)
    (state : WorkflowState) (stepId : string) (d : option JsValue) :
  pauseWorkflow (withFlags skippable pausable state) = pauseWorkflow state
  /\ resumeWorkflow (withFlags skippable pausable state) = resumeWorkflow state
  /\ stopWorkflow (withFlags skippable pausable state) = stopWorkflow state
  /\ completeStep fuel (withFlags skippable pausable state) stepId d
     = completeStep fuel state stepId d
  /\ skipToStep fuel (withFlags skippable pausable state) stepId
     = skipToStep fuel state stepId.
Proof.
  split; [|split; [|split; [|split]]].
  - unfold pauseWorkflow. simpl. destruct (activeWorkflow state); reflexivity.
  - unfold resumeWorkflow. simpl. destruct (activeWorkflow state); reflexivity.
  - unfold stopWorkflow. simpl. destruct (activeWorkflow state); reflexivity.
  - apply completeStep_withFlags.
  - unfold skipToStep. simpl.
    destruct (activeWorkflow state) as [active|] eqn:Hactive; [|reflexivity]. simpl.
    destruct (List.find _ _) as [step|]; [|reflexivity].
    rewrite !executeStep_eq. simpl. rewrite Hactive. simpl.
    unfold completesOnActivation. simpl.
    destruct (Step.completionCondition step) as [condition|]; try reflexivity.
    destruct (Step.headless step && condition (data state)); try reflexivity.
    destruct fuel as [|fuel]; [reflexivity|].
    rewrite completeStep_withFlags. reflexivity.
Qed.

(** ** A sequence of required screens, completed in order *)

Lemma find_hasId_unique pre step post :
  List.NoDup (List.map Step.id (pre ++ step :: post)) ->
  List.find (hasId (Step.id step)) (pre ++ step :: post) = Some step.
Proof.
  induction pre as [|a pre IH]; simpl; intros Hnd.
  - rewrite (proj2 (hasId_true _ _) eq_refl). reflexivity.
  - apply List.NoDup_cons_iff in Hnd. destruct Hnd as [Hnotin Hnd].
    assert (Hne : hasId (Step.id step) a = false).
    { apply hasId_false. intros Heq. apply Hnotin. rewrite Heq.
      apply in_map, in_or_app. right. left. reflexivity. }
    rewrite Hne. apply IH, Hnd.
Qed.

Lemma map_mark_other (ss : list WorkflowStep) stepId :
  (forall x, In x ss -> Step.id x <> stepId) ->
  List.map (fun step => if String.eqb (Step.id step) stepId
                        then markCompleted step else step) ss = ss.
Proof.
  induction ss as [|a ss IH]; intros H; [reflexivity|]. simpl.
  rewrite (proj2 (String.eqb_neq _ _) (H a (or_introl eq_refl))).
  rewrite IH by (intros x Hx; apply H; right; exact Hx). reflexivity.
Qed.

Lemma NoDup_ids_split pre step post :
  List.NoDup (List.map Step.id (pre ++ step :: post)) ->
  (forall x, In x pre -> Step.id x <> Step.id step)
  /\ (forall x, In x post -> Step.id x <> Step.id step).
Proof.
  intros Hnd. rewrite List.map_app in Hnd. simpl in Hnd.
  apply List.NoDup_remove_2 in Hnd. split; intros x Hx Heq; apply Hnd, in_or_app;
    [left|right]; rewrite <- Heq; apply in_map, Hx.
Qed.

Lemma allRequired_in_sequence active pre step post :
  Workflow.steps active = pre ++ step :: post ->
  List.NoDup (List.map Step.id (pre ++ step :: post)) ->
  List.Forall (fun s => Step.completed s = true) pre ->
  List.Forall plainStep post ->
  allRequiredStepsComplete active (Step.id step)
  = match post with [] => true | _ => false end.
Proof.
  intros Hs Hnd Hpre Hpost. unfold allRequiredStepsComplete. rewrite Hs.
  destruct (NoDup_ids_split _ _ _ Hnd) as [_ Hne].
  destruct post as [|next post].
  - apply forallb_forall. intros s Hin. apply filter_In in Hin. destruct Hin as [Hin _].
    apply in_app_or in Hin. destruct Hin as [Hin|[<-|[]]].
    + rewrite List.Forall_forall in Hpre. rewrite (Hpre s Hin). reflexivity.
    + rewrite String.eqb_refl. apply orb_true_r.
  - apply not_true_is_false. intros Hall. rewrite forallb_forall in Hall.
    inversion Hpost as [|x l (Hc & Hr & _) _]; subst.
    specialize (Hall next). rewrite filter_In, Hc in Hall. simpl in Hall.
    assert (Hin : In next (pre ++ step :: next :: post))
      by (apply in_or_app; right; right; left; reflexivity).
    specialize (Hall (conj Hin Hr)). apply String.eqb_eq in Hall.
    apply (Hne next (or_introl eq_refl) Hall).
Qed.

Lemma skipn_past {A} (pre : list A) x l : skipn (length pre + 1) (pre ++ x :: l) = l.
Proof. induction pre as [|a pre IH]; [reflexivity|exact IH]. Qed.

Lemma findNextStep_in_sequence active pre step next post :
  Workflow.steps active = pre ++ step :: next :: post ->
  List.NoDup (List.map Step.id (pre ++ step :: next :: post)) ->
  plainStep next ->
  findNextStep active (Step.id step) = Some next.
Proof.
  intros Hs Hnd (Hc & _ & Hd & _). unfold findNextStep. rewrite Hs.
  rewrite (findIndex_unique pre step (next :: post) Hnd).
  replace (Z.to_nat (Z.of_nat (length pre) + 1)) with (length pre + 1)%nat by lia.
  rewrite skipn_past. simpl.
  unfold areDependenciesMet. rewrite Hc, Hd. reflexivity.
Qed.

Lemma activeWorkflow_completionEffects now state active step stepId d :
  activeWorkflow state = Some active ->
  activeWorkflow (applyEffects now state (completionEffects active step stepId d))
  = Some (withSteps active
            (List.map (fun step => if String.eqb (Step.id step) stepId
                                   then markCompleted step else step)
                      (Workflow.steps active))).
Proof.
  intros Hactive. unfold completionEffects.
  rewrite applyEffects_app, applyEffects_invoke. simpl. rewrite Hactive. reflexivity.
Qed.

Lemma activeWorkflow_activationEffects now state active step :
  activeWorkflow (applyEffects now state (activationEffects active step))
  = activeWorkflow state.
Proof.
  unfold activationEffects. rewrite !applyEffects_app, applyEffects_invoke.
  destruct (negb (Step.headless step) && truthy (Step.screen step)); reflexivity.
Qed.

Lemma completeInOrder_sequence fuel now : forall post pre state active,
  activeWorkflow state = Some active ->
  Workflow.steps active = pre ++ post ->
  List.NoDup (List.map Step.id (pre ++ post)) ->
  List.Forall (fun s => Step.completed s = true) pre ->
  List.Forall plainStep post ->
  post <> [] ->
  exists tr,
    completeInOrder fuel now state (List.map Step.id post) = Done tr
    /\ completions tr = List.map (fun s => (Step.id s, None)) post
    /\ activations tr = List.map Step.id (List.tl post)
    /\ completedEvents tr = 1%nat
    /\ activeWorkflow (applyEffects now state tr) = None.
Proof.
  induction post as [|step post IH]; intros pre state active Hactive Hs Hnd Hpre Hpost Hne;
    [contradiction|].
  inversion Hpost as [|x l Hstep Hrest]; subst x l.
  pose proof (find_hasId_unique pre step post Hnd) as Hfind. rewrite <- Hs in Hfind.
  pose proof (allRequired_in_sequence active pre step post Hs Hnd Hpre Hrest) as Hall.
  destruct (completionEffects_facts active step (Step.id step) None)
    as (Cc & Ca & _ & _ & Cs & Ce).
  cbn [List.map completeInOrder]. rewrite completeStep_eq, Hactive, Hfind.
  fold (allRequiredStepsComplete active (Step.id step)). rewrite Hall.
  destruct post as [|next post].
  - cbn [bindRun completeInOrder]. eexists. split; [reflexivity|].
    destruct (invoke_silent (Workflow.onComplete active) (Workflow.id active) None)
      as (Ic & Ia & _).
    rewrite app_nil_r, !completions_app, !activations_app, !completedEvents_app,
      Cc, Ca, Ce, Ic, Ia, completedEvents_invoke.
    repeat split. rewrite !applyEffects_app, applyEffects_invoke. reflexivity.
  - inversion Hrest as [|x l Hnext _]; subst x l.
    rewrite (findNextStep_in_sequence active pre step next post Hs Hnd Hnext).
    rewrite executeStep_eq, Hactive.
    assert (Hauto : completesOnActivation state next = false).
    { unfold completesOnActivation. destruct Hnext as (_ & _ & _ & ->).
      destruct (Step.completionCondition next); reflexivity. }
    rewrite Hauto. cbn [andThen bindRun].
    destruct (activationEffects_facts active next) as (Ac & Aa & _ & _ & As & Ae).
    set (tr := completionEffects active step (Step.id step) None
               ++ activationEffects active next).
    destruct (NoDup_ids_split _ _ _ Hnd) as [Hne1 Hne2].
    assert (Hstore : activeWorkflow (applyEffects now state tr)
                     = Some (withSteps active
                               ((pre ++ [markCompleted step]) ++ next :: post))).
    { subst tr.
      rewrite applyEffects_app, activeWorkflow_activationEffects,
        (activeWorkflow_completionEffects _ _ _ _ _ _ Hactive).
      f_equal. f_equal. rewrite Hs, List.map_app, (map_mark_other pre) by assumption.
      change (step :: next :: post) with ([step] ++ next :: post).
      rewrite List.map_app, (map_mark_other (next :: post)) by assumption.
      cbn [List.map]. rewrite String.eqb_refl, <- app_assoc. reflexivity. }
    destruct (IH (pre ++ [markCompleted step]) (applyEffects now state tr) _ Hstore)
      as (tr' & Hrun & Hc' & Ha' & He' & Hidle).
    + reflexivity.
    + rewrite <- app_assoc. simpl. rewrite !List.map_app in *. exact Hnd.
    + apply List.Forall_app. split; [exact Hpre|]. repeat constructor.
    + exact Hrest.
    + discriminate.
    + rewrite Hrun. cbn [bindRun]. eexists. split; [reflexivity|].
      subst tr. rewrite !completions_app, !activations_app, !completedEvents_app,
        Cc, Ca, Ce, Ac, Aa, Ae, Hc', Ha', He'.
      repeat split. rewrite applyEffects_app. exact Hidle.
Qed.

(** Completed in the order of their declaration, one call after the
    other, the steps of a workflow made of required screens without
    dependencies take the workflow to its end: every call returns, each step
    is completed once and in order, each call but the last activates the
    step that follows, [WORKFLOW_COMPLETED] is emitted once, and the store
    is left without an active workflow. *)
Theorem completing_steps_in_order_ends_workflow (fuel : nat) (now : Z)
    (state : WorkflowState) (active : WorkflowDefinition) :
  activeWorkflow state = Some active ->
  Workflow.steps active <> [] ->
  List.NoDup (List.map Step.id (Workflow.steps active)) ->
  List.Forall plainStep (Workflow.steps active) ->
  exists tr,
    completeInOrder fuel now state (List.map Step.id (Workflow.steps active)) = Done tr
    /\ completions tr = List.map (fun s => (Step.id s, None)) (Workflow.steps active)
    /\ activations tr = List.map Step.id (List.tl (Workflow.steps active))
    /\ completedEvents tr = 1%nat
    /\ activeWorkflow (applyEffects now state tr) = None.
Proof.
  intros Hactive Hne Hnd Hplain.
  apply (completeInOrder_sequence fuel now (Workflow.steps active) [] state active);
    try assumption; [reflexivity|constructor].
Qed.
Lemma completing_steps_in_order_ends_workflow_witness :
  exists tr,
    completeInOrder 0 0 (activeState linearWorkflow None) ["step-1"; "step-2"; "step-3"]
    = Done tr
    /\ completions tr = [("step-1", None); ("step-2", None); ("step-3", None)]
    /\ activations tr = ["step-2"; "step-3"]
    /\ completedEvents tr = 1%nat
    /\ activeWorkflow (applyEffects 0 (activeState linearWorkflow None) tr) = None.
Proof.
  apply (completing_steps_in_order_ends_workflow 0 0 (activeState linearWorkflow None)
           linearWorkflow).
  - reflexivity.
  - discriminate.
  - repeat constructor; simpl; intuition discriminate.
  - repeat constructor.
Defined.

(** ** Activation after a completion, at start, while paused and on a skip *)




Lemma firstActivated_activation active step rest :
  firstActivated (activationEffects active step ++ rest) = Some (Step.id step).
Proof. reflexivity. Qed.

Lemma executeStep_activates fuel state active step tr :
  activeWorkflow state = Some active ->
  executeStep fuel state step = Done tr ->
  exists rest,
    tr = activationEffects active step ++ rest
    /\ (completesOnActivation state step = false -> rest = [])
    /\ (completesOnActivation state step = true ->
        exists fuel', fuel = S fuel'
                      /\ completeStep fuel' state (Step.id step) None = Done rest).
Proof.
  intros Hactive. rewrite executeStep_eq, Hactive.
  destruct (completesOnActivation state step).
  - intros H. destruct (andThen_Done _ _ _ H) as (rest & Hrest & ->).
    exists rest. split; [reflexivity|]. split; [discriminate|]. intros _.
    destruct fuel as [|fuel']; [discriminate|]. exists fuel'. split; [reflexivity|exact Hrest].
  - intros H. apply Done_inj in H. subst tr. exists [].
    rewrite app_nil_r. split; [reflexivity|]. split; [reflexivity|discriminate].
Qed.

(** What [completeStep] does when it neither ends the workflow nor
    stalls. *)
Lemma completeStep_goes_on fuel state active stepId d step next tr :
  activeWorkflow state = Some active ->
  List.find (hasId stepId) (Workflow.steps active) = Some step ->
  allRequiredStepsComplete active stepId = false ->
  findNextStep active stepId = Some next ->
  completeStep fuel state stepId d = Done tr ->
  exists rest,
    tr = completionEffects active step stepId d ++ activationEffects active next ++ rest
    /\ (completesOnActivation state next = false -> rest = []).
Proof.
  intros Hactive Hfind Hall Hnext. rewrite completeStep_eq, Hactive, Hfind.
  fold (allRequiredStepsComplete active stepId). rewrite Hall, Hnext.
  intros H. destruct (andThen_Done _ _ _ H) as (tr' & Hrun & ->).
  destruct (executeStep_activates _ _ _ _ _ Hactive Hrun) as (rest & -> & Hrest & _).
  exists rest. split; [reflexivity|exact Hrest].
Qed.




(** C5 (as the code has it).  The paused flag does not gate activation.  A
    [completeStep] made while paused, on a step after which the workflow
    does not end and a next step is selected, dispatches the completion of
    the step and its history entry and activates the next step at once, its
    [onActivate] and its navigation call included, exactly as it does when
    the flag is clear.  The store then has the history entry appended; when
    the next step is not completed on activation it has the step marked
    completed and the next step current, and is still paused.
    [resumeWorkflow], on that store as on any other, activates nothing: it
    clears the flag and emits [WORKFLOW_RESUMED]. *)
Theorem paused_does_not_defer_activation (fuel : nat) (now : Z) (state : WorkflowState)
    (active : WorkflowDefinition) (stepId : string) (d : option JsValue)
    (step next : WorkflowStep) :
  paused state = true ->
  activeWorkflow state = Some active ->
  List.NoDup (List.map Step.id (Workflow.steps active)) ->
  (length (Workflow.steps active) <= fuel)%nat ->
  List.find (hasId stepId) (Workflow.steps active) = Some step ->
  allRequiredStepsComplete active stepId = false ->
  findNextStep active stepId = Some next ->
  completeStep fuel state stepId d = completeStep fuel (setPaused false state) stepId d
  /\ (exists rest,
       completeStep fuel state stepId d
       = Done (completionEffects active step stepId d
               ++ activationEffects active next ++ rest)
       /\ firstActivated (effectsOf (completeStep fuel state stepId d))
          = Some (Step.id next)
       /\ (exists more,
             completions (effectsOf (completeStep fuel state stepId d))
             = (stepId, d) :: more)
       /\ (forall h, Step.onActivate next = Some h ->
             In (Invoke h (Workflow.id active) (Some (Step.id next)))
                (activationEffects active next))
       /\ (Step.headless next = false -> truthy (Step.screen next) = true ->
           In (Navigate (default "" (Step.screen next)) (Step.navigationParams next))
              (activationEffects active next))
       /\ (exists more,
             history (storeAfter now state (completeStep fuel state stepId d))
             = history state
               ++ {| he_workflowId := Workflow.id active; he_stepId := stepId;
                     completedAt := now; he_data := d |} :: more)
       /\ (completesOnActivation state next = false ->
           rest = []
           /\ storeAfter now state (completeStep fuel state stepId d)
              = {| activeWorkflow :=
                     Some (withSteps active
                             (List.map (fun s => if String.eqb (Step.id s) stepId
                                                 then markCompleted s else s)
                                       (Workflow.steps active)));
                   currentStepId := Some (Step.id next);
                   paused := true;
                   history := history state
                              ++ [ {| he_workflowId := Workflow.id active;
                                      he_stepId := stepId;
                                      completedAt := now;
                                      he_data := d |} ];
                   data := data state |}
           /\ resumeWorkflow (storeAfter now state (completeStep fuel state stepId d))
              = [ Dispatch RESUME_WORKFLOW;
                  Emit {| ev_type := WORKFLOW_RESUMED;
                          ev_workflowId := Workflow.id active;
                          ev_stepId := None;
                          ev_data := None |} ]))
  /\ (forall state',
        firstActivated (resumeWorkflow state') = None
        /\ forall e, In e (resumeWorkflow state') ->
             forall h w c screenName params,
               e <> Invoke h w c /\ e <> Navigate screenName params).
Proof.
  intros Hpaused Hactive Hnd Hfuel Hfind Hall Hnext.
  split; [symmetry; apply completeStep_setPaused|].
  split; [|intros state'; split;
           [unfold resumeWorkflow; destruct (activeWorkflow state'); reflexivity
           |intros e H h w c screenName params; unfold resumeWorkflow in H;
            destruct (activeWorkflow state'); simpl in H;
            intuition (subst; discriminate)]].
  destruct (completeStep_total state active fuel stepId d Hactive Hnd Hfuel) as (tr & Hrun).
  destruct (completeStep_goes_on _ _ _ _ _ _ _ _ Hactive Hfind Hall Hnext Hrun)
    as (rest & -> & Hrest).
  exists rest. split; [exact Hrun|]. rewrite Hrun. unfold storeAfter, effectsOf.
  destruct (completionEffects_facts active step stepId d) as (Cc & _).
  split; [|split; [|split; [|split; [|split; [|]]]]].
  - rewrite firstActivated_app by apply firstActivated_completion.
    apply firstActivated_activation.
  - exists (completions (activationEffects active next ++ rest)).
    rewrite completions_app, Cc. reflexivity.
  - intros h Hh. unfold activationEffects. rewrite Hh. simpl. right. right. left. reflexivity.
  - intros Hh Hs. unfold activationEffects. rewrite Hh, Hs. simpl. right. right.
    apply in_or_app. right. left. reflexivity.
  - exists (historyAdds now (activationEffects active next ++ rest)).
    rewrite history_after_trace, historyAdds_app.
    destruct (completionEffects_facts active step stepId d) as (_ & _ & Ch & _).
    rewrite Ch. reflexivity.
  - intros Hauto. rewrite (Hrest Hauto), app_nil_r. split; [reflexivity|].
    assert (Hstore :
      applyEffects now state
        (completionEffects active step stepId d ++ activationEffects active next)
      = {| activeWorkflow :=
             Some (withSteps active
                     (List.map (fun s => if String.eqb (Step.id s) stepId
                                         then markCompleted s else s)
                               (Workflow.steps active)));
           currentStepId := Some (Step.id next);
           paused := true;
           history := history state
                      ++ [ {| he_workflowId := Workflow.id active;
                              he_stepId := stepId;
                              completedAt := now;
                              he_data := d |} ];
           data := data state |}).
    { unfold completionEffects, activationEffects.
      rewrite !applyEffects_app, !applyEffects_invoke. simpl.
      rewrite Hactive, Hpaused.
      destruct (negb (Step.headless next) && truthy (Step.screen next)); reflexivity. }
    rewrite Hstore. split; reflexivity.
Qed.

Lemma paused_does_not_defer_activation_witness :
  exists rest,
    completeStep 3 (setPaused true (activeState linearWorkflow (Some "step-1"))) "step-1" None
    = Done (completionEffects linearWorkflow (screenStep "step-1" "S1" true []) "step-1" None
            ++ activationEffects linearWorkflow (screenStep "step-2" "S2" true []) ++ rest)
    /\ In (Navigate "S2" None)
          (activationEffects linearWorkflow (screenStep "step-2" "S2" true [])).
Proof.
  destruct (paused_does_not_defer_activation 3 0
              (setPaused true (activeState linearWorkflow (Some "step-1")))
              linearWorkflow "step-1" None
              (screenStep "step-1" "S1" true []) (screenStep "step-2" "S2" true []))
    as (_ & (rest & Hrun & _ & _ & _ & Hnav & _) & _); try reflexivity.
  - repeat constructor; simpl; intuition discriminate.
  - exists rest. split; [exact Hrun|]. apply Hnav; reflexivity.
Defined.

(** C9 (as the code has it).  [skipToStep] on a step of the active workflow
    activates it whatever its dependencies are, and the call completes no
    step declared before it.  When the target is not a headless step whose
    completion condition already holds, the call does nothing else: the
    target becomes the current step and no completed flag changes.  A
    headless target whose completion condition holds is completed at once
    by [executeStep], as on any activation. *)
Theorem skipToStep_activates_target (fuel : nat) (now : Z) (state : WorkflowState)
    (active : WorkflowDefinition) (stepId : string) (step : WorkflowStep) :
  activeWorkflow state = Some active ->
  List.NoDup (List.map Step.id (Workflow.steps active)) ->
  (length (Workflow.steps active) < fuel)%nat ->
  List.find (hasId stepId) (Workflow.steps active) = Some step ->
  exists rest,
    skipToStep fuel state stepId = Done (activationEffects active step ++ rest)
    /\ firstActivated (effectsOf (skipToStep fuel state stepId)) = Some stepId
    /\ (completesOnActivation state step = false ->
        rest = []
        /\ storeAfter now state (skipToStep fuel state stepId)
           = {| activeWorkflow := Some active;
                currentStepId := Some stepId;
                paused := paused state;
                history := history state;
                data := data state |}
        /\ completedFlags (storeAfter now state (skipToStep fuel state stepId))
           = completedFlags state)
    /\ (completesOnActivation state step = true ->
        exists rest', rest = completionEffects active step stepId None ++ rest')
    /\ (forall c,
          In c (completions (effectsOf (skipToStep fuel state stepId))) ->
          exists pre s post,
            Workflow.steps active = pre ++ s :: post
            /\ Step.id s = fst c
            /\ findIndex (hasId stepId) (Workflow.steps active) <= Z.of_nat (length pre)).
Proof.
  intros Hactive Hnd Hfuel Hfind.
  destruct (find_hasId_id _ _ _ Hfind) as [Hin Hid].
  destruct (executeStep_total state active fuel step Hactive Hnd Hfuel) as (tr & Hexec).
  assert (Hrun : skipToStep fuel state stepId = Done tr).
  { unfold skipToStep. rewrite Hactive, Hfind. exact Hexec. }
  destruct (executeStep_activates _ _ _ _ _ Hactive Hexec) as (rest & -> & Hquiet & Hauto).
  exists rest. split; [exact Hrun|]. rewrite Hrun. unfold storeAfter, effectsOf.
  split; [rewrite firstActivated_activation, Hid; reflexivity|].
  destruct (activationEffects_facts active step) as (Ac & _).
  split; [|split].
  - intros Hno. rewrite (Hquiet Hno), app_nil_r. split; [reflexivity|].
    assert (Hstore : applyEffects now state (activationEffects active step)
                     = {| activeWorkflow := Some active;
                          currentStepId := Some stepId;
                          paused := paused state;
                          history := history state;
                          data := data state |}).
    { unfold activationEffects.
      rewrite applyEffects_app. simpl. rewrite applyEffects_app, applyEffects_invoke.
      rewrite Hid, Hactive.
      destruct (negb (Step.headless step) && truthy (Step.screen step)); reflexivity. }
    rewrite Hstore. split; [reflexivity|].
    unfold completedFlags. simpl. rewrite Hactive. reflexivity.
  - intros Hyes. destruct (Hauto Hyes) as (fuel' & _ & Hchain). rewrite Hid in Hchain.
    destruct (completeStep_found _ _ _ _ _ _ _ Hactive Hfind Hchain) as (rest' & ->).
    exists rest'. reflexivity.
  - intros c Hc. rewrite completions_app, Ac in Hc. simpl in Hc.
    destruct (completesOnActivation state step) eqn:Hyes;
      [|rewrite (Hquiet eq_refl) in Hc; destruct Hc].
    destruct (Hauto eq_refl) as (fuel' & _ & Hchain). rewrite Hid in Hchain.
    destruct (chain_completions _ _ _ _ _
                (completeStep_chain state active Hactive _ _ _ _ _ Hfind Hchain) Hnd)
      as [Hall _].
    rewrite List.Forall_forall in Hall. destruct (Hall c Hc) as (Hle & s & Hs & Hsid).
    destruct (in_split _ _ Hs) as (pre & post & Hsplit).
    exists pre, s, post. split; [exact Hsplit|split; [exact Hsid|]].
    rewrite <- Hsid, (findIndex_of_step _ pre s post Hnd Hsplit) in Hle. exact Hle.
Qed.

(** The target has an unmet dependency and is activated all the same. *)
Lemma skipToStep_activates_target_witness :
  exists rest,
    skipToStep 4 (activeState detourWorkflow (Some "first")) "last"
    = Done (activationEffects detourWorkflow (screenStep "last" "Last" true ["first"])
            ++ rest)
    /\ firstActivated (effectsOf (skipToStep 4 (activeState detourWorkflow (Some "first"))
                                    "last"))
       = Some "last"
    /\ areDependenciesMet (screenStep "last" "Last" true ["first"]) detourWorkflow = false.
Proof.
  destruct (skipToStep_activates_target 4 0 (activeState detourWorkflow (Some "first"))
              detourWorkflow "last" (screenStep "last" "Last" true ["first"]))
    as (rest & Hrun & Hfirst & _); try reflexivity.
  - repeat constructor; simpl; intuition discriminate.
  - simpl. lia.
  - exists rest. split; [exact Hrun|split; [exact Hfirst|reflexivity]].
Defined.
